(** * promptly: a Discord relay bot with encrypted per-user credentials

    A shallow embedding of [src/index.js] and the properties of its
    credential codec, its user store and its chat-session life cycle.

    Conventions of the embedding.
    - A JavaScript string is represented by the bytes of its UTF-8 encoding
      ([string], one [ascii] per byte); [js_length] recovers the number of
      UTF-16 code units that the [.length] property reports.  Strings that
      have no UTF-8 encoding (lone surrogates) are not represented.
    - A Node [Buffer] is a [list ascii].
    - The AES block transformation of Node's [crypto] module is a parameter
      of the development; CBC chaining, PKCS#7 padding, hexadecimal
      transcoding and the token format are modelled in full.
    - Randomness ([crypto.randomBytes]) and the outcome of awaited I/O are
      supplied by the environment, as arguments of the events.
    - An [async] handler runs atomically up to its next [await]; what
      remains is kept in the state as a suspended continuation, resumed by
      a later event.  An await is a suspension point of the model when the
      code after it reads or writes the store, the registry or a
      collector, or depends on the outcome; consecutive awaits with
      nothing of that kind in between are taken together.
    - Calls of the messaging platform ([reply], [send], [sendTyping],
      [channels.fetch]) are taken to succeed; what they do is recorded as
      an effect. *)

From Stdlib Require Import Ascii String List Bool Arith ZArith Lia DecimalString.
From stdpp Require Import gmap strings list fin_maps.

#[global] Arguments String.append !s1 s2 / : simpl nomatch.

(** ** Results of fallible code *)

Inductive result (A : Type) : Type :=
| Ok (a : A)
| Throw (msg : string).
Arguments Ok {A} a.
Arguments Throw {A} msg.

#[global] Instance result_ret : MRet result := λ A a, Ok a.

#[global] Instance result_bind : MBind result := λ A B k r,
  match r with
  | Ok a => k a
  | Throw msg => Throw msg
  end.

(** [try { body } catch { throw new Error(msg) }] *)
Definition catch_rethrow {A} (body : result A) (msg : string) : result A :=
  match body with
  | Ok a => Ok a
  | Throw _ => Throw msg
  end.

Definition is_ok {A} (r : result A) : bool :=
  match r with Ok _ => true | Throw _ => false end.

(** ** JavaScript strings *)

Module Js.

(** Number of UTF-16 code units contributed by one byte of a UTF-8
    encoding: none for a continuation byte (10xxxxxx), two for the lead
    byte of a four-byte sequence (1111xxxx, a surrogate pair), one
    otherwise. *)
Definition utf16_units (c : ascii) : nat :=
  match c with
  | Ascii _ _ _ _ b4 b5 b6 b7 =>
      if b7 && negb b6 then 0
      else if b7 && b6 && b5 && b4 then 2
      else 1
  end.

(** [s.length] *)
Fixpoint js_length (s : string) : nat :=
  match s with
  | EmptyString => 0
  | String c rest => utf16_units c + js_length rest
  end.

(** Truthiness of a value that is a string, [null] or [undefined]. *)
Definition truthy (v : option string) : bool :=
  match v with
  | Some (String _ _) => true
  | _ => false
  end.

Definition is_ascii_char (c : ascii) : bool :=
  match c with Ascii _ _ _ _ _ _ _ b7 => negb b7 end.

Fixpoint is_ascii (s : string) : bool :=
  match s with
  | EmptyString => true
  | String c rest => is_ascii_char c && is_ascii rest
  end.

Fixpoint repeat_char (c : ascii) (n : nat) : string :=
  match n with
  | 0 => EmptyString
  | S n' => String c (repeat_char c n')
  end.

Definition bytes (l : list nat) : string :=
  string_of_list_ascii (map ascii_of_nat l).

Fixpoint string_rev_append (s acc : string) : string :=
  match s with
  | EmptyString => acc
  | String c rest => string_rev_append rest (String c acc)
  end.
Definition string_rev (s : string) : string := string_rev_append s EmptyString.

(** The code points that [String.prototype.trim] removes (WhiteSpace and
    LineTerminator of ECMA-262), in UTF-8. *)
Definition white_space : list string :=
  [ bytes [9]; bytes [10]; bytes [11]; bytes [12]; bytes [13]; bytes [32];
    bytes [194; 160];                       (* U+00A0 *)
    bytes [225; 154; 128];                  (* U+1680 *)
    bytes [226; 128; 128]; bytes [226; 128; 129]; bytes [226; 128; 130];
    bytes [226; 128; 131]; bytes [226; 128; 132]; bytes [226; 128; 133];
    bytes [226; 128; 134]; bytes [226; 128; 135]; bytes [226; 128; 136];
    bytes [226; 128; 137]; bytes [226; 128; 138]; (* U+2000 .. U+200A *)
    bytes [226; 128; 168]; bytes [226; 128; 169]; (* U+2028, U+2029 *)
    bytes [226; 128; 175];                  (* U+202F *)
    bytes [226; 129; 159];                  (* U+205F *)
    bytes [227; 128; 128];                  (* U+3000 *)
    bytes [239; 187; 191] ].                (* U+FEFF *)

Fixpoint strip_prefix (p s : string) : option string :=
  match p, s with
  | EmptyString, _ => Some s
  | String a p', String b s' =>
      if Ascii.eqb a b then strip_prefix p' s' else None
  | String _ _, EmptyString => None
  end.

Fixpoint strip_one (pats : list string) (s : string) : option string :=
  match pats with
  | [] => None
  | p :: pats' =>
      match strip_prefix p s with
      | Some r => Some r
      | None => strip_one pats' s
      end
  end.

Fixpoint strip_all (fuel : nat) (pats : list string) (s : string) : string :=
  match fuel with
  | 0 => s
  | S fuel' =>
      match strip_one pats s with
      | Some r => strip_all fuel' pats r
      | None => s
      end
  end.

Definition trimStart (s : string) : string :=
  strip_all (String.length s) white_space s.

Definition trimEnd (s : string) : string :=
  string_rev
    (strip_all (String.length s) (map string_rev white_space) (string_rev s)).

(** [s.trim()] *)
Definition trim (s : string) : string := trimEnd (trimStart s).

Definition lower_char (c : ascii) : ascii :=
  let n := nat_of_ascii c in
  if (65 <=? n) && (n <=? 90) then ascii_of_nat (n + 32) else c.

(** [s.toLowerCase()] on the ASCII letters.  No character outside ASCII
    lower-cases to one of the letters of "exit" or "stop", so a comparison
    of the result with these keywords is decided as in JavaScript. *)
Fixpoint toLowerCase (s : string) : string :=
  match s with
  | EmptyString => EmptyString
  | String c rest => String (lower_char c) (toLowerCase rest)
  end.

(** [s.split(sep)] for a one-character separator. *)
Fixpoint split (sep : ascii) (s : string) : list string :=
  match s with
  | EmptyString => [EmptyString]
  | String c rest =>
      if Ascii.eqb c sep then EmptyString :: split sep rest
      else
        match split sep rest with
        | p :: ps => String c p :: ps
        | [] => [String c EmptyString]
        end
  end.

(** [parts.join(sep)] *)
Fixpoint join (sep : string) (parts : list string) : string :=
  match parts with
  | [] => EmptyString
  | [p] => p
  | p :: ps => p +:+ sep +:+ join sep ps
  end.

(** [list.includes(s)] *)
Definition includes (l : list string) (s : string) : bool :=
  existsb (String.eqb s) l.

(** Template interpolation of a number. *)
Definition string_of_nat (n : nat) : string :=
  NilZero.string_of_uint (Nat.to_uint n).

End Js.

(** ** Hexadecimal transcoding of buffers *)

Abbreviation Buffer := (list ascii).

Module Hex.

Definition digit (b3 b2 b1 b0 : bool) : ascii :=
  match b3, b2, b1, b0 with
  | false, false, false, false => "0"
  | false, false, false, true => "1"
  | false, false, true, false => "2"
  | false, false, true, true => "3"
  | false, true, false, false => "4"
  | false, true, false, true => "5"
  | false, true, true, false => "6"
  | false, true, true, true => "7"
  | true, false, false, false => "8"
  | true, false, false, true => "9"
  | true, false, true, false => "a"
  | true, false, true, true => "b"
  | true, true, false, false => "c"
  | true, true, false, true => "d"
  | true, true, true, false => "e"
  | true, true, true, true => "f"
  end%char.

(** Value of a hexadecimal digit, as the four bits (most significant
    first); both letter cases are accepted, as Node does. *)
Definition unhex (c : ascii) : option (bool * bool * bool * bool) :=
  match c with
  | "0" => Some (false, false, false, false)
  | "1" => Some (false, false, false, true)
  | "2" => Some (false, false, true, false)
  | "3" => Some (false, false, true, true)
  | "4" => Some (false, true, false, false)
  | "5" => Some (false, true, false, true)
  | "6" => Some (false, true, true, false)
  | "7" => Some (false, true, true, true)
  | "8" => Some (true, false, false, false)
  | "9" => Some (true, false, false, true)
  | "a" | "A" => Some (true, false, true, false)
  | "b" | "B" => Some (true, false, true, true)
  | "c" | "C" => Some (true, true, false, false)
  | "d" | "D" => Some (true, true, false, true)
  | "e" | "E" => Some (true, true, true, false)
  | "f" | "F" => Some (true, true, true, true)
  | _ => None
  end%char.

(** [buf.toString('hex')] *)
Fixpoint encode (buf : Buffer) : string :=
  match buf with
  | [] => EmptyString
  | Ascii b0 b1 b2 b3 b4 b5 b6 b7 :: rest =>
      String (digit b7 b6 b5 b4) (String (digit b3 b2 b1 b0) (encode rest))
  end.

(** [Buffer.from(s, 'hex')]: decoding never throws; it stops at the first
    pair that is not two hexadecimal digits and drops a trailing single
    character.  No byte of a character outside ASCII is a digit. *)
Fixpoint decode (s : string) : Buffer :=
  match s with
  | String h (String l rest) =>
      match unhex h, unhex l with
      | Some (b7, b6, b5, b4), Some (b3, b2, b1, b0) =>
          Ascii b0 b1 b2 b3 b4 b5 b6 b7 :: decode rest
      | _, _ => []
      end
  | _ => []
  end.

Definition is_digit (c : ascii) : bool :=
  match unhex c with Some _ => true | None => false end.

(** A well-formed hexadecimal string: an even number of digits. *)
Fixpoint well_formed (s : string) : bool :=
  match s with
  | EmptyString => true
  | String h (String l rest) => is_digit h && is_digit l && well_formed rest
  | String _ EmptyString => false
  end.

End Hex.

(** ** The block cipher in CBC mode with PKCS#7 padding

    Node's [crypto.createCipheriv('aes-256-cbc', key, iv)] and
    [createDecipheriv], with the streaming interface [update] / [final] of
    OpenSSL's EVP layer.  The AES-256 transformation of one 16-byte block
    is the parameter [aes_enc] / [aes_dec]. *)

Module Cbc.

Definition BLOCK_SIZE : nat := 16.
Definition KEY_SIZE : nat := 32.

Definition xor_ascii (a b : ascii) : ascii :=
  match a, b with
  | Ascii a0 a1 a2 a3 a4 a5 a6 a7, Ascii b0 b1 b2 b3 b4 b5 b6 b7 =>
      Ascii (xorb a0 b0) (xorb a1 b1) (xorb a2 b2) (xorb a3 b3)
            (xorb a4 b4) (xorb a5 b5) (xorb a6 b6) (xorb a7 b7)
  end.

Fixpoint xor_bytes (a b : Buffer) : Buffer :=
  match a, b with
  | x :: a', y :: b' => xor_ascii x y :: xor_bytes a' b'
  | _, _ => []
  end.

Definition block_sized (b : Buffer) : Prop := length b = BLOCK_SIZE.

(** The complete blocks at the front of [data], and the bytes left over. *)
Fixpoint split_blocks (fuel : nat) (data : Buffer) : list Buffer * Buffer :=
  match fuel with
  | 0 => ([], data)
  | S fuel' =>
      if BLOCK_SIZE <=? length data then
        let '(bs, r) := split_blocks fuel' (skipn BLOCK_SIZE data) in
        (firstn BLOCK_SIZE data :: bs, r)
      else ([], data)
  end.

Definition blocks (data : Buffer) : list Buffer * Buffer :=
  split_blocks (length data) data.

Definition pkcs7_pad (partial : Buffer) : Buffer :=
  let n := BLOCK_SIZE - length partial in
  partial ++ repeat (ascii_of_nat n) n.

Definition pkcs7_unpad (block : Buffer) : result Buffer :=
  let n := nat_of_ascii (List.last block zero) in
  if (n =? 0) || (BLOCK_SIZE <? n) then Throw "bad decrypt"
  else if forallb (Ascii.eqb (ascii_of_nat n)) (skipn (BLOCK_SIZE - n) block)
       then Ok (firstn (BLOCK_SIZE - n) block)
       else Throw "bad decrypt".

Record Cipher := {
  c_key : Buffer;
  c_chain : Buffer;         (* the previous ciphertext block, initially the IV *)
  c_partial : Buffer        (* input not yet filling a block *)
}.

Record Decipher := {
  d_key : Buffer;
  d_chain : Buffer;
  d_partial : Buffer;
  d_held : option Buffer    (* last decrypted block, kept for [final] *)
}.

Definition check_key_iv (key iv : Buffer) : result unit :=
  if negb (length iv =? BLOCK_SIZE) then Throw "Invalid initialization vector"
  else if negb (length key =? KEY_SIZE) then Throw "Invalid key length"
  else Ok tt.

Definition createCipheriv (key iv : Buffer) : result Cipher :=
  _ ← check_key_iv key iv;
  Ok {| c_key := key; c_chain := iv; c_partial := [] |}.

Definition createDecipheriv (key iv : Buffer) : result Decipher :=
  _ ← check_key_iv key iv;
  Ok {| d_key := key; d_chain := iv; d_partial := []; d_held := None |}.

Section BlockCipher.

Variable aes_enc : Buffer → Buffer → Buffer.   (* key, plaintext block *)
Variable aes_dec : Buffer → Buffer → Buffer.   (* key, ciphertext block *)

Fixpoint encrypt_blocks (key chain : Buffer) (bs : list Buffer)
  : list Buffer * Buffer :=
  match bs with
  | [] => ([], chain)
  | b :: bs' =>
      let c := aes_enc key (xor_bytes b chain) in
      let '(cs, chain') := encrypt_blocks key c bs' in
      (c :: cs, chain')
  end.

Fixpoint decrypt_blocks (key chain : Buffer) (cs : list Buffer)
  : list Buffer * Buffer :=
  match cs with
  | [] => ([], chain)
  | c :: cs' =>
      let b := xor_bytes (aes_dec key c) chain in
      let '(bs, chain') := decrypt_blocks key c cs' in
      (b :: bs, chain')
  end.

(** [cipher.update(data)]: every complete block is encrypted. *)
Definition cipher_update (c : Cipher) (data : Buffer) : Cipher * Buffer :=
  let '(bs, r) := blocks (c_partial c ++ data) in
  let '(cs, chain') := encrypt_blocks (c_key c) (c_chain c) bs in
  ({| c_key := c_key c; c_chain := chain'; c_partial := r |}, concat cs).

(** [cipher.final()]: the padded last block. *)
Definition cipher_final (c : Cipher) : result Buffer :=
  Ok (aes_enc (c_key c) (xor_bytes (pkcs7_pad (c_partial c)) (c_chain c))).

(** [decipher.update(data)]: every complete block is decrypted; when the
    input ends on a block boundary the last decrypted block is held
    back, since it may carry the padding. *)
Definition decipher_update (d : Decipher) (data : Buffer)
  : Decipher * Buffer :=
  match data with
  | [] => (d, [])
  | _ :: _ =>
      let '(cs, r) := blocks (d_partial d ++ data) in
      let '(bs, chain') := decrypt_blocks (d_key d) (d_chain d) cs in
      let out := option_list (d_held d) ++ bs in
      match r with
      | [] =>
          ({| d_key := d_key d; d_chain := chain'; d_partial := [];
              d_held := last out |},
           concat (removelast out))
      | _ :: _ =>
          ({| d_key := d_key d; d_chain := chain'; d_partial := r;
              d_held := None |},
           concat out)
      end
  end.

(** [decipher.final()]: fails on an incomplete or missing last block
    and on wrong padding. *)
Definition decipher_final (d : Decipher) : result Buffer :=
  match d_partial d, d_held d with
  | [], Some block => pkcs7_unpad block
  | _, _ => Throw "wrong final block length"
  end.

End BlockCipher.

End Cbc.

(** ** The credential codec: [encrypt] and [decrypt] of index.js *)

Definition IV_LENGTH : nat := 16.

(** [Buffer.from(s)] (UTF-8) and [buf.toString('utf8')]. *)
Definition Buffer_from (s : string) : Buffer := list_ascii_of_string s.
Definition utf8_string (b : Buffer) : string := string_of_list_ascii b.

(** [cipher.update(text, 'utf8', 'hex')] and [cipher.final('hex')] *)
Definition cipher_update_utf8_hex aes_enc (c : Cbc.Cipher) (text : string)
  : Cbc.Cipher * string :=
  let '(c', out) := Cbc.cipher_update aes_enc c (Buffer_from text) in
  (c', Hex.encode out).

Definition cipher_final_hex aes_enc (c : Cbc.Cipher) : result string :=
  out ← Cbc.cipher_final aes_enc c;
  Ok (Hex.encode out).

(** [decipher.update(data, 'hex', 'utf8')]: a string whose [length] is
    odd is refused for the encoding 'hex'; otherwise it is decoded as by
    [Buffer.from]. *)
Definition decipher_update_hex_utf8 aes_dec (d : Cbc.Decipher) (data : string)
  : result (Cbc.Decipher * string) :=
  if Nat.odd (Js.js_length data) then Throw "The argument 'encoding' is invalid"
  else
    let '(d', out) := Cbc.decipher_update aes_dec d (Hex.decode data) in
    Ok (d', utf8_string out).

Definition decipher_final_utf8 (d : Cbc.Decipher) : result string :=
  out ← Cbc.decipher_final d;
  Ok (utf8_string out).

Section SecretCodec.

Variable aes_enc : Buffer → Buffer → Buffer.
Variable aes_dec : Buffer → Buffer → Buffer.
Variable ENCRYPTION_KEY : string.

(** [iv] is the result of [crypto.randomBytes(IV_LENGTH)]. *)
Definition encrypt (iv : Buffer) (text : string) : result string :=
  cipher ← Cbc.createCipheriv (Buffer_from ENCRYPTION_KEY) iv;
  let '(cipher, encrypted) := cipher_update_utf8_hex aes_enc cipher text in
  final ← cipher_final_hex aes_enc cipher;
  let encrypted := encrypted +:+ final in
  Ok ((Hex.encode iv +:+ ":") +:+ encrypted).

Definition decrypt (text : string) : result string :=
  catch_rethrow
    (let parts := Js.split ":" text in
     if length parts <? 2 then Throw "Invalid encrypted text"
     else
       match parts with
       | first :: parts =>                     (* parts.shift() *)
           let iv := Hex.decode first in
           let encryptedText := Js.join ":" parts in
           decipher ← Cbc.createDecipheriv (Buffer_from ENCRYPTION_KEY) iv;
           '(decipher, decrypted) ←
             decipher_update_hex_utf8 aes_dec decipher encryptedText;
           final ← decipher_final_utf8 decipher;
           Ok (decrypted +:+ final)
       | [] => Throw "Invalid encrypted text"
       end)
    "Failed to decrypt text".

End SecretCodec.

(** ** What the codec computes, stated on whole messages

    The definitions of this part are not translations of code: they say,
    in the words of the specification, what a token is and when it is
    rejected, and are compared with [encrypt] and [decrypt] below. *)

Module Token.

Definition colon_free (s : string) : Prop :=
  ∀ c, In c (list_ascii_of_string s) → c ≠ ":"%char.

(** The text before the first colon, and the text after it. *)
Definition nonce_segment (t : string) : string :=
  hd EmptyString (Js.split ":" t).
Definition ciphertext_segment (t : string) : string :=
  Js.join ":" (tl (Js.split ":" t)).

Section Whole.

Variable aes_enc : Buffer → Buffer → Buffer.
Variable aes_dec : Buffer → Buffer → Buffer.
Variable ENCRYPTION_KEY : string.

(** CBC encryption of the PKCS#7-padded message. *)
Definition cbc_encrypt (iv data : Buffer) : Buffer :=
  let '(bs, r) := Cbc.blocks data in
  concat (Cbc.encrypt_blocks aes_enc (Buffer_from ENCRYPTION_KEY) iv
            (bs ++ [Cbc.pkcs7_pad r])).1.

(** CBC decryption of the complete blocks of the ciphertext that the
    token carries, before the padding is removed. *)
Definition plain_blocks (t : string) : list Buffer :=
  (Cbc.decrypt_blocks aes_dec (Buffer_from ENCRYPTION_KEY)
     (Hex.decode (nonce_segment t))
     (Cbc.blocks (Hex.decode (ciphertext_segment t))).1).1.

Definition padding_rejected (t : string) : bool :=
  negb (is_ok (Cbc.pkcs7_unpad (List.last (plain_blocks t) []))).

(** The tokens that [decrypt] refuses. *)
Definition rejected (t : string) : bool :=
  let ct := Hex.decode (ciphertext_segment t) in
  (length (Js.split ":" t) <? 2)
  || negb (length (Hex.decode (nonce_segment t)) =? IV_LENGTH)
  || Nat.odd (Js.js_length (ciphertext_segment t))
  || (length ct =? 0)
  || negb (length ct mod Cbc.BLOCK_SIZE =? 0)
  || padding_rejected t.

(** The plaintext of a token that is not refused. *)
Definition plaintext (t : string) : string :=
  utf8_string (concat (removelast (plain_blocks t)))
  +:+ match Cbc.pkcs7_unpad (List.last (plain_blocks t) []) with
      | Ok r => utf8_string r
      | Throw _ => EmptyString
      end.


End Whole.

End Token.

(** ** Start-up check of the configured key (index.js, lines 11-17) *)

Inductive Startup :=
| Exited (code : nat) (stderr : string)
| Started (ENCRYPTION_KEY : string).

(** [env_key] is [process.env.ENCRYPTION_KEY], [None] when the variable is
    not set. *)
Definition startup (env_key : option string) : Startup :=
  let ENCRYPTION_KEY := Js.trim <$> env_key in
  match ENCRYPTION_KEY with
  | Some key =>
      if negb (Js.truthy (Some key)) || negb (Js.js_length key =? 32)
      then Exited 1 "ENCRYPTION_KEY must be set in .env and be 32 characters long."
      else Started key
  | None =>
      Exited 1 "ENCRYPTION_KEY must be set in .env and be 32 characters long."
  end.

(** A stand-in block transformation, used to run the model on concrete
    inputs: the block is combined with the first half of the key. *)
Definition toy_enc (key block : Buffer) : Buffer :=
  Cbc.xor_bytes block (firstn Cbc.BLOCK_SIZE key).
Definition toy_dec (key block : Buffer) : Buffer :=
  Cbc.xor_bytes block (firstn Cbc.BLOCK_SIZE key).

Definition sample_key : string := "0123456789abcdef0123456789abcdef".
Definition sample_iv : Buffer := Buffer_from "ABCDEFGHIJKLMNOP".

(** The token of "sk-abc" under [toy_enc], [sample_key] and [sample_iv],
    and the same token with two letters put after its nonce. *)
Definition sample_token : string :=
  "4142434445464748494a4b4c4d4e4f50:02185c1613107b757b7920242420203c".

(** The token of fifteen "a", the byte 1 and "bbbb", with the first byte
    of its second ciphertext block replaced by two letters. *)
Definition truncated_token : string :=
  "4142434445464748494a4b4c4d4e4f50:101210161012101e10124b4f4f4b4b37zz414047282b2a25242726212023225d".

(** A key of 32 characters, the first of which (U+00E9) takes two bytes
    in UTF-8. *)
Definition multibyte_key : string :=
  Js.bytes [195; 169] +:+ Js.repeat_char "a" 31.


(** ** The bot: user store, session registry and message collectors *)

Definition nl : string := String "010" EmptyString.
Definition dq : string := String "034" EmptyString.

(** One entry of [userData]. *)
Record UserRecord := {
  promptId : option string;
  openaiKey : option string
}.

Definition set_promptId (v : option string) (r : UserRecord) : UserRecord :=
  {| promptId := v; openaiKey := openaiKey r |}.
Definition set_openaiKey (v : option string) (r : UserRecord) : UserRecord :=
  {| promptId := promptId r; openaiKey := v |}.

(** A parsed JSON document. *)
Unset Elimination Schemes.
Inductive Json :=
| JNull
| JBool (b : bool)
| JNum (z : Z)
| JStr (s : string)
| JArr (items : list Json)
| JObj (fields : list (string * Json)).
Set Elimination Schemes.

Module JsonAccess.

(** The last binding of a key wins, as in [JSON.parse]. *)
Fixpoint lookup_field (k : string) (fields : list (string * Json))
  : option Json :=
  match fields with
  | [] => None
  | (k', v) :: rest =>
      match lookup_field k rest with
      | Some v' => Some v'
      | None => if String.eqb k k' then Some v else None
      end
  end.

(** [v.name] on a value that is neither [null] nor [undefined], for a
    name other than [length]. *)
Definition prop (name : string) (v : Json) : option Json :=
  match v with
  | JObj fields => lookup_field name fields
  | _ => None
  end.

(** [v[0]].  On a string the result is its first character; only its
    being defined matters to the caller. *)
Definition index0 (v : Json) : option Json :=
  match v with
  | JArr (x :: _) => Some x
  | JObj fields => lookup_field "0" fields
  | JStr (String c _) => Some (JStr (String c EmptyString))
  | _ => None
  end.

(** [o?.access]: [undefined] when [o] is [undefined] or [null]. *)
Definition optional (access : Json → option Json) (o : option Json)
  : option Json :=
  match o with
  | None | Some JNull => None
  | Some v => access v
  end.

Definition truthy (o : option Json) : bool :=
  match o with
  | None | Some JNull | Some (JBool false) | Some (JNum 0%Z)
  | Some (JStr EmptyString) => false
  | Some _ => true
  end.

(** [result.choices?.[0]?.message?.content]; the first access throws a
    TypeError on [null]. *)
Definition completion_content (parsed : Json) : result (option Json) :=
  match parsed with
  | JNull => Throw "TypeError: Cannot read properties of null"
  | _ =>
      Ok (optional (prop "content")
           (optional (prop "message")
             (optional index0 (prop "choices" parsed))))
  end.

End JsonAccess.

(** A slash-command invocation, as far as the handlers read it. *)
Record Interaction := {
  isChatInputCommand : bool;
  user_id : string;                   (* interaction.user.id *)
  channelId : string;
  commandName : string;
  prompt_id : option string;          (* options.getString('prompt_id') *)
  openai_key : option string          (* options.getString('openai_key') *)
}.

Record Message := {
  message_id : nat;
  author_id : string;                 (* m.author.id *)
  m_channelId : string;
  content : string
}.

(** The body of a completion request. *)
Record Payload := {
  model : string;
  max_tokens : nat;
  system_content : string;
  user_content : string
}.

(** What a handler does to the outside world. *)
Inductive Effect :=
| Reply (i : Interaction) (text : string) (ephemeral : bool)
| DeleteReplyAfter (i : Interaction) (ms : N)
| MessageReply (m : Message) (body : Json)
| ChannelSend (channel : string) (text : string)
| SendTyping (channel : string)
| HttpsRequest (authorization : string) (body : Payload)
| WriteFile (data : gmap string UserRecord)
| Log (text : string).

(** A live message collector with what its listeners close over. *)
Record Collector := {
  collector_id : nat;
  c_userId : string;
  c_channelId : string;
  c_prompt : string;
  c_openaiKey : string;
  collected : list Message
}.

(** What runs after [await saveUserData()]. *)
Inductive SaveCont :=
| KSetPrompt (i : Interaction) (charCount : nat)
| KSetKey (i : Interaction)
| KDeletePrompt (i : Interaction)
| KDeleteKey (i : Interaction)
| KChat (i : Interaction) (prompt : option string) (openaiKey : string).

(** A handler suspended at an [await]. *)
Inductive Pending :=
| AwaitSave (k : SaveCont)
| ChatAwaitReply (i : Interaction) (prompt openaiKey : string)
                                      (* index.js 182-189 *)
| ExitAwaitAck (collector : nat) (m : Message)      (* index.js 197 *)
| RequestInFlight (m : Message).                    (* index.js 213-240 *)

(** How an awaited operation completes. *)
Inductive Outcome :=
| Settled
| WriteOk
| WriteFailed (err : string)
| ResponseEnd (parsed : option Json)  (* [None]: [JSON.parse(data)] throws *)
| RequestError.

Inductive Event :=
| InteractionCreate (i : Interaction) (random : Buffer)
| MessageCreate (m : Message)
| Resume (n : nat) (o : Outcome)
| CollectorTimeout (collector : nat).

Record State := {
  userData : gmap string UserRecord;
  ACTIVE_SESSIONS : gset string;
  collectors : list Collector;
  suspended : list Pending;
  next_collector : nat
}.

Definition with_userData (d : gmap string UserRecord) (s : State) : State :=
  {| userData := d; ACTIVE_SESSIONS := ACTIVE_SESSIONS s;
     collectors := collectors s; suspended := suspended s;
     next_collector := next_collector s |}.
Definition with_sessions (a : gset string) (s : State) : State :=
  {| userData := userData s; ACTIVE_SESSIONS := a;
     collectors := collectors s; suspended := suspended s;
     next_collector := next_collector s |}.
Definition with_collectors (c : list Collector) (s : State) : State :=
  {| userData := userData s; ACTIVE_SESSIONS := ACTIVE_SESSIONS s;
     collectors := c; suspended := suspended s;
     next_collector := next_collector s |}.
Definition with_suspended (p : list Pending) (s : State) : State :=
  {| userData := userData s; ACTIVE_SESSIONS := ACTIVE_SESSIONS s;
     collectors := collectors s; suspended := p;
     next_collector := next_collector s |}.
Definition suspend (p : Pending) (s : State) : State :=
  with_suspended (suspended s ++ [p]) s.

(** The state after start-up, [loaded] being the content of the data file
    (empty when the file is missing or malformed). *)
Definition initial (loaded : gmap string UserRecord) : State :=
  {| userData := loaded; ACTIVE_SESSIONS := ∅; collectors := [];
     suspended := []; next_collector := 0 |}.

Definition CHAR_LIMIT : nat := 4000.

Module Text.
Definition mention (userId : string) : string := "<@" +:+ userId +:+ ">".
Definition conflict (userId : string) : string :=
  mention userId +:+ ", you already have an active session. Type " +:+ dq
    +:+ "exit" +:+ dq +:+ " to end it first.".
Definition no_key : string :=
  "You have no saved OpenAI API key. Use `/setkey` first.".
Definition unreadable_key : string :=
  "Failed to read your key. Please reset it with `/setkey`.".
Definition no_prompt : string :=
  "No custom prompt found. Use `/setprompt` or provide one with `/chat`.".
Definition announce (prompt : string) : string :=
  "**Custom system prompt:**" +:+ nl +:+ "```" +:+ nl +:+ prompt +:+ nl
    +:+ "```" +:+ nl +:+ "What would you like to ask? (Type " +:+ dq
    +:+ "exit" +:+ dq +:+ " to end the chat)".
Definition ack : string := "✅ Chat session ended.".
Definition no_response : string := "No response from OpenAI.".
Definition invalid_response : string :=
  "⚠️ Failed to get a valid response from OpenAI.".
Definition transport_error : string :=
  "❌ Error communicating with OpenAI API.".
Definition ended_log (userId : string) (size : nat) : string :=
  "Chat session with " +:+ userId +:+ " ended. Messages collected: "
    +:+ Js.string_of_nat size.
Definition expired (userId : string) : string :=
  mention userId +:+
    ", your chat session has expired after 5 minutes. Use /chat to start a new one.".
Definition too_long (userId : string) (charCount : nat) : string :=
  mention userId +:+ ", your prompt is **too long** — you used **"
    +:+ Js.string_of_nat charCount +:+ " / " +:+ Js.string_of_nat CHAR_LIMIT
    +:+ " characters**. ❌" +:+ nl +:+ "Please shorten it.".
Definition prompt_saved (userId : string) (charCount : nat) : string :=
  mention userId +:+ ", your custom prompt has been saved! ✅" +:+ nl
    +:+ "Character count: **" +:+ Js.string_of_nat charCount +:+ " / "
    +:+ Js.string_of_nat CHAR_LIMIT +:+ "**.".
Definition prompt_saved_log (userId : string) (charCount : nat) : string :=
  "User " +:+ userId +:+ " saved a new prompt. Character count: "
    +:+ Js.string_of_nat charCount.
Definition limit (userId : string) : string :=
  mention userId +:+ ", your prompt can be up to 4000 characters.".
Definition key_saved : string :=
  "Your OpenAI API key has been saved securely! ✅".
Definition info (r : option UserRecord) : string :=
  "**Your current setup:**" +:+ nl
    +:+ "• API key: "
    +:+ (if Js.truthy (r ≫= openaiKey) then "✅ Saved" else "❌ Not saved")
    +:+ nl +:+ "• Prompt: "
    +:+ (if Js.truthy (r ≫= promptId) then "✅ Saved" else "❌ Not saved").
Definition help : string :=
  "**Command List:**" +:+ nl
    +:+ "/chat — Start a chat with OpenAI using your saved or temporary prompt" +:+ nl
    +:+ "/setprompt — Save a custom prompt (max 4000 characters)" +:+ nl
    +:+ "/promptlimit — Show the prompt character limit" +:+ nl
    +:+ "/setkey — Save your OpenAI API key securely" +:+ nl
    +:+ "/deleteprompt — Delete your saved prompt" +:+ nl
    +:+ "/deletekey — Delete your saved OpenAI key" +:+ nl
    +:+ "/info — Show saved key and prompt status" +:+ nl
    +:+ "/help — Show this help message".
Definition handler_error (command err : string) : string :=
  "Error handling command " +:+ command +:+ ": " +:+ err.
End Text.

Definition find_collector (id : nat) (cs : list Collector) : option Collector :=
  List.find (λ c, collector_id c =? id) cs.

Definition remove_collector (id : nat) (cs : list Collector) : list Collector :=
  List.filter (λ c, negb (collector_id c =? id)) cs.

Definition add_collected (m : Message) (c : Collector) : Collector :=
  {| collector_id := collector_id c; c_userId := c_userId c;
     c_channelId := c_channelId c; c_prompt := c_prompt c;
     c_openaiKey := c_openaiKey c; collected := collected c ++ [m] |}.

(** [if (!userData[userId]) userData[userId] = {}] (index.js 254) *)
Definition lazy_init (userId : string) (d : gmap string UserRecord)
  : gmap string UserRecord :=
  match d !! userId with
  | Some _ => d
  | None => <[userId := {| promptId := None; openaiKey := None |}]> d
  end.

(** The message filter of a collector (index.js 190). *)
Definition collector_filter (c : Collector) (m : Message) : bool :=
  String.eqb (author_id m) (c_userId c)
  && String.eqb (m_channelId m) (c_channelId c).

Definition is_exit_keyword (text : string) : bool :=
  Js.includes ["exit"; "stop"] (Js.toLowerCase (Js.trim text)).

(** The listener for [collect] up to its first effectful await
    (index.js 193-241). *)
Definition on_collect (c : Collector) (m : Message) : Pending * list Effect :=
  let userMsg := Js.trim (content m) in
  if Js.includes ["exit"; "stop"] (Js.toLowerCase userMsg) then
    (ExitAwaitAck (collector_id c) m, [MessageReply m (JStr Text.ack)])
  else
    let payload :=
      {| model := "gpt-4"; max_tokens := 500;
         system_content := c_prompt c; user_content := userMsg |} in
    (RequestInFlight m,
     [SendTyping (m_channelId m);
      HttpsRequest ("Bearer " +:+ c_openaiKey c) payload]).

(** The listener for [end] (index.js 243-247); it does not look at the
    reason for which the collector ended. *)
Definition on_end (c : Collector) (s : State) : State * list Effect :=
  (with_sessions (ACTIVE_SESSIONS s ∖ {[c_userId c]}) s,
   [Log (Text.ended_log (c_userId c) (length (collected c)));
    ChannelSend (c_channelId c) (Text.expired (c_userId c))]).

(** A collector ends at most once: [stop()] and the timer do nothing on a
    collector that has ended. *)
Definition end_collector (id : nat) (s : State) : State * list Effect :=
  match find_collector id (collectors s) with
  | Some c => on_end c (with_collectors (remove_collector id (collectors s)) s)
  | None => (s, [])
  end.

(** Delivery of a message to every live collector whose filter accepts
    it, in the order in which the collectors were created. *)
Fixpoint dispatch (m : Message) (cs : list Collector)
  : list Collector * list Pending * list Effect :=
  match cs with
  | [] => ([], [], [])
  | c :: rest =>
      let '(cs', ps, es) := dispatch m rest in
      if collector_filter c m then
        let '(p, e) := on_collect c m in
        (add_collected m c :: cs', p :: ps, e ++ es)
      else (c :: cs', ps, es)
  end.

(** The callbacks of the completion request (index.js 221-237). *)
Definition on_response_end (m : Message) (parsed : option Json) : list Effect :=
  let attempt : result Json :=
    match parsed with
    | None => Throw "SyntaxError"
    | Some r =>
        c ← JsonAccess.completion_content r;
        Ok (if JsonAccess.truthy c then default JNull c
            else JStr Text.no_response)
    end in
  match attempt with
  | Ok reply => [MessageReply m reply]
  | Throw _ => [MessageReply m (JStr Text.invalid_response)]
  end.

Definition on_request_error (m : Message) : list Effect :=
  [MessageReply m (JStr Text.transport_error)].

(** [saveUserData()] up to its await: the write is issued with the content
    of [userData] at the time of the call. *)
Definition saveUserData (k : SaveCont) (s : State) : State * list Effect :=
  (suspend (AwaitSave k) s, [WriteFile (userData s)]).

Definition save_log (o : Outcome) : list Effect :=
  match o with
  | WriteFailed err => [Log ("Failed to save user data: " +:+ err)]
  | _ => [Log "User data saved successfully."]
  end.

(** The catch clause of the interaction handler (index.js 346-349). *)
Definition on_error (i : Interaction) (err : string) (s : State)
  : State * list Effect :=
  (s, [Log (Text.handler_error (commandName i) err);
       Reply i "An error occurred." true]).

(** [handleChatCommand] from line 175 on: the check for a prompt, the
    admission and the announcement. *)
Definition chat_enter (i : Interaction) (prompt : option string)
    (openaiKey : string) (s : State) : State * list Effect :=
  if negb (Js.truthy prompt) then (s, [Reply i Text.no_prompt true])
  else
    let prompt := default EmptyString prompt in
    let s := with_sessions ({[user_id i]} ∪ ACTIVE_SESSIONS s) s in
    (suspend (ChatAwaitReply i prompt openaiKey) s,
     [Reply i (Text.announce prompt) true]).

(** [handleChatCommand] after the announcement was delivered and the
    channel fetched (index.js 187-247). *)
Definition chat_collect (i : Interaction) (prompt openaiKey : string)
    (s : State) : State * list Effect :=
  let c := {| collector_id := next_collector s; c_userId := user_id i;
              c_channelId := channelId i; c_prompt := prompt;
              c_openaiKey := openaiKey; collected := [] |} in
  ({| userData := userData s; ACTIVE_SESSIONS := ACTIVE_SESSIONS s;
      collectors := collectors s ++ [c]; suspended := suspended s;
      next_collector := S (next_collector s) |},
   [DeleteReplyAfter i 60000%N]).

Section Bot.

Variable aes_enc : Buffer → Buffer → Buffer.
Variable aes_dec : Buffer → Buffer → Buffer.
Variable ENCRYPTION_KEY : string.

(** [handleChatCommand] up to its first await (index.js 143-173). *)
Definition handleChatCommand (i : Interaction) (s : State)
  : State * list Effect :=
  let userId := user_id i in
  if bool_decide (userId ∈ ACTIVE_SESSIONS s) then
    (s, [Reply i (Text.conflict userId) true])
  else
    let prompt := prompt_id i in
    let encryptedKey := userData s !! userId ≫= openaiKey in
    if negb (Js.truthy encryptedKey) then (s, [Reply i Text.no_key true])
    else
      match decrypt aes_dec ENCRYPTION_KEY (default EmptyString encryptedKey) with
      | Throw _ => (s, [Reply i Text.unreadable_key true])
      | Ok openaiKey =>
          if Js.truthy prompt then
            saveUserData (KChat i prompt openaiKey)
              (with_userData
                 (alter (set_promptId prompt) userId (userData s)) s)
          else
            chat_enter i (userData s !! userId ≫= promptId) openaiKey s
      end.

(** The listener for [interactionCreate] (index.js 251-350). *)
Definition interactionCreate (i : Interaction) (random : Buffer) (s : State)
  : State * list Effect :=
  if negb (isChatInputCommand i) then (s, [])
  else
    let userId := user_id i in
    let s := with_userData (lazy_init userId (userData s)) s in
    let command := commandName i in
    if String.eqb command "setprompt" then
      match prompt_id i with
      | None => on_error i "TypeError: Cannot read properties of null" s
      | Some prompt =>
          let charCount := Js.js_length prompt in
          if CHAR_LIMIT <? charCount then
            (s, [Reply i (Text.too_long userId charCount) true])
          else
            saveUserData (KSetPrompt i charCount)
              (with_userData
                 (alter (set_promptId (Some prompt)) userId (userData s)) s)
      end
    else if String.eqb command "promptlimit" then
      (s, [Reply i (Text.limit userId) true])
    else if String.eqb command "setkey" then
      match openai_key i with
      | None => on_error i "TypeError: The data argument must be a string" s
      | Some key =>
          match encrypt aes_enc ENCRYPTION_KEY random key with
          | Throw err => on_error i err s
          | Ok token =>
              saveUserData (KSetKey i)
                (with_userData
                   (alter (set_openaiKey (Some token)) userId (userData s)) s)
          end
      end
    else if String.eqb command "deleteprompt" then
      if Js.truthy (userData s !! userId ≫= promptId) then
        saveUserData (KDeletePrompt i)
          (with_userData (alter (set_promptId None) userId (userData s)) s)
      else (s, [Reply i "No custom prompt to delete." true])
    else if String.eqb command "deletekey" then
      if Js.truthy (userData s !! userId ≫= openaiKey) then
        saveUserData (KDeleteKey i)
          (with_userData (alter (set_openaiKey None) userId (userData s)) s)
      else (s, [Reply i "No OpenAI API key to delete." true])
    else if String.eqb command "info" then
      (s, [Reply i (Text.info (userData s !! userId)) true])
    else if String.eqb command "help" then
      (s, [Reply i Text.help true])
    else if String.eqb command "chat" then
      handleChatCommand i s
    else (s, [Reply i "Unknown command." true]).

(** What follows [await saveUserData()] in each handler. *)
Definition after_save (k : SaveCont) (s : State) : State * list Effect :=
  match k with
  | KSetPrompt i charCount =>
      (s, [Log (Text.prompt_saved_log (user_id i) charCount);
           Reply i (Text.prompt_saved (user_id i) charCount) true])
  | KSetKey i =>
      (s, [Log ("User " +:+ user_id i +:+ " saved an API key.");
           Reply i Text.key_saved true])
  | KDeletePrompt i =>
      (s, [Log ("User " +:+ user_id i +:+ " deleted their prompt.");
           Reply i "Your custom prompt was deleted. ✅" true])
  | KDeleteKey i =>
      (s, [Log ("User " +:+ user_id i +:+ " deleted their API key.");
           Reply i "Your OpenAI API key was deleted. ✅" true])
  | KChat i prompt openaiKey => chat_enter i prompt openaiKey s
  end.

(** Resumption of a suspended handler; [None] when the outcome is not
    one that the awaited operation can have. *)
Definition resume (p : Pending) (o : Outcome) (s : State)
  : option (State * list Effect) :=
  match p, o with
  | AwaitSave k, (WriteOk | WriteFailed _) =>
      let r := after_save k s in Some (r.1, save_log o ++ r.2)
  | ChatAwaitReply i prompt openaiKey, Settled =>
      Some (chat_collect i prompt openaiKey s)
  | ExitAwaitAck id m, Settled => Some (end_collector id s)   (* collector.stop() *)
  | RequestInFlight m, ResponseEnd parsed => Some (s, on_response_end m parsed)
  | RequestInFlight m, RequestError => Some (s, on_request_error m)
  | _, _ => None
  end.

Definition step (s : State) (e : Event) : State * list Effect :=
  match e with
  | InteractionCreate i random => interactionCreate i random s
  | MessageCreate m =>
      let '(cs, ps, es) := dispatch m (collectors s) in
      (with_suspended (suspended s ++ ps) (with_collectors cs s), es)
  | Resume n o =>
      match suspended s !! n with
      | Some p =>
          match resume p o (with_suspended (delete n (suspended s)) s) with
          | Some r => r
          | None => (s, [])
          end
      | None => (s, [])
      end
  | CollectorTimeout id => end_collector id s
  end.

Fixpoint run (s : State) (es : list Event) : State * list Effect :=
  match es with
  | [] => (s, [])
  | e :: es' =>
      let '(s1, out1) := step s e in
      let '(s2, out2) := run s1 es' in
      (s2, out1 ++ out2)
  end.

End Bot.


(** ** Notions used to state the properties of the bot *)

(** The states that the bot can be in: the state after start-up, and any
    state that an event leads to. *)
Inductive reachable (aes_enc aes_dec : Buffer → Buffer → Buffer)
    (ENCRYPTION_KEY : string) : State → Prop :=
| reachable_initial loaded :
    reachable aes_enc aes_dec ENCRYPTION_KEY (initial loaded)
| reachable_step s e :
    reachable aes_enc aes_dec ENCRYPTION_KEY s →
    reachable aes_enc aes_dec ENCRYPTION_KEY
      (step aes_enc aes_dec ENCRYPTION_KEY s e).1.

(** No stored instruction is longer than the limit. *)
Definition within_limit (d : gmap string UserRecord) : Prop :=
  ∀ u r p, d !! u = Some r → promptId r = Some p → Js.js_length p ≤ CHAR_LIMIT.

(** The collectors that are collecting the messages of a user. *)
Definition sessions_of (u : string) (s : State) : list Collector :=
  List.filter (λ c, String.eqb (c_userId c) u) (collectors s).

(** Slash commands and messages, for the statements and the examples. *)
Definition command (name u ch : string) (prompt key : option string)
  : Interaction :=
  {| isChatInputCommand := true; user_id := u; channelId := ch;
     commandName := name; prompt_id := prompt; openai_key := key |}.

Definition chat (u ch : string) (prompt : option string) : Interaction :=
  command "chat" u ch prompt None.

Definition message (id : nat) (u ch text : string) : Message :=
  {| message_id := id; author_id := u; m_channelId := ch; content := text |}.

(** A completion response whose first choice carries [text]. *)
Definition completion (text : string) : Json :=
  JObj [("choices",
         JArr [JObj [("message", JObj [("content", JStr text)])]])].

(** A store in which user U1 has a credential (the token of "sk-abc") and
    an instruction. *)
Definition sample_store : gmap string UserRecord :=
  {[ "U1" := {| promptId := Some "be brief"; openaiKey := Some sample_token |} ]}.

(** The state in which user U1, whose record is that of [sample_store],
    has an open session in channel "c". *)
Definition active_state : State :=
  (run toy_enc toy_dec sample_key (initial sample_store)
     [InteractionCreate (chat "U1" "c" None) []; Resume 0 Settled]).1.

(** What holds of every reachable state: collectors have distinct
    identities, below the next one to be given out, and a handler
    suspended before [collector.stop()] was started by an exit keyword that
    the collector it refers to accepts. *)
Definition well_formed_state (s : State) : Prop :=
  NoDup (collector_id <$> collectors s)
  ∧ (∀ c, c ∈ collectors s → collector_id c < next_collector s)
  ∧ (∀ id m, ExitAwaitAck id m ∈ suspended s →
       id < next_collector s
       ∧ is_exit_keyword (content m) = true
       ∧ ∀ c, c ∈ collectors s → collector_id c = id →
              collector_filter c m = true).

(** The exchanges of the examples. *)
Definition exit_scenario : list Event :=
  [InteractionCreate (chat "U1" "c" None) [];
   Resume 0 Settled;
   MessageCreate (message 1 "U1" "c" " Exit ");
   Resume 0 Settled].

Definition race_scenario : list Event :=
  [InteractionCreate (chat "U1" "c" (Some "be brief")) [];
   InteractionCreate (chat "U1" "c" (Some "be long")) [];
   Resume 0 WriteOk; Resume 0 WriteOk;
   Resume 0 Settled; Resume 0 Settled].

Definition hello_exit_scenario (u ch : string) : list Event :=
  [InteractionCreate (chat u ch None) [];
   Resume 0 Settled;
   MessageCreate (message 1 u ch "hello");
   Resume 0 (ResponseEnd (Some (completion "hi there")));
   MessageCreate (message 2 u ch "exit");
   Resume 0 Settled].

(** U1 has sent "hello" and the completion request is in flight. *)
Definition request_pending_state : State :=
  (step toy_enc toy_dec sample_key active_state
     (MessageCreate (message 1 "U1" "c" "hello"))).1.

(** U1 has sent "stop" and the acknowledgement is being delivered. *)
Definition exit_pending_state : State :=
  (step toy_enc toy_dec sample_key active_state
     (MessageCreate (message 1 "U1" "c" "stop"))).1.


(** * Properties *)

(** ** The library functions on small inputs *)

Example trim_removes_white_space :
  Js.trim (Js.bytes [32; 9; 226; 128; 128] +:+ "Exit now" +:+ Js.bytes [194; 160; 10])
  = "Exit now".
Proof. reflexivity. Qed.

Example toLowerCase_keeps_other_bytes :
  Js.toLowerCase ("STOP " +:+ Js.bytes [195; 137]) = "stop " +:+ Js.bytes [195; 137].
Proof. reflexivity. Qed.

Example exit_keywords :
  is_exit_keyword " Exit " = true ∧ is_exit_keyword "STOP" = true
  ∧ is_exit_keyword "exit now" = false ∧ is_exit_keyword EmptyString = false.
Proof. by vm_compute. Qed.

Example split_examples :
  Js.split ":" "a:b:c" = ["a"; "b"; "c"]
  ∧ Js.split ":" "abc" = ["abc"]
  ∧ Js.split ":" EmptyString = [EmptyString]
  ∧ Js.split ":" ":" = [EmptyString; EmptyString].
Proof. by vm_compute. Qed.

Example join_examples :
  Js.join ":" ["b"; "c"] = "b:c" ∧ Js.join ":" ["b"] = "b" ∧ Js.join ":" [] = EmptyString.
Proof. by vm_compute. Qed.

(** The examples of the documentation of [Buffer.from(string, 'hex')]. *)
Example hex_decode_examples :
  Hex.decode "1ag123" = [ascii_of_nat 26]
  ∧ Hex.decode "1a7" = [ascii_of_nat 26]
  ∧ Hex.decode "1634" = [ascii_of_nat 22; ascii_of_nat 52]
  ∧ Hex.decode "1A" = [ascii_of_nat 26].
Proof. by vm_compute. Qed.

Example js_length_examples :
  Js.js_length "abc" = 3
  ∧ Js.js_length (Js.bytes [195; 169]) = 1             (* U+00E9 *)
  ∧ Js.js_length (Js.bytes [226; 130; 172]) = 1        (* U+20AC *)
  ∧ Js.js_length (Js.bytes [240; 159; 152; 128]) = 2.  (* U+1F600 *)
Proof. by vm_compute. Qed.

Example completion_content_examples :
  JsonAccess.completion_content (completion "hi") = Ok (Some (JStr "hi"))
  ∧ JsonAccess.completion_content (JObj [("error", JStr "quota")]) = Ok None
  ∧ JsonAccess.completion_content (JObj [("choices", JArr [])]) = Ok None
  ∧ is_ok (JsonAccess.completion_content JNull) = false.
Proof. by vm_compute. Qed.

Example startup_examples :
  startup (Some " 0123456789abcdef0123456789abcdef ") = Started sample_key
  ∧ (∃ msg, startup (Some "too short") = Exited 1 msg)
  ∧ (∃ msg, startup (Some "   ") = Exited 1 msg)
  ∧ (∃ msg, startup None = Exited 1 msg).
Proof. vm_compute. eauto 10. Qed.

Example encrypt_example :
  encrypt toy_enc sample_key sample_iv "sk-abc" = Ok sample_token.
Proof. by vm_compute. Qed.

(** [trim] runs to completion: nothing is left to strip at the front of
    what [trimStart] returns. *)
Lemma strip_prefix_shorter (p s r : string) :
  p ≠ EmptyString → Js.strip_prefix p s = Some r →
  String.length r < String.length s.
Proof.
  intros Hp. revert s.
  assert (H : ∀ p s, Js.strip_prefix p s = Some r →
                     String.length r ≤ String.length s).
  { clear. induction p as [|a p IH]; intros s; simpl.
    - by intros [= ->].
    - destruct s as [|b s]; [done |]. destruct (Ascii.eqb a b); [| done].
      intros Hs%IH. simpl. lia. }
  destruct p as [|a p]; [done |]. intros [|b s]; simpl; [done |].
  destruct (Ascii.eqb a b); [| done]. intros Hs%H. lia.
Qed.

Lemma strip_one_shorter (pats : list string) (s r : string) :
  Forall (λ p, p ≠ EmptyString) pats → Js.strip_one pats s = Some r →
  String.length r < String.length s.
Proof.
  induction 1 as [|p pats Hp _ IH]; simpl; [done |].
  destruct (Js.strip_prefix p s) as [r'|] eqn:Hs; [| done].
  intros [= ->]. by eapply strip_prefix_shorter.
Qed.

Lemma strip_all_complete (fuel : nat) (pats : list string) (s : string) :
  Forall (λ p, p ≠ EmptyString) pats → String.length s ≤ fuel →
  Js.strip_one pats (Js.strip_all fuel pats s) = None.
Proof.
  intros Hpats. revert s.
  induction fuel as [|fuel IH]; intros s Hfuel; simpl.
  - destruct (Js.strip_one pats s) as [r|] eqn:Hs; [| done].
    apply strip_one_shorter in Hs; [lia | done].
  - destruct (Js.strip_one pats s) as [r|] eqn:Hs; [| done].
    apply IH. apply strip_one_shorter in Hs; [lia | done].
Qed.

Lemma trimStart_complete (s : string) :
  Js.strip_one Js.white_space (Js.trimStart s) = None.
Proof.
  apply strip_all_complete; [| done].
  unfold Js.white_space. repeat constructor; discriminate.
Qed.

(** ** Strings *)

Lemma append_nil_r (s : string) : s +:+ EmptyString = s.
Proof. induction s as [|c s IH]; simpl; [done | by rewrite IH]. Qed.

Lemma append_assoc (a b c : string) : (a +:+ b) +:+ c = a +:+ (b +:+ c).
Proof. induction a as [|x a IH]; simpl; [done | by rewrite IH]. Qed.

Lemma length_append (a b : string) :
  String.length (a +:+ b) = String.length a + String.length b.
Proof. induction a as [|x a IH]; simpl; [done | by rewrite IH]. Qed.

Lemma string_of_list_ascii_app (a b : list ascii) :
  string_of_list_ascii (a ++ b)
  = string_of_list_ascii a +:+ string_of_list_ascii b.
Proof. induction a as [|x a IH]; simpl; [done | by rewrite IH]. Qed.

Lemma split_nonempty sep s : Js.split sep s ≠ [].
Proof.
  destruct s as [|c s]; simpl; [done |].
  destruct (Ascii.eqb c sep); [done |].
  by destruct (Js.split sep s).
Qed.





(** ** Hexadecimal transcoding *)

Lemma unhex_digit b3 b2 b1 b0 :
  Hex.unhex (Hex.digit b3 b2 b1 b0) = Some (b3, b2, b1, b0).
Proof. by destruct b3, b2, b1, b0. Qed.

Lemma digit_not_colon b3 b2 b1 b0 : Hex.digit b3 b2 b1 b0 ≠ ":"%char.
Proof. by destruct b3, b2, b1, b0. Qed.

Lemma hex_encode_app (a b : Buffer) :
  Hex.encode (a ++ b) = Hex.encode a +:+ Hex.encode b.
Proof.
  induction a as [|[] a IH]; simpl; [done | by rewrite IH].
Qed.

Lemma hex_encode_length (b : Buffer) :
  String.length (Hex.encode b) = 2 * length b.
Proof. induction b as [|[] b IH]; simpl; [done | rewrite IH; lia]. Qed.

Lemma digit_utf16_units b3 b2 b1 b0 : Js.utf16_units (Hex.digit b3 b2 b1 b0) = 1.
Proof. by destruct b3, b2, b1, b0. Qed.

Lemma hex_encode_js_length (b : Buffer) :
  Js.js_length (Hex.encode b) = 2 * length b.
Proof.
  induction b as [|[] b IH]; [done |].
  cbn [Hex.encode Js.js_length length].
  rewrite !digit_utf16_units, IH. lia.
Qed.

(** Decoding reads back what was encoded and goes on with what follows. *)
Lemma hex_decode_encode_app (b : Buffer) (s : string) :
  Hex.decode (Hex.encode b +:+ s) = b ++ Hex.decode s.
Proof.
  induction b as [|[b0 b1 b2 b3 b4 b5 b6 b7] b IH]; simpl; [done |].
  rewrite !unhex_digit. by rewrite IH.
Qed.

Lemma hex_decode_encode (b : Buffer) : Hex.decode (Hex.encode b) = b.
Proof.
  rewrite <- (append_nil_r (Hex.encode b)), hex_decode_encode_app.
  simpl. apply app_nil_r.
Qed.

Lemma hex_encode_well_formed (b : Buffer) : Hex.well_formed (Hex.encode b) = true.
Proof.
  induction b as [|[b0 b1 b2 b3 b4 b5 b6 b7] b IH]; simpl; [done |].
  unfold Hex.is_digit. by rewrite !unhex_digit.
Qed.

(** A well-formed hexadecimal string is decoded in full. *)
Lemma hex_decode_well_formed_length (s : string) :
  Hex.well_formed s = true → 2 * length (Hex.decode s) = String.length s.
Proof.
  assert (H : ∀ n s, String.length s ≤ n → Hex.well_formed s = true →
                     2 * length (Hex.decode s) = String.length s).
  { clear s. induction n as [|n IH]; intros [|h [|l s]] Hn; simpl in *;
      try done; try lia.
    unfold Hex.is_digit.
    destruct (Hex.unhex h) as [[[[??]?]?]|]; [| done].
    destruct (Hex.unhex l) as [[[[??]?]?]|]; [| done].
    simpl. intros Hwf. rewrite <- (IH s); [lia | lia | done]. }
  by apply (H (String.length s)).
Qed.

(** ** Cipher block chaining *)

Lemma xor_ascii_involutive a b : Cbc.xor_ascii (Cbc.xor_ascii a b) b = a.
Proof.
  destruct a, b; simpl; f_equal;
    match goal with |- xorb (xorb ?x ?y) ?y = ?x => by destruct x, y end.
Qed.

Lemma xor_bytes_length (a b : Buffer) :
  length a = length b → length (Cbc.xor_bytes a b) = length a.
Proof.
  revert b. induction a as [|x a IH]; intros [|y b] H; simpl in *; try done.
  f_equal. apply IH. lia.
Qed.

Lemma xor_bytes_involutive (a b : Buffer) :
  length a = length b → Cbc.xor_bytes (Cbc.xor_bytes a b) b = a.
Proof.
  revert b. induction a as [|x a IH]; intros [|y b] H; simpl in *; try done.
  rewrite xor_ascii_involutive. f_equal. apply IH. lia.
Qed.

Lemma concat_blocks_length (bs : list Buffer) :
  Forall Cbc.block_sized bs → length (concat bs) = Cbc.BLOCK_SIZE * length bs.
Proof.
  induction 1 as [|b bs Hb _ IH]; simpl; [done |].
  rewrite length_app, IH, Hb. unfold Cbc.BLOCK_SIZE. lia.
Qed.

Lemma split_blocks_S fuel (data : Buffer) :
  Cbc.split_blocks (S fuel) data
  = if Cbc.BLOCK_SIZE <=? length data then
      let '(bs, r) := Cbc.split_blocks fuel (drop Cbc.BLOCK_SIZE data) in
      (take Cbc.BLOCK_SIZE data :: bs, r)
    else ([], data).
Proof. done. Qed.

Lemma split_blocks_spec fuel (data : Buffer) bs r :
  length data ≤ fuel → Cbc.split_blocks fuel data = (bs, r) →
  data = concat bs ++ r ∧ Forall Cbc.block_sized bs ∧ length r < Cbc.BLOCK_SIZE.
Proof.
  revert data bs r.
  induction fuel as [|fuel IH]; intros data bs r Hfuel.
  - intros [= <- <-]. destruct data; simpl in *; [| lia].
    unfold Cbc.BLOCK_SIZE. auto with lia.
  - rewrite split_blocks_S.
    destruct (Nat.leb_spec Cbc.BLOCK_SIZE (length data)) as [Hle | Hlt].
    + destruct (Cbc.split_blocks fuel (drop Cbc.BLOCK_SIZE data))
        as [bs' r'] eqn:Hrec.
      intros [= <- <-].
      apply IH in Hrec as (Hdata & Hbs & Hr).
      * split_and!; [| | done].
        -- rewrite concat_cons, <- app_assoc, <- Hdata. by rewrite take_drop.
        -- constructor; [| done]. unfold Cbc.block_sized.
           rewrite length_take. lia.
      * rewrite length_drop. unfold Cbc.BLOCK_SIZE in *. lia.
    + intros [= <- <-]. auto.
Qed.

Lemma blocks_spec (data : Buffer) bs r :
  Cbc.blocks data = (bs, r) →
  data = concat bs ++ r ∧ Forall Cbc.block_sized bs ∧ length r < Cbc.BLOCK_SIZE.
Proof. by apply split_blocks_spec. Qed.

Lemma split_blocks_concat fuel (bs : list Buffer) (r : Buffer) :
  Forall Cbc.block_sized bs → length r < Cbc.BLOCK_SIZE →
  length (concat bs ++ r) ≤ fuel →
  Cbc.split_blocks fuel (concat bs ++ r) = (bs, r).
Proof.
  intros Hbs Hr. revert fuel.
  induction Hbs as [|b bs Hb Hbs IH]; intros fuel Hfuel.
  - destruct fuel as [|fuel]; [done |]. rewrite split_blocks_S.
    simpl concat. simpl app.
    destruct (Nat.leb_spec Cbc.BLOCK_SIZE (length r)); [lia | done].
  - rewrite concat_cons, <- app_assoc in *.
    rewrite length_app in Hfuel. unfold Cbc.block_sized in Hb.
    destruct fuel as [|fuel]; [unfold Cbc.BLOCK_SIZE in *; lia |].
    rewrite split_blocks_S.
    destruct (Nat.leb_spec Cbc.BLOCK_SIZE (length (b ++ concat bs ++ r)))
      as [_ | Hlt]; [| rewrite length_app in Hlt; lia].
    rewrite (drop_app_length' b), (take_app_length' b) by done.
    rewrite IH; [done |]. unfold Cbc.BLOCK_SIZE in *. lia.
Qed.

Lemma blocks_concat (bs : list Buffer) (r : Buffer) :
  Forall Cbc.block_sized bs → length r < Cbc.BLOCK_SIZE →
  Cbc.blocks (concat bs ++ r) = (bs, r).
Proof. intros. by apply split_blocks_concat. Qed.

Lemma pkcs7_pad_length (r : Buffer) :
  length r < Cbc.BLOCK_SIZE → Cbc.block_sized (Cbc.pkcs7_pad r).
Proof.
  intros Hr. unfold Cbc.block_sized, Cbc.pkcs7_pad.
  rewrite length_app, repeat_length. lia.
Qed.

Lemma forallb_repeat {A} (f : A → bool) x n :
  f x = true → forallb f (repeat x n) = true.
Proof. intros Hx. induction n as [|n IH]; simpl; [done | by rewrite Hx]. Qed.

Lemma pkcs7_unpad_pad (r : Buffer) :
  length r < Cbc.BLOCK_SIZE → Cbc.pkcs7_unpad (Cbc.pkcs7_pad r) = Ok r.
Proof.
  intros Hr. unfold Cbc.pkcs7_unpad, Cbc.pkcs7_pad.
  set (n := Cbc.BLOCK_SIZE - length r).
  assert (Hn : 0 < n ≤ Cbc.BLOCK_SIZE) by (unfold n; lia).
  assert (Hlast : List.last (r ++ repeat (ascii_of_nat n) n) zero
                  = ascii_of_nat n).
  { destruct n as [|n]; [lia |].
    replace (repeat (ascii_of_nat (S n)) (S n))
      with (repeat (ascii_of_nat (S n)) n ++ [ascii_of_nat (S n)])
      by (by rewrite <- repeat_cons).
    by rewrite app_assoc, last_last. }
  rewrite Hlast.
  rewrite nat_ascii_embedding by (unfold Cbc.BLOCK_SIZE in *; lia).
  destruct (Nat.eqb_spec n 0) as [| _]; [lia |].
  destruct (Nat.ltb_spec Cbc.BLOCK_SIZE n) as [| _]; [lia |]. simpl.
  replace (Cbc.BLOCK_SIZE - n) with (length r) by lia.
  rewrite drop_app_length, take_app_length.
  rewrite forallb_repeat; [done |]. apply Ascii.eqb_refl.
Qed.

Section Chaining.

Variable aes_enc : Buffer → Buffer → Buffer.
Variable aes_dec : Buffer → Buffer → Buffer.
Variable key : Buffer.

Hypothesis aes_dec_enc : ∀ b, Cbc.block_sized b → aes_dec key (aes_enc key b) = b.
Hypothesis aes_enc_sized : ∀ b, Cbc.block_sized b → Cbc.block_sized (aes_enc key b).

Lemma encrypt_blocks_app chain (xs ys : list Buffer) :
  Cbc.encrypt_blocks aes_enc key chain (xs ++ ys)
  = let '(cs1, chain1) := Cbc.encrypt_blocks aes_enc key chain xs in
    let '(cs2, chain2) := Cbc.encrypt_blocks aes_enc key chain1 ys in
    (cs1 ++ cs2, chain2).
Proof.
  revert chain. induction xs as [|x xs IH]; intros chain; simpl.
  - by destruct (Cbc.encrypt_blocks aes_enc key chain ys).
  - rewrite IH.
    destruct (Cbc.encrypt_blocks aes_enc key _ xs) as [cs1 chain1].
    by destruct (Cbc.encrypt_blocks aes_enc key chain1 ys).
Qed.

Lemma encrypt_blocks_sized chain (bs : list Buffer) :
  Forall Cbc.block_sized bs → Cbc.block_sized chain →
  Forall Cbc.block_sized (Cbc.encrypt_blocks aes_enc key chain bs).1
  ∧ Cbc.block_sized (Cbc.encrypt_blocks aes_enc key chain bs).2.
Proof.
  intros Hbs. revert chain.
  induction Hbs as [|b bs Hb _ IH]; intros chain Hchain; simpl; [done |].
  assert (Hc : Cbc.block_sized (aes_enc key (Cbc.xor_bytes b chain))).
  { apply aes_enc_sized. unfold Cbc.block_sized in *.
    rewrite xor_bytes_length; congruence. }
  destruct (IH _ Hc) as [Hcs Hch].
  destruct (Cbc.encrypt_blocks aes_enc key _ bs) as [cs chain'].
  simpl in *. auto.
Qed.

(** Decrypting the chain of blocks gives back the blocks that were
    encrypted. *)
Lemma decrypt_encrypt_blocks chain (bs : list Buffer) :
  Forall Cbc.block_sized bs → Cbc.block_sized chain →
  (Cbc.decrypt_blocks aes_dec key chain
     (Cbc.encrypt_blocks aes_enc key chain bs).1).1 = bs.
Proof.
  intros Hbs. revert chain.
  induction Hbs as [|b bs Hb _ IH]; intros chain Hchain; simpl; [done |].
  assert (Hx : Cbc.block_sized (Cbc.xor_bytes b chain)).
  { unfold Cbc.block_sized in *. rewrite xor_bytes_length; congruence. }
  specialize (IH _ (aes_enc_sized _ Hx)).
  destruct (Cbc.encrypt_blocks aes_enc key _ bs) as [cs chain']. simpl in *.
  destruct (Cbc.decrypt_blocks aes_dec key _ cs) as [bs' chain'']. simpl in *.
  rewrite aes_dec_enc by done.
  rewrite xor_bytes_involutive by (unfold Cbc.block_sized in *; congruence).
  by rewrite IH.
Qed.

(** One [update] followed by [final], on a fresh [Cipher], is the CBC
    encryption of the padded message. *)
Lemma cipher_update_final iv (data : Buffer) c out :
  Cbc.cipher_update aes_enc
    {| Cbc.c_key := key; Cbc.c_chain := iv; Cbc.c_partial := [] |} data
  = (c, out) →
  ∃ last, Cbc.cipher_final aes_enc c = Ok last
    ∧ out ++ last
      = concat (Cbc.encrypt_blocks aes_enc key iv
                  ((Cbc.blocks data).1 ++ [Cbc.pkcs7_pad (Cbc.blocks data).2])).1.
Proof.
  unfold Cbc.cipher_update, Cbc.cipher_final. simpl.
  destruct (Cbc.blocks data) as [bs r]. simpl.
  rewrite encrypt_blocks_app.
  destruct (Cbc.encrypt_blocks aes_enc key iv bs) as [cs chain'].
  intros [= <- <-]. simpl. eexists; split; [done |].
  rewrite concat_app. simpl. by rewrite app_nil_r.
Qed.

(** One [update] followed by [final], on a fresh [Decipher]. *)
Lemma decipher_update_final iv (data : Buffer) :
  let '(d, out) := Cbc.decipher_update aes_dec
    {| Cbc.d_key := key; Cbc.d_chain := iv; Cbc.d_partial := [];
       Cbc.d_held := None |} data in
  let plain := (Cbc.decrypt_blocks aes_dec key iv (Cbc.blocks data).1).1 in
  match data, (Cbc.blocks data).2 with
  | _ :: _, [] =>
      out = concat (removelast plain)
      ∧ Cbc.decipher_final d = Cbc.pkcs7_unpad (List.last plain [])
  | _, _ => Cbc.decipher_final d = Throw "wrong final block length"
  end.
Proof.
  unfold Cbc.decipher_update, Cbc.decipher_final.
  destruct data as [|x data]; [reflexivity |].
  cbn [Cbc.d_partial Cbc.d_key Cbc.d_chain Cbc.d_held app option_list].
  destruct (Cbc.blocks (x :: data)) as [cs r] eqn:Hblocks.
  cbn [fst snd].
  destruct (Cbc.decrypt_blocks aes_dec key iv cs) as [bs chain'] eqn:Hdec.
  cbn [fst snd]. destruct r as [|y r]; [| reflexivity].
  cbn [Cbc.d_partial Cbc.d_held].
  split; [done |].
  destruct bs as [|b bs _] using rev_ind.
  - apply blocks_spec in Hblocks as (Hdata & _ & _).
    destruct cs as [|c cs]; [done |]. simpl in Hdec.
    by destruct (Cbc.decrypt_blocks aes_dec key c cs).
  - change (option_list None ++ bs ++ [b]) with (bs ++ [b]).
    by rewrite last_snoc, last_last.
Qed.

End Chaining.

(** ** The token format *)

Lemma split_prefix (p s : string) :
  Token.colon_free p →
  Js.split ":" (p +:+ s)
  = (p +:+ hd EmptyString (Js.split ":" s)) :: tl (Js.split ":" s).
Proof.
  induction p as [|c p IH]; intros Hp; simpl.
  - destruct (Js.split ":" s) eqn:Hs; [by destruct (split_nonempty ":" s) | done].
  - destruct (Ascii.eqb_spec c ":") as [-> | _].
    + by destruct (Hp ":"%char); [left |].
    + rewrite IH; [done |]. intros x Hx. apply Hp. by right.
Qed.

Lemma colon_free_app (a b : string) :
  Token.colon_free a → Token.colon_free b → Token.colon_free (a +:+ b).
Proof.
  intros Ha Hb. induction a as [|c a IH]; simpl; [done |].
  intros x [<- | Hx].
  - apply Ha. by left.
  - apply IH; [| done]. intros y Hy. apply Ha. by right.
Qed.

Lemma hex_encode_colon_free (b : Buffer) : Token.colon_free (Hex.encode b).
Proof.
  induction b as [|[b0 b1 b2 b3 b4 b5 b6 b7] b IH]; [by intros c [] |].
  intros c [<- | [<- | Hc]]; [apply digit_not_colon.. | by apply IH].
Qed.

Lemma split_colon_free (s : string) : Token.colon_free s → Js.split ":" s = [s].
Proof.
  intros Hs. rewrite <- (append_nil_r s) at 1.
  rewrite split_prefix by done. simpl. by rewrite append_nil_r.
Qed.

(** The two segments of a token [nonce:ciphertext]. *)
Lemma split_token (nonce : string) (ct : Buffer) :
  Token.colon_free nonce →
  Js.split ":" ((nonce +:+ ":") +:+ Hex.encode ct) = [nonce; Hex.encode ct].
Proof.
  intros Hn. rewrite append_assoc, split_prefix by done. simpl.
  rewrite split_colon_free by apply hex_encode_colon_free. simpl.
  by rewrite append_nil_r.
Qed.

Lemma blocks_length_mod (data : Buffer) :
  length data mod Cbc.BLOCK_SIZE = length (Cbc.blocks data).2.
Proof.
  destruct (Cbc.blocks data) as [bs r] eqn:Hb.
  apply blocks_spec in Hb as (-> & Hbs & Hr). cbn [snd]. symmetry.
  apply (Nat.mod_unique _ _ (length bs)); [done |].
  rewrite length_app, concat_blocks_length by done. lia.
Qed.

(** ** [decrypt], case by case *)

Lemma decrypt_spec aes_dec KEY t :
  length (Buffer_from KEY) = Cbc.KEY_SIZE →
  decrypt aes_dec KEY t
  = if Token.rejected aes_dec KEY t then Throw "Failed to decrypt text"
    else Ok (Token.plaintext aes_dec KEY t).
Proof.
  intros Hkey.
  unfold decrypt, Token.rejected, Token.plaintext, Token.padding_rejected,
    Token.plain_blocks, Token.nonce_segment, Token.ciphertext_segment.
  destruct (Js.split ":" t) as [|first rest]; [done |].
  destruct (Nat.ltb_spec (length (first :: rest)) 2) as [| _]; [done |].
  cbn [hd tl orb].
  unfold Cbc.createDecipheriv, Cbc.check_key_iv. rewrite Hkey.
  change (Cbc.KEY_SIZE =? Cbc.KEY_SIZE) with true.
  change Cbc.BLOCK_SIZE with IV_LENGTH at 1.
  destruct (length (Hex.decode first) =? IV_LENGTH); [| done].
  cbn [negb orb mbind result_bind].
  unfold decipher_update_hex_utf8, decipher_final_utf8.
  destruct (Nat.odd (Js.js_length (Js.join ":" rest))); [done |].
  cbn [orb].
  pose proof (decipher_update_final aes_dec (Buffer_from KEY)
                (Hex.decode first) (Hex.decode (Js.join ":" rest))) as Hfinal.
  pose proof (blocks_length_mod (Hex.decode (Js.join ":" rest))) as Hmod.
  destruct (Cbc.decipher_update aes_dec _ (Hex.decode (Js.join ":" rest)))
    as [d out].
  cbn [mbind result_bind] in *.
  destruct (Hex.decode (Js.join ":" rest)) as [|x data] eqn:Hdata.
  { by rewrite Hfinal. }
  change (length (x :: data) =? 0) with false. cbn [orb].
  rewrite Hmod.
  destruct ((Cbc.blocks (x :: data)).2) as [|y r].
  - destruct Hfinal as [-> ->]. cbn [length Nat.eqb negb orb].
    by destruct (Cbc.pkcs7_unpad _).
  - by rewrite Hfinal.
Qed.

(** ** [encrypt], and [decrypt] of what it returns *)

Lemma encrypt_blocks_length aes_enc key chain (bs : list Buffer) :
  length (Cbc.encrypt_blocks aes_enc key chain bs).1 = length bs.
Proof.
  revert chain. induction bs as [|b bs IH]; intros chain; simpl; [done |].
  specialize (IH (aes_enc key (Cbc.xor_bytes b chain))).
  destruct (Cbc.encrypt_blocks aes_enc key _ bs). simpl in *. by rewrite IH.
Qed.

Lemma encrypt_spec aes_enc KEY iv s :
  length (Buffer_from KEY) = Cbc.KEY_SIZE → length iv = IV_LENGTH →
  encrypt aes_enc KEY iv s
  = Ok ((Hex.encode iv +:+ ":")
        +:+ Hex.encode (Token.cbc_encrypt aes_enc KEY iv (Buffer_from s))).
Proof.
  intros Hkey Hiv.
  unfold encrypt, Cbc.createCipheriv, Cbc.check_key_iv.
  rewrite Hkey, Hiv.
  change (IV_LENGTH =? Cbc.BLOCK_SIZE) with true.
  change (Cbc.KEY_SIZE =? Cbc.KEY_SIZE) with true.
  cbn [negb mbind result_bind].
  unfold cipher_update_utf8_hex, cipher_final_hex.
  destruct (Cbc.cipher_update aes_enc _ (Buffer_from s)) as [c out] eqn:Hupd.
  apply cipher_update_final in Hupd as (last & -> & Hout).
  cbn [mbind result_bind]. unfold Token.cbc_encrypt.
  destruct (Cbc.blocks (Buffer_from s)) as [bs r]. cbn [fst snd] in Hout.
  by rewrite <- Hout, hex_encode_app.
Qed.

Section RoundTrip.

Variable aes_enc : Buffer → Buffer → Buffer.
Variable aes_dec : Buffer → Buffer → Buffer.
Variable ENCRYPTION_KEY : string.

Hypothesis aes_dec_enc :
  ∀ b, Cbc.block_sized b →
       aes_dec (Buffer_from ENCRYPTION_KEY) (aes_enc (Buffer_from ENCRYPTION_KEY) b) = b.
Hypothesis aes_enc_sized :
  ∀ b, Cbc.block_sized b →
       Cbc.block_sized (aes_enc (Buffer_from ENCRYPTION_KEY) b).
Hypothesis key_size : length (Buffer_from ENCRYPTION_KEY) = Cbc.KEY_SIZE.

(** A token made of a 16-byte nonce and the CBC encryption of a message
    is decrypted to the message; so is the token with any text put after
    the nonce that the hexadecimal decoder does not read. *)
Lemma decrypt_token iv (data : Buffer) (junk : string) :
  length iv = IV_LENGTH →
  Hex.decode junk = [] →
  Token.colon_free junk →
  decrypt aes_dec ENCRYPTION_KEY
    (((Hex.encode iv +:+ junk) +:+ ":")
     +:+ Hex.encode (Token.cbc_encrypt aes_enc ENCRYPTION_KEY iv data))
  = Ok (utf8_string data).
Proof.
  intros Hiv Hjunk Hfree.
  rewrite decrypt_spec by done.
  unfold Token.rejected, Token.plaintext, Token.padding_rejected,
    Token.plain_blocks, Token.nonce_segment, Token.ciphertext_segment.
  rewrite split_token
    by (apply colon_free_app; [apply hex_encode_colon_free | done]).
  cbn [hd tl Js.join length].
  rewrite hex_decode_encode_app, Hjunk, app_nil_r, Hiv.
  rewrite hex_encode_js_length, Nat.odd_even, hex_decode_encode.
  rewrite blocks_length_mod.
  unfold Token.cbc_encrypt.
  destruct (Cbc.blocks data) as [bs r] eqn:Hblocks.
  apply blocks_spec in Hblocks as (-> & Hbs & Hr).
  assert (Hpadded : Forall Cbc.block_sized (bs ++ [Cbc.pkcs7_pad r])).
  { apply Forall_app. split; [done |].
    constructor; [by apply pkcs7_pad_length | done]. }
  pose proof (encrypt_blocks_sized aes_enc (Buffer_from ENCRYPTION_KEY)
                aes_enc_sized iv _ Hpadded Hiv) as [Hcs _].
  pose proof (decrypt_encrypt_blocks aes_enc aes_dec (Buffer_from ENCRYPTION_KEY)
                aes_dec_enc aes_enc_sized iv _ Hpadded Hiv) as Hplain.
  pose proof (encrypt_blocks_length aes_enc (Buffer_from ENCRYPTION_KEY) iv
                (bs ++ [Cbc.pkcs7_pad r])) as Hlen.
  destruct (Cbc.encrypt_blocks aes_enc (Buffer_from ENCRYPTION_KEY) iv
              (bs ++ [Cbc.pkcs7_pad r])) as [cs chain'].
  cbn [fst snd] in *.
  assert (Hblocks : Cbc.blocks (concat cs) = (cs, [])).
  { rewrite <- (app_nil_r (concat cs)).
    apply blocks_concat; [done | unfold Cbc.BLOCK_SIZE; simpl; lia]. }
  rewrite !Hblocks.
  cbn [fst snd]. rewrite Hplain, last_last, removelast_last.
  rewrite pkcs7_unpad_pad by done.
  rewrite concat_blocks_length by done.
  rewrite Hlen, length_app. cbn [length].
  destruct (Nat.eqb_spec (Cbc.BLOCK_SIZE * (length bs + 1)) 0) as [H0 | _];
    [unfold Cbc.BLOCK_SIZE in H0; lia |].
  cbn. by rewrite string_of_list_ascii_app.
Qed.

End RoundTrip.

(** ** The stand-in block transformation *)

Lemma toy_dec_enc (key b : Buffer) :
  Cbc.BLOCK_SIZE ≤ length key → Cbc.block_sized b →
  toy_dec key (toy_enc key b) = b.
Proof.
  intros Hkey Hb. unfold toy_dec, toy_enc.
  apply xor_bytes_involutive. rewrite length_take. unfold Cbc.block_sized in Hb. lia.
Qed.

Lemma toy_enc_sized (key b : Buffer) :
  Cbc.BLOCK_SIZE ≤ length key → Cbc.block_sized b →
  Cbc.block_sized (toy_enc key b).
Proof.
  intros Hkey Hb. unfold toy_enc, Cbc.block_sized in *.
  rewrite xor_bytes_length; [done |]. rewrite length_take. lia.
Qed.

(** ** Claims about the codec *)




(** The decoder of the ciphertext segment stops in the same way, so that
    a token damaged inside its second block is decrypted as if it ended
    after the first one: when that block happens to end in valid padding,
    the result is a proper prefix of the original plaintext. *)
Lemma decrypt_returns_prefix_of_damaged_token :
  encrypt toy_enc sample_key sample_iv
    (Js.repeat_char "a" 15 +:+ Js.bytes [1] +:+ "bbbb")
  = Ok "4142434445464748494a4b4c4d4e4f50:101210161012101e10124b4f4f4b4b3742414047282b2a25242726212023225d"
  ∧ decrypt toy_dec sample_key truncated_token = Ok (Js.repeat_char "a" 15).
Proof. by vm_compute. Qed.

(** The same holds whatever the block transformation is. *)
Lemma decrypt_ignores_nonce_tail
    (aes_enc aes_dec : Buffer → Buffer → Buffer)
    (ENCRYPTION_KEY : string) (iv : Buffer) (s : string) :
  (∀ b, Cbc.block_sized b →
        aes_dec (Buffer_from ENCRYPTION_KEY)
          (aes_enc (Buffer_from ENCRYPTION_KEY) b) = b) →
  (∀ b, Cbc.block_sized b →
        Cbc.block_sized (aes_enc (Buffer_from ENCRYPTION_KEY) b)) →
  length (Buffer_from ENCRYPTION_KEY) = Cbc.KEY_SIZE →
  length iv = IV_LENGTH →
  let tampered :=
    ((Hex.encode iv +:+ "zz") +:+ ":")
    +:+ Hex.encode (Token.cbc_encrypt aes_enc ENCRYPTION_KEY iv (Buffer_from s)) in
  decrypt aes_dec ENCRYPTION_KEY tampered = Ok s
  ∧ Hex.well_formed (Token.nonce_segment tampered) = false.
Proof.
  intros Hdec Hsized Hkey Hiv tampered. subst tampered.
  assert (Hzz : Token.colon_free "zz").
  { intros c [<- | [<- | []]]; done. }
  split.
  - rewrite (decrypt_token aes_enc aes_dec ENCRYPTION_KEY Hdec Hsized Hkey)
      by done.
    unfold utf8_string, Buffer_from.
    by rewrite string_of_list_ascii_of_string.
  - unfold Token.nonce_segment. rewrite split_token
      by (apply colon_free_app; [apply hex_encode_colon_free | done]).
    cbn [hd]. clear. induction iv as [|[b0 b1 b2 b3 b4 b5 b6 b7] iv IH]; [done |].
    cbn [Hex.encode String.append Hex.well_formed]. rewrite IH.
    apply andb_false_r.
Qed.



(** ** The start-up check *)

Lemma js_length_ascii (s : string) :
  Js.is_ascii s = true → Js.js_length s = String.length s.
Proof.
  induction s as [|[b0 b1 b2 b3 b4 b5 b6 b7] s IH]; simpl; [done |].
  destruct b7; simpl; [done |]. intros H. by rewrite IH.
Qed.

Lemma length_Buffer_from (s : string) : length (Buffer_from s) = String.length s.
Proof. induction s as [|c s IH]; simpl; [done | by rewrite IH]. Qed.

(** What the check does ensure: the process goes on only with a key of 32
    UTF-16 code units, which is a key of 32 bytes when it is ASCII. *)
Lemma startup_started (env_key : option string) (key : string) :
  startup env_key = Started key →
  Js.js_length key = 32
  ∧ (Js.is_ascii key = true → length (Buffer_from key) = Cbc.KEY_SIZE).
Proof.
  unfold startup. destruct env_key as [k|]; [| discriminate].
  cbn [fmap option_fmap option_map].
  destruct (negb (Js.truthy (Some (Js.trim k)))); [discriminate |].
  destruct (Nat.eqb_spec (Js.js_length (Js.trim k)) 32) as [H32 | ];
    [| discriminate].
  cbn [negb orb]. intros [= <-]. split; [done |].
  intros Hascii. by rewrite length_Buffer_from, <- js_length_ascii.
Qed.

Lemma startup_absent : ∃ msg, startup None = Exited 1 msg.
Proof. by eexists. Qed.

(** C9 does not hold of the code: the check at start-up measures the key
    in characters, not in bytes.  A key of 32 characters one of which is
    not ASCII passes the check and is 33 bytes long; with it, every call
    of [encrypt] throws and every call of [decrypt] fails. *)
Theorem startup_accepts_a_key_of_33_bytes
    (aes_enc aes_dec : Buffer → Buffer → Buffer) :
  startup (Some multibyte_key) = Started multibyte_key
  ∧ length (Buffer_from multibyte_key) = 33
  ∧ (∀ iv text, is_ok (encrypt aes_enc multibyte_key iv text) = false)
  ∧ (∀ t, decrypt aes_dec multibyte_key t = Throw "Failed to decrypt text")
  ∧ encrypt aes_enc multibyte_key sample_iv "sk-abc" = Throw "Invalid key length".
Proof.
  split; [by vm_compute |]. split; [by vm_compute |]. split_and!.
  - intros iv text. unfold encrypt, Cbc.createCipheriv, Cbc.check_key_iv.
    destruct (negb (length iv =? Cbc.BLOCK_SIZE)); [done |].
    change (length (Buffer_from multibyte_key) =? Cbc.KEY_SIZE) with false.
    done.
  - intros t. unfold decrypt.
    destruct (Js.split ":" t) as [|first rest]; [done |].
    destruct (length (first :: rest) <? 2); [done |].
    unfold Cbc.createDecipheriv, Cbc.check_key_iv.
    destruct (negb (length (Hex.decode first) =? Cbc.BLOCK_SIZE)); [done |].
    change (length (Buffer_from multibyte_key) =? Cbc.KEY_SIZE) with false.
    done.
  - done.
Qed.

(** ** The store and the collectors *)

Lemma lazy_init_lookup u (d : gmap string UserRecord) :
  lazy_init u d !! u
  = Some (default {| promptId := None; openaiKey := None |} (d !! u)).
Proof.
  unfold lazy_init. destruct (d !! u) eqn:H; simpl; [done |].
  by rewrite lookup_insert_eq.
Qed.

Lemma lazy_init_lookup_ne u v (d : gmap string UserRecord) :
  u ≠ v → lazy_init u d !! v = d !! v.
Proof.
  intros Hne. unfold lazy_init. destruct (d !! u); [done |].
  by rewrite lookup_insert_ne.
Qed.

Lemma lazy_init_field {A} (f : UserRecord → option A) u v
    (d : gmap string UserRecord) :
  f {| promptId := None; openaiKey := None |} = None →
  lazy_init u d !! v ≫= f = d !! v ≫= f.
Proof.
  intros Hf. destruct (decide (u = v)) as [<- | Hne].
  - rewrite lazy_init_lookup. by destruct (d !! u).
  - by rewrite lazy_init_lookup_ne.
Qed.

Lemma find_collector_Some (id : nat) (cs : list Collector) c :
  find_collector id cs = Some c → c ∈ cs ∧ collector_id c = id.
Proof.
  unfold find_collector. intros H. apply find_some in H as [Hin Hid].
  split; [by apply list_elem_of_In | by apply Nat.eqb_eq].
Qed.

Lemma find_collector_None (id : nat) (cs : list Collector) :
  find_collector id cs = None ↔ ∀ c, c ∈ cs → collector_id c ≠ id.
Proof.
  unfold find_collector. split.
  - intros H c Hc Hid. apply list_elem_of_In in Hc.
    pose proof (find_none _ _ H c Hc) as Hn. simpl in Hn.
    apply Nat.eqb_neq in Hn. done.
  - intros H. destruct (find _ cs) as [c|] eqn:Hf; [| done].
    apply find_some in Hf as [Hin Hid]. apply Nat.eqb_eq in Hid.
    apply list_elem_of_In in Hin. by destruct (H c Hin).
Qed.

Lemma find_collector_unique (cs : list Collector) c :
  NoDup (collector_id <$> cs) → c ∈ cs → find_collector (collector_id c) cs = Some c.
Proof.
  unfold find_collector. induction cs as [|x cs IH]; intros Hnd Hc.
  - by apply elem_of_nil in Hc.
  - rewrite fmap_cons in Hnd. apply NoDup_cons in Hnd as [Hx Hnd]. simpl.
    apply elem_of_cons in Hc as [-> | Hc].
    + by rewrite Nat.eqb_refl.
    + destruct (Nat.eqb_spec (collector_id x) (collector_id c)) as [Heq | _].
      * destruct Hx. rewrite Heq. by apply list_elem_of_fmap_2.
      * by apply IH.
Qed.

Lemma elem_of_remove_collector (id : nat) (cs : list Collector) c :
  c ∈ remove_collector id cs ↔ c ∈ cs ∧ collector_id c ≠ id.
Proof.
  unfold remove_collector. rewrite !list_elem_of_In, filter_In.
  rewrite negb_true_iff, Nat.eqb_neq. done.
Qed.

Lemma remove_collector_NoDup (id : nat) (cs : list Collector) :
  NoDup (collector_id <$> cs) → NoDup (collector_id <$> remove_collector id cs).
Proof.
  induction cs as [|c cs IH]; [done |].
  rewrite fmap_cons. intros [Hc Hnd]%NoDup_cons.
  unfold remove_collector in *. cbn [List.filter].
  destruct (negb (collector_id c =? id)); [| by apply IH].
  rewrite fmap_cons. apply NoDup_cons. split; [| by apply IH].
  intros (c' & Heq & Hc')%list_elem_of_fmap.
  apply (elem_of_remove_collector id cs c') in Hc' as [Hc' _].
  apply Hc. rewrite Heq. by apply list_elem_of_fmap_2.
Qed.

(** ** The command handlers, case by case *)

Section Handlers.

Variable aes_enc : Buffer → Buffer → Buffer.
Variable aes_dec : Buffer → Buffer → Buffer.
Variable ENCRYPTION_KEY : string.

Lemma step_chat (s : State) (i : Interaction) (random : Buffer) :
  isChatInputCommand i = true → commandName i = "chat" →
  step aes_enc aes_dec ENCRYPTION_KEY s (InteractionCreate i random)
  = handleChatCommand aes_dec ENCRYPTION_KEY i
      (with_userData (lazy_init (user_id i) (userData s)) s).
Proof.
  intros Hchat Hname. cbn [step]. unfold interactionCreate.
  by rewrite Hchat, Hname.
Qed.

Lemma step_setprompt (s : State) (i : Interaction) (random : Buffer) text :
  isChatInputCommand i = true → commandName i = "setprompt" →
  prompt_id i = Some text →
  step aes_enc aes_dec ENCRYPTION_KEY s (InteractionCreate i random)
  = let s0 := with_userData (lazy_init (user_id i) (userData s)) s in
    if CHAR_LIMIT <? Js.js_length text then
      (s0, [Reply i (Text.too_long (user_id i) (Js.js_length text)) true])
    else
      saveUserData (KSetPrompt i (Js.js_length text))
        (with_userData
           (alter (set_promptId (Some text)) (user_id i) (userData s0)) s0).
Proof.
  intros Hchat Hname Hprompt. cbn [step]. unfold interactionCreate.
  by rewrite Hchat, Hname, Hprompt.
Qed.

(** A chat command of a user who has a session is refused, and nothing
    but the (lazily created) record of the user can differ afterwards. *)
Lemma chat_refused_when_active (s : State) (i : Interaction) (random : Buffer) :
  isChatInputCommand i = true → commandName i = "chat" →
  user_id i ∈ ACTIVE_SESSIONS s →
  step aes_enc aes_dec ENCRYPTION_KEY s (InteractionCreate i random)
  = (with_userData (lazy_init (user_id i) (userData s)) s,
     [Reply i (Text.conflict (user_id i)) true]).
Proof.
  intros Hchat Hname Hactive. rewrite step_chat by done.
  unfold handleChatCommand. cbn [ACTIVE_SESSIONS with_userData].
  by rewrite bool_decide_eq_true_2.
Qed.

(** A chat command with an inline instruction, from a user without a
    session whose credential decrypts: the instruction is stored and the
    store is written, before anything else happens. *)
Lemma chat_inline_step (s : State) (i : Interaction) (random : Buffer)
    (p token key : string) :
  isChatInputCommand i = true → commandName i = "chat" →
  prompt_id i = Some p → Js.truthy (Some p) = true →
  user_id i ∉ ACTIVE_SESSIONS s →
  userData s !! user_id i ≫= openaiKey = Some token →
  Js.truthy (Some token) = true →
  decrypt aes_dec ENCRYPTION_KEY token = Ok key →
  let d := alter (set_promptId (Some p)) (user_id i)
             (lazy_init (user_id i) (userData s)) in
  step aes_enc aes_dec ENCRYPTION_KEY s (InteractionCreate i random)
  = ({| userData := d; ACTIVE_SESSIONS := ACTIVE_SESSIONS s;
        collectors := collectors s;
        suspended := suspended s ++ [AwaitSave (KChat i (Some p) key)];
        next_collector := next_collector s |},
     [WriteFile d]).
Proof.
  intros Hchat Hname Hprompt Hp Hidle Htoken Htruthy Hdecrypt d.
  rewrite step_chat by done.
  unfold handleChatCommand. cbn [ACTIVE_SESSIONS userData with_userData].
  rewrite bool_decide_eq_false_2 by done.
  rewrite lazy_init_field by done.
  rewrite Htoken, Htruthy. cbn [negb from_option id]. rewrite Hdecrypt, Hprompt, Hp.
  done.
Qed.

Lemma chat_inline_stored (s : State) (i : Interaction) (p : string) :
  alter (set_promptId (Some p)) (user_id i)
    (lazy_init (user_id i) (userData s)) !! user_id i ≫= promptId = Some p.
Proof.
  rewrite lookup_alter_eq, lazy_init_lookup. done.
Qed.

End Handlers.

Lemma js_length_repeat_char (n : nat) : Js.js_length (Js.repeat_char "a" n) = n.
Proof. induction n as [|n IH]; simpl; [done | by rewrite IH]. Qed.

Lemma js_length_truthy (p : string) : 0 < Js.js_length p → Js.truthy (Some p) = true.
Proof. destruct p; simpl; [lia | done]. Qed.

Lemma sample_token_decrypts :
  decrypt toy_dec sample_key sample_token = Ok "sk-abc".
Proof. by vm_compute. Qed.

(** ** Claims about the stored instruction *)

(** C8. [setprompt] with a text of exactly 4000 characters stores the
    text and writes the store, and the handler goes on to confirm it to
    the user; with 4001 characters it only tells the user that the text
    is too long, and the stored instruction is the one from before. *)
Theorem setprompt_boundary
    (aes_enc aes_dec : Buffer → Buffer → Buffer) (ENCRYPTION_KEY : string)
    (s : State) (accepted refused : Interaction) (random : Buffer)
    (text text' : string) :
  isChatInputCommand accepted = true → commandName accepted = "setprompt" →
  prompt_id accepted = Some text → Js.js_length text = 4000 →
  isChatInputCommand refused = true → commandName refused = "setprompt" →
  prompt_id refused = Some text' → Js.js_length text' = 4001 →
  (let '(s1, out) :=
     step aes_enc aes_dec ENCRYPTION_KEY s (InteractionCreate accepted random) in
   userData s1 !! user_id accepted ≫= promptId = Some text
   ∧ out = [WriteFile (userData s1)]
   ∧ suspended s1 = suspended s ++ [AwaitSave (KSetPrompt accepted 4000)]
   ∧ after_save (KSetPrompt accepted 4000) s1
     = (s1, [Log (Text.prompt_saved_log (user_id accepted) 4000);
             Reply accepted (Text.prompt_saved (user_id accepted) 4000) true]))
  ∧ (let '(s2, out) :=
       step aes_enc aes_dec ENCRYPTION_KEY s (InteractionCreate refused random) in
     out = [Reply refused (Text.too_long (user_id refused) 4001) true]
     ∧ userData s2 !! user_id refused ≫= promptId
       = userData s !! user_id refused ≫= promptId
     ∧ (∀ v, v ≠ user_id refused → userData s2 !! v = userData s !! v)
     ∧ suspended s2 = suspended s).
Proof.
  intros Hchat Hname Hprompt Hlen Hchat' Hname' Hprompt' Hlen'. split.
  - rewrite (step_setprompt _ _ _ _ _ _ text) by done. rewrite Hlen.
    change (CHAR_LIMIT <? 4000) with false.
    cbn [saveUserData suspend with_userData with_suspended userData suspended].
    split_and!; try done.
    by rewrite lookup_alter_eq, lazy_init_lookup.
  - rewrite (step_setprompt _ _ _ _ _ _ text') by done. rewrite Hlen'.
    change (CHAR_LIMIT <? 4001) with true.
    cbn [with_userData userData suspended].
    split_and!; try done.
    + by apply lazy_init_field.
    + intros v Hv. by apply lazy_init_lookup_ne.
Qed.

Lemma setprompt_boundary_witness :
  let accepted := command "setprompt" "U1" "c" (Some (Js.repeat_char "a" 4000)) None in
  let refused := command "setprompt" "U1" "c" (Some (Js.repeat_char "a" 4001)) None in
  let s := initial sample_store in
  Js.js_length (Js.repeat_char "a" 4000) = 4000
  ∧ Js.js_length (Js.repeat_char "a" 4001) = 4001
  ∧ (let '(s1, out) :=
       step toy_enc toy_dec sample_key s (InteractionCreate accepted []) in
     userData s1 !! user_id accepted ≫= promptId = Some (Js.repeat_char "a" 4000)
     ∧ out = [WriteFile (userData s1)]
     ∧ suspended s1 = suspended s ++ [AwaitSave (KSetPrompt accepted 4000)]
     ∧ after_save (KSetPrompt accepted 4000) s1
       = (s1, [Log (Text.prompt_saved_log (user_id accepted) 4000);
               Reply accepted (Text.prompt_saved (user_id accepted) 4000) true]))
  ∧ (let '(s2, out) :=
       step toy_enc toy_dec sample_key s (InteractionCreate refused []) in
     out = [Reply refused (Text.too_long (user_id refused) 4001) true]
     ∧ userData s2 !! user_id refused ≫= promptId
       = userData s !! user_id refused ≫= promptId
     ∧ (∀ v, v ≠ user_id refused → userData s2 !! v = userData s !! v)
     ∧ suspended s2 = suspended s).
Proof.
  intros accepted refused s.
  split; [apply js_length_repeat_char |].
  split; [apply js_length_repeat_char |].
  apply (setprompt_boundary toy_enc toy_dec sample_key s accepted refused []
           (Js.repeat_char "a" 4000) (Js.repeat_char "a" 4001));
    try reflexivity; apply js_length_repeat_char.
Defined.

(** C3 does not hold of the code: [chat] stores its inline instruction
    without looking at its length.  From a state in which every stored
    instruction is within the limit, a chat command with an instruction of
    more than 4000 characters leads to a state in which the instruction of
    the user exceeds it. *)
Theorem chat_stores_instruction_over_limit
    (aes_enc aes_dec : Buffer → Buffer → Buffer) (ENCRYPTION_KEY : string)
    (s : State) (i : Interaction) (random : Buffer) (p token key : string) :
  isChatInputCommand i = true → commandName i = "chat" →
  prompt_id i = Some p → CHAR_LIMIT < Js.js_length p →
  user_id i ∉ ACTIVE_SESSIONS s →
  userData s !! user_id i ≫= openaiKey = Some token →
  Js.truthy (Some token) = true →
  decrypt aes_dec ENCRYPTION_KEY token = Ok key →
  let s' := (step aes_enc aes_dec ENCRYPTION_KEY s (InteractionCreate i random)).1 in
  userData s' !! user_id i ≫= promptId = Some p
  ∧ ¬ within_limit (userData s').
Proof.
  intros Hchat Hname Hprompt Hlong Hidle Htoken Htruthy Hdecrypt s'.
  assert (Hstored : userData s' !! user_id i ≫= promptId = Some p).
  { subst s'.
    rewrite (chat_inline_step _ _ _ _ _ _ p token key)
      by (done || apply js_length_truthy; lia).
    apply chat_inline_stored. }
  split; [done |]. intros Hlimit.
  destruct (userData s' !! user_id i) as [r|] eqn:Hr; [| done].
  specialize (Hlimit _ _ _ Hr Hstored). lia.
Qed.

Lemma chat_stores_instruction_over_limit_witness :
  let i := chat "U1" "c" (Some (Js.repeat_char "a" 4001)) in
  let s := initial sample_store in
  within_limit (userData s)
  ∧ CHAR_LIMIT < Js.js_length (Js.repeat_char "a" 4001)
  ∧ let s' := (step toy_enc toy_dec sample_key s (InteractionCreate i [])).1 in
    userData s' !! "U1" ≫= promptId = Some (Js.repeat_char "a" 4001)
    ∧ ¬ within_limit (userData s').
Proof.
  intros i s. split.
  { subst s. cbn [userData initial]. unfold sample_store.
    intros u r p [<- <-]%lookup_singleton_Some [= <-]. vm_compute. lia. }
  split; [rewrite js_length_repeat_char; unfold CHAR_LIMIT; lia |].
  apply (chat_stores_instruction_over_limit toy_enc toy_dec sample_key s i []
           (Js.repeat_char "a" 4001) sample_token "sk-abc");
    [ reflexivity | reflexivity | reflexivity
    | rewrite js_length_repeat_char; unfold CHAR_LIMIT; lia
    | apply not_elem_of_empty | reflexivity | reflexivity
    | apply sample_token_decrypts ].
Defined.

(** What does hold: [setprompt] keeps every stored instruction within the
    limit. *)
Lemma setprompt_within_limit
    (aes_enc aes_dec : Buffer → Buffer → Buffer) (ENCRYPTION_KEY : string)
    (s : State) (i : Interaction) (random : Buffer) :
  isChatInputCommand i = true → commandName i = "setprompt" →
  within_limit (userData s) →
  within_limit
    (userData (step aes_enc aes_dec ENCRYPTION_KEY s (InteractionCreate i random)).1).
Proof.
  intros Hchat Hname Hlimit.
  assert (Hinit : within_limit (lazy_init (user_id i) (userData s))).
  { intros u r p Hr Hp. destruct (decide (user_id i = u)) as [<- | Hne].
    - rewrite lazy_init_lookup in Hr. injection Hr as <-.
      destruct (userData s !! user_id i) as [r|] eqn:Hu; [| done].
      by eapply Hlimit.
    - rewrite lazy_init_lookup_ne in Hr by done. by eapply Hlimit. }
  destruct (prompt_id i) as [text|] eqn:Hprompt.
  - rewrite (step_setprompt _ _ _ _ _ _ text) by done.
    cbn zeta. destruct (Nat.ltb_spec CHAR_LIMIT (Js.js_length text)); [done |].
    cbn [saveUserData suspend with_userData with_suspended userData fst].
    intros u r p Hr Hp. destruct (decide (user_id i = u)) as [<- | Hne].
    + rewrite lookup_alter_eq in Hr.
      destruct (lazy_init (user_id i) (userData s) !! user_id i); [| done].
      injection Hr as <-. injection Hp as <-. done.
    + rewrite lookup_alter_ne in Hr by done. by eapply Hinit.
  - cbn [step]. unfold interactionCreate. by rewrite Hchat, Hname, Hprompt.
Qed.

(** C10, as stated, fails: a user with a stored, decryptable credential
    who already has a session invokes [chat] with an inline instruction;
    the command is refused and the stored instruction stays as it was. *)
Lemma chat_inline_not_stored_when_active :
  let i := chat "U1" "c" (Some "be long") in
  userData active_state !! "U1" ≫= openaiKey = Some sample_token
  ∧ decrypt toy_dec sample_key sample_token = Ok "sk-abc"
  ∧ prompt_id i = Some "be long"
  ∧ let '(s', out) :=
      step toy_enc toy_dec sample_key active_state (InteractionCreate i []) in
    userData s' !! "U1" ≫= promptId = Some "be brief"
    ∧ out = [Reply i (Text.conflict "U1") true].
Proof. by vm_compute. Qed.

(** C10, amended.  For a user who has no open session and a stored,
    decryptable credential, [chat] with a non-empty inline instruction
    overwrites the stored instruction of that user with the inline text
    and writes the store, before the user enters the registry and before any
    collector exists; nothing later in the handler restores the old
    instruction.  For a user without a session and without a stored
    credential the command is refused and the instruction is not
    stored. *)
Theorem chat_inline_instruction_is_stored
    (aes_enc aes_dec : Buffer → Buffer → Buffer) (ENCRYPTION_KEY : string)
    (s : State) (i : Interaction) (random : Buffer) (p token key : string)
    (s0 : State) (i0 : Interaction) :
  isChatInputCommand i = true → commandName i = "chat" →
  prompt_id i = Some p → p ≠ EmptyString →
  user_id i ∉ ACTIVE_SESSIONS s →
  userData s !! user_id i ≫= openaiKey = Some token →
  token ≠ EmptyString →
  decrypt aes_dec ENCRYPTION_KEY token = Ok key →
  isChatInputCommand i0 = true → commandName i0 = "chat" →
  user_id i0 ∉ ACTIVE_SESSIONS s0 →
  Js.truthy (userData s0 !! user_id i0 ≫= openaiKey) = false →
  (let '(s', out) :=
     step aes_enc aes_dec ENCRYPTION_KEY s (InteractionCreate i random) in
   userData s' !! user_id i ≫= promptId = Some p
   ∧ out = [WriteFile (userData s')]
   ∧ ACTIVE_SESSIONS s' = ACTIVE_SESSIONS s
   ∧ collectors s' = collectors s
   ∧ suspended s' = suspended s ++ [AwaitSave (KChat i (Some p) key)]
   ∧ ∀ s1, userData (after_save (KChat i (Some p) key) s1).1 = userData s1)
  ∧ (let '(s', out) :=
       step aes_enc aes_dec ENCRYPTION_KEY s0 (InteractionCreate i0 random) in
     out = [Reply i0 Text.no_key true]
     ∧ userData s' !! user_id i0 ≫= promptId
       = userData s0 !! user_id i0 ≫= promptId
     ∧ suspended s' = suspended s0).
Proof.
  intros Hchat Hname Hprompt Hp Hidle Htoken Htruthy Hdecrypt
    Hchat0 Hname0 Hidle0 Hnokey.
  split.
  - rewrite (chat_inline_step _ _ _ _ _ _ p token key);
      [| done | done | done | by destruct p | done | done | by destruct token
       | done ].
    cbn [userData ACTIVE_SESSIONS collectors suspended].
    split_and!; try done; [apply chat_inline_stored |].
    intros s1. cbn [after_save]. unfold chat_enter.
    by destruct (negb (Js.truthy (Some p))).
  - rewrite step_chat by done. unfold handleChatCommand.
    cbn [ACTIVE_SESSIONS userData with_userData].
    rewrite bool_decide_eq_false_2 by done.
    rewrite lazy_init_field by done. rewrite Hnokey.
    cbn [negb userData suspended with_userData].
    split_and!; try done. by apply lazy_init_field.
Qed.

Lemma chat_inline_instruction_is_stored_witness :
  let i := chat "U1" "c" (Some "be long") in
  let i0 := chat "U2" "c" (Some "be long") in
  let s := initial sample_store in
  (let '(s', out) := step toy_enc toy_dec sample_key s (InteractionCreate i []) in
   userData s' !! "U1" ≫= promptId = Some "be long"
   ∧ out = [WriteFile (userData s')]
   ∧ ACTIVE_SESSIONS s' = ACTIVE_SESSIONS s
   ∧ collectors s' = collectors s
   ∧ suspended s' = suspended s ++ [AwaitSave (KChat i (Some "be long") "sk-abc")]
   ∧ ∀ s1, userData (after_save (KChat i (Some "be long") "sk-abc") s1).1
           = userData s1)
  ∧ (let '(s', out) := step toy_enc toy_dec sample_key s (InteractionCreate i0 []) in
     out = [Reply i0 Text.no_key true]
     ∧ userData s' !! "U2" ≫= promptId = userData s !! "U2" ≫= promptId
     ∧ suspended s' = suspended s).
Proof.
  intros i i0 s.
  apply (chat_inline_instruction_is_stored toy_enc toy_dec sample_key
           s i [] "be long" sample_token "sk-abc" s i0);
    [ reflexivity | reflexivity | reflexivity | discriminate
    | apply not_elem_of_empty | reflexivity | discriminate
    | apply sample_token_decrypts | reflexivity | reflexivity
    | apply not_elem_of_empty | reflexivity ].
Defined.

(** ** Resumption of suspended handlers *)

Lemma step_resume
    (aes_enc aes_dec : Buffer → Buffer → Buffer) (ENCRYPTION_KEY : string)
    (s : State) (n : nat) (o : Outcome) (p : Pending) r :
  suspended s !! n = Some p →
  resume p o (with_suspended (delete n (suspended s)) s) = Some r →
  step aes_enc aes_dec ENCRYPTION_KEY s (Resume n o) = r.
Proof. intros Hp Hr. cbn [step]. by rewrite Hp, Hr. Qed.

(** The handler of [chat] after the write of the store: the user
    enters the registry and the announcement is sent. *)
Lemma step_resume_chat_save
    (aes_enc aes_dec : Buffer → Buffer → Buffer) (ENCRYPTION_KEY : string)
    (s : State) (n : nat) (i : Interaction) (p key : string) :
  suspended s !! n = Some (AwaitSave (KChat i (Some p) key)) →
  Js.truthy (Some p) = true →
  step aes_enc aes_dec ENCRYPTION_KEY s (Resume n WriteOk)
  = ({| userData := userData s;
        ACTIVE_SESSIONS := {[user_id i]} ∪ ACTIVE_SESSIONS s;
        collectors := collectors s;
        suspended := delete n (suspended s) ++ [ChatAwaitReply i p key];
        next_collector := next_collector s |},
     [Log "User data saved successfully."; Reply i (Text.announce p) true]).
Proof.
  intros Hn Hp. erewrite step_resume; [| done | reflexivity].
  cbn [after_save]. unfold chat_enter. by rewrite Hp.
Qed.

(** The handler of [chat] after the announcement: the collector is
    created. *)
Lemma step_resume_chat_reply
    (aes_enc aes_dec : Buffer → Buffer → Buffer) (ENCRYPTION_KEY : string)
    (s : State) (n : nat) (i : Interaction) (p key : string) :
  suspended s !! n = Some (ChatAwaitReply i p key) →
  step aes_enc aes_dec ENCRYPTION_KEY s (Resume n Settled)
  = ({| userData := userData s;
        ACTIVE_SESSIONS := ACTIVE_SESSIONS s;
        collectors :=
          collectors s
          ++ [{| collector_id := next_collector s; c_userId := user_id i;
                 c_channelId := channelId i; c_prompt := p;
                 c_openaiKey := key; collected := [] |}];
        suspended := delete n (suspended s);
        next_collector := S (next_collector s) |},
     [DeleteReplyAfter i 60000%N]).
Proof. intros Hn. by erewrite step_resume; [| done | reflexivity]. Qed.

(** ** Claims about the end of a session *)

(** C4 does not hold of the code: the listener for the end of a
    collector sends the notice that the session "has expired after 5
    minutes" whatever ended the collector.  A message that is an exit
    keyword is acknowledged, and when the handler goes on to stop the
    collector the expiry notice is sent as well, exactly as it is when
    the timer fires. *)
Theorem exit_keyword_emits_expiry_notice
    (aes_enc aes_dec : Buffer → Buffer → Buffer) (ENCRYPTION_KEY : string)
    (s : State) (c : Collector) (m : Message) (n : nat) :
  is_exit_keyword (content m) = true →
  find_collector (collector_id c) (collectors s) = Some c →
  suspended s !! n = Some (ExitAwaitAck (collector_id c) m) →
  on_collect c m
  = (ExitAwaitAck (collector_id c) m, [MessageReply m (JStr Text.ack)])
  ∧ (step aes_enc aes_dec ENCRYPTION_KEY s (Resume n Settled)).2
    = [Log (Text.ended_log (c_userId c) (length (collected c)));
       ChannelSend (c_channelId c) (Text.expired (c_userId c))]
  ∧ (step aes_enc aes_dec ENCRYPTION_KEY s (CollectorTimeout (collector_id c))).2
    = (step aes_enc aes_dec ENCRYPTION_KEY s (Resume n Settled)).2.
Proof.
  intros Hexit Hfind Hn. split_and!.
  - unfold on_collect. unfold is_exit_keyword in Hexit. by rewrite Hexit.
  - erewrite step_resume; [| done | done].
    unfold end_collector. cbn [collectors with_suspended]. by rewrite Hfind.
  - erewrite (step_resume _ _ _ s n); [| done | done].
    cbn [step]. unfold end_collector. cbn [collectors with_suspended].
    by rewrite Hfind.
Qed.

(** The whole exchange, on the sample store: U1 opens a session and sends
    " Exit "; the acknowledgement is followed by the expiry notice. *)
Lemma exit_scenario_output :
  (run toy_enc toy_dec sample_key (initial sample_store) exit_scenario).2
  = [Reply (chat "U1" "c" None) (Text.announce "be brief") true;
     DeleteReplyAfter (chat "U1" "c" None) 60000%N;
     MessageReply (message 1 "U1" "c" " Exit ") (JStr Text.ack);
     Log "Chat session with U1 ended. Messages collected: 1";
     ChannelSend "c" (Text.expired "U1")].
Proof. by vm_compute. Qed.

Lemma exit_keyword_emits_expiry_notice_witness :
  let m := message 1 "U1" "c" " Exit " in
  let s := (step toy_enc toy_dec sample_key active_state (MessageCreate m)).1 in
  let c := {| collector_id := 0; c_userId := "U1"; c_channelId := "c";
              c_prompt := "be brief"; c_openaiKey := "sk-abc";
              collected := [m] |} in
  on_collect c m
  = (ExitAwaitAck (collector_id c) m, [MessageReply m (JStr Text.ack)])
  ∧ (step toy_enc toy_dec sample_key s (Resume 0 Settled)).2
    = [Log (Text.ended_log (c_userId c) (length (collected c)));
       ChannelSend (c_channelId c) (Text.expired (c_userId c))]
  ∧ (step toy_enc toy_dec sample_key s (CollectorTimeout (collector_id c))).2
    = (step toy_enc toy_dec sample_key s (Resume 0 Settled)).2.
Proof.
  intros m s c.
  apply (exit_keyword_emits_expiry_notice toy_enc toy_dec sample_key s c m 0);
    by vm_compute.
Defined.

(** ** Claims about the session registry *)

Lemma alter_promptId_openaiKey (v : option string) (u w : string)
    (d : gmap string UserRecord) :
  alter (set_promptId v) u d !! w ≫= openaiKey = d !! w ≫= openaiKey.
Proof.
  destruct (decide (u = w)) as [<- | Hne].
  - rewrite lookup_alter_eq. by destruct (d !! u).
  - by rewrite lookup_alter_ne.
Qed.

Lemma lookup_snoc2 {A} (l : list A) (x y : A) :
  ((l ++ [x]) ++ [y]) !! length l = Some x.
Proof. rewrite <- app_assoc. by apply list_lookup_middle. Qed.

Lemma delete_snoc2 {A} (l : list A) (x y : A) :
  delete (length l) ((l ++ [x]) ++ [y]) = l ++ [y].
Proof. rewrite <- app_assoc. exact (delete_middle l [y] x). Qed.

Lemma lookup_snoc {A} (l : list A) (x : A) : (l ++ [x]) !! length l = Some x.
Proof. by apply list_lookup_middle. Qed.

Lemma delete_snoc {A} (l : list A) (x : A) : delete (length l) (l ++ [x]) = l.
Proof. by rewrite delete_middle, app_nil_r. Qed.

Lemma announce_ne_conflict (p u : string) : Text.announce p ≠ Text.conflict u.
Proof. unfold Text.announce, Text.conflict, Text.mention. simpl. discriminate. Qed.

(** C1 does not hold of the code: between the check of the registry
    (index.js 144) and the entry into it (index.js 180) the handler awaits
    the write of the store when an inline instruction is given.  A second
    chat command of the same user that arrives during that wait passes
    the check too, and both commands end up with a collector of their
    own: the user has two live sessions. *)
Theorem concurrent_chat_commands_open_two_sessions
    (aes_enc aes_dec : Buffer → Buffer → Buffer) (ENCRYPTION_KEY : string)
    (s : State) (u ch p1 p2 token key : string) (random1 random2 : Buffer) :
  u ∉ ACTIVE_SESSIONS s →
  userData s !! u ≫= openaiKey = Some token →
  token ≠ EmptyString →
  decrypt aes_dec ENCRYPTION_KEY token = Ok key →
  p1 ≠ EmptyString → p2 ≠ EmptyString →
  let n := length (suspended s) in
  let first := chat u ch (Some p1) in
  let second := chat u ch (Some p2) in
  let '(s', out) :=
    run aes_enc aes_dec ENCRYPTION_KEY s
      [InteractionCreate first random1; InteractionCreate second random2;
       Resume n WriteOk; Resume n WriteOk;
       Resume n Settled; Resume n Settled] in
  collectors s'
  = collectors s
    ++ [{| collector_id := next_collector s; c_userId := u;
           c_channelId := ch; c_prompt := p1; c_openaiKey := key;
           collected := [] |};
        {| collector_id := S (next_collector s); c_userId := u;
           c_channelId := ch; c_prompt := p2; c_openaiKey := key;
           collected := [] |}]
  ∧ length (sessions_of u s') = length (sessions_of u s) + 2
  ∧ Reply first (Text.announce p1) true ∈ out
  ∧ Reply second (Text.announce p2) true ∈ out
  ∧ ∀ text, Reply second text true ∈ out → text ≠ Text.conflict u.
Proof.
  intros Hidle Htoken Htruthy Hdecrypt Hp1 Hp2 n first second.
  subst n first second.
  assert (Ht1 : Js.truthy (Some p1) = true) by (by destruct p1).
  assert (Ht2 : Js.truthy (Some p2) = true) by (by destruct p2).
  assert (Htt : Js.truthy (Some token) = true) by (by destruct token).
  cbn [run].
  rewrite (chat_inline_step _ _ _ _ _ _ p1 token key) by done.
  cbn [user_id chat command].
  rewrite (chat_inline_step _ _ _ _ _ _ p2 token key);
    [| done | done | done | done | done
     | cbn [userData user_id chat command];
       by rewrite alter_promptId_openaiKey, lazy_init_field
     | done | done ].
  cbn [userData ACTIVE_SESSIONS collectors suspended next_collector
       user_id chat command].
  rewrite (step_resume_chat_save _ _ _ _ _ (chat u ch (Some p1)) p1 key)
    by (done || apply lookup_snoc2).
  cbn [userData ACTIVE_SESSIONS collectors suspended next_collector
       user_id chat command].
  rewrite delete_snoc2.
  rewrite (step_resume_chat_save _ _ _ _ _ (chat u ch (Some p2)) p2 key)
    by (done || apply lookup_snoc2).
  cbn [userData ACTIVE_SESSIONS collectors suspended next_collector
       user_id chat command].
  rewrite delete_snoc2.
  rewrite (step_resume_chat_reply _ _ _ _ _ (chat u ch (Some p1)) p1 key)
    by apply lookup_snoc2.
  cbn [userData ACTIVE_SESSIONS collectors suspended next_collector
       user_id channelId chat command].
  rewrite delete_snoc2.
  rewrite (step_resume_chat_reply _ _ _ _ _ (chat u ch (Some p2)) p2 key)
    by apply lookup_snoc.
  cbn [userData ACTIVE_SESSIONS collectors suspended next_collector
       user_id channelId chat command].
  split_and!.
  - by rewrite <- app_assoc.
  - unfold sessions_of. cbn [collectors].
    rewrite <- app_assoc, List.filter_app, length_app. f_equal.
    cbn [List.filter c_userId app]. by rewrite String.eqb_refl.
  - cbn [save_log app]. set_solver.
  - cbn [save_log app]. set_solver.
  - cbn [save_log app]. intros text Hin.
    repeat (apply elem_of_cons in Hin as [Hin | Hin]);
      try discriminate Hin; try (by apply elem_of_nil in Hin);
      simplify_eq; apply announce_ne_conflict.
Qed.

Lemma concurrent_chat_commands_open_two_sessions_witness :
  let first := chat "U1" "c" (Some "be brief") in
  let second := chat "U1" "c" (Some "be long") in
  let s := initial sample_store in
  let '(s', out) := run toy_enc toy_dec sample_key s race_scenario in
  collectors s'
  = collectors s
    ++ [{| collector_id := next_collector s; c_userId := "U1";
           c_channelId := "c"; c_prompt := "be brief";
           c_openaiKey := "sk-abc"; collected := [] |};
        {| collector_id := S (next_collector s); c_userId := "U1";
           c_channelId := "c"; c_prompt := "be long";
           c_openaiKey := "sk-abc"; collected := [] |}]
  ∧ length (sessions_of "U1" s') = length (sessions_of "U1" s) + 2
  ∧ Reply first (Text.announce "be brief") true ∈ out
  ∧ Reply second (Text.announce "be long") true ∈ out
  ∧ ∀ text, Reply second text true ∈ out → text ≠ Text.conflict "U1".
Proof.
  intros first second s.
  apply (concurrent_chat_commands_open_two_sessions toy_enc toy_dec sample_key
           s "U1" "c" "be brief" "be long" sample_token "sk-abc" [] []);
    [ apply not_elem_of_empty | reflexivity | discriminate
    | apply sample_token_decrypts | discriminate | discriminate ].
Defined.

(** After the race, a message of the user is relayed once by each of the
    two collectors; and when the first collector ends, the registry holds
    no entry for the user although the second collector is still live. *)
Lemma race_aftermath :
  let s := (run toy_enc toy_dec sample_key (initial sample_store) race_scenario).1 in
  let m := message 1 "U1" "c" "hello" in
  (step toy_enc toy_dec sample_key s (MessageCreate m)).2
  = [SendTyping "c";
     HttpsRequest "Bearer sk-abc"
       {| model := "gpt-4"; max_tokens := 500;
          system_content := "be brief"; user_content := "hello" |};
     SendTyping "c";
     HttpsRequest "Bearer sk-abc"
       {| model := "gpt-4"; max_tokens := 500;
          system_content := "be long"; user_content := "hello" |}]
  ∧ let s' := (step toy_enc toy_dec sample_key s (CollectorTimeout 0)).1 in
    bool_decide ("U1" ∈ ACTIVE_SESSIONS s') = false
    ∧ collector_id <$> sessions_of "U1" s' = [1].
Proof. by vm_compute. Qed.

(** ** What each kind of event leaves unchanged *)

Lemma chat_enter_frame (i : Interaction) (prompt : option string)
    (key : string) (s : State) :
  let s' := (chat_enter i prompt key s).1 in
  userData s' = userData s
  ∧ collectors s' = collectors s
  ∧ next_collector s' = next_collector s
  ∧ ∀ id m, ExitAwaitAck id m ∈ suspended s' → ExitAwaitAck id m ∈ suspended s.
Proof.
  unfold chat_enter. destruct (negb (Js.truthy prompt)); simpl; [done |].
  split_and!; try done. intros id m [H | H]%elem_of_app; [done |].
  apply list_elem_of_singleton in H. done.
Qed.

(** A slash command neither creates nor ends a collector. *)
Lemma interactionCreate_frame
    (aes_enc aes_dec : Buffer → Buffer → Buffer) (ENCRYPTION_KEY : string)
    (i : Interaction) (random : Buffer) (s : State) :
  let s' := (interactionCreate aes_enc aes_dec ENCRYPTION_KEY i random s).1 in
  collectors s' = collectors s
  ∧ next_collector s' = next_collector s
  ∧ ∀ id m, ExitAwaitAck id m ∈ suspended s' → ExitAwaitAck id m ∈ suspended s.
Proof.
  assert (Hsave : ∀ k s0,
    collectors (saveUserData k s0).1 = collectors s0
    ∧ next_collector (saveUserData k s0).1 = next_collector s0
    ∧ ∀ id m, ExitAwaitAck id m ∈ suspended (saveUserData k s0).1 →
              ExitAwaitAck id m ∈ suspended s0).
  { intros k s0. simpl. split_and!; try done.
    intros id m [H | H]%elem_of_app; [done |].
    apply list_elem_of_singleton in H. done. }
  unfold interactionCreate, handleChatCommand, on_error.
  repeat match goal with
         | |- context [if ?b then _ else _] => destruct b
         | |- context [match ?o with Some _ => _ | None => _ end] => destruct o
         | |- context [match ?r with Ok _ => _ | Throw _ => _ end] => destruct r
         end;
    try (by apply (Hsave _ (with_userData _ s)));
    try (by simpl).
  match goal with
  | |- context [chat_enter ?i0 ?p ?k ?s0] =>
      destruct (chat_enter_frame i0 p k s0) as (_ & ? & ? & ?)
  end.
  done.
Qed.

(** A message changes neither the identity nor the user or channel of a
    collector, and suspends a handler before [collector.stop()] only for an
    exit keyword, on behalf of a collector that accepts the message. *)
Lemma dispatch_spec (m : Message) (cs : list Collector) :
  let '(cs', ps, es) := dispatch m cs in
  Forall2 (λ c c', collector_id c' = collector_id c
                    ∧ c_userId c' = c_userId c
                    ∧ c_channelId c' = c_channelId c) cs cs'
  ∧ ∀ id m', ExitAwaitAck id m' ∈ ps →
       m' = m ∧ is_exit_keyword (content m) = true
       ∧ ∃ c, c ∈ cs ∧ collector_id c = id ∧ collector_filter c m = true.
Proof.
  induction cs as [|c cs IH]; simpl.
  - split; [constructor |]. by intros id m' H%elem_of_nil.
  - destruct (dispatch m cs) as [[cs' ps] es]. destruct IH as [IH1 IH2].
    destruct (collector_filter c m) eqn:Hfilter.
    + unfold on_collect.
      fold (is_exit_keyword (content m)).
      destruct (is_exit_keyword (content m)) eqn:Hexit.
      * split; [by constructor |].
        intros id m' [[= -> ->] | H]%elem_of_cons.
        -- split_and!; try done. exists c. split_and!; try done. by left.
        -- destruct (IH2 _ _ H) as (-> & _ & c' & Hc' & Hid & Hf).
           split_and!; try done. exists c'. split_and!; try done. by right.
      * split; [by constructor |].
        intros id m' [[=] | H]%elem_of_cons.
        destruct (IH2 _ _ H) as (-> & He & _). congruence.
    + split; [by constructor |].
      intros id m' H. destruct (IH2 _ _ H) as (-> & He & c' & Hc' & Hid & Hf).
      split_and!; try done. exists c'. split_and!; try done. by right.
Qed.

Lemma Forall2_same_ids (cs cs' : list Collector) :
  Forall2 (λ c c', collector_id c' = collector_id c
                    ∧ c_userId c' = c_userId c
                    ∧ c_channelId c' = c_channelId c) cs cs' →
  collector_id <$> cs' = collector_id <$> cs
  ∧ ∀ c', c' ∈ cs' →
       ∃ c, c ∈ cs ∧ collector_id c' = collector_id c
            ∧ ∀ m, collector_filter c' m = collector_filter c m.
Proof.
  induction 1 as [|c c' cs cs' (Hid & Hu & Hch) _ [IH1 IH2]].
  - split; [done |]. by intros c' H%elem_of_nil.
  - split; [by rewrite !fmap_cons, Hid, IH1 |].
    intros x [-> | Hx]%elem_of_cons.
    + exists c. split_and!; [by left | done |].
      intros m. unfold collector_filter. by rewrite Hu, Hch.
    + destruct (IH2 _ Hx) as (c0 & Hc0 & Hid0 & Hf).
      exists c0. split_and!; [by right | done | done].
Qed.

(** ** The end of a collector *)

Lemma end_collector_live (id : nat) (s : State) (c : Collector) :
  find_collector id (collectors s) = Some c →
  end_collector id s
  = ({| userData := userData s;
        ACTIVE_SESSIONS := ACTIVE_SESSIONS s ∖ {[c_userId c]};
        collectors := remove_collector id (collectors s);
        suspended := suspended s;
        next_collector := next_collector s |},
     [Log (Text.ended_log (c_userId c) (length (collected c)));
      ChannelSend (c_channelId c) (Text.expired (c_userId c))]).
Proof. intros H. unfold end_collector. by rewrite H. Qed.

Lemma end_collector_ended (id : nat) (s : State) :
  find_collector id (collectors s) = None → end_collector id s = (s, []).
Proof. intros H. unfold end_collector. by rewrite H. Qed.

Lemma end_collector_frame (id : nat) (s : State) :
  NoDup (collector_id <$> collectors s) →
  suspended (end_collector id s).1 = suspended s
  ∧ next_collector (end_collector id s).1 = next_collector s
  ∧ NoDup (collector_id <$> collectors (end_collector id s).1)
  ∧ ∀ c, c ∈ collectors (end_collector id s).1 → c ∈ collectors s.
Proof.
  intros Hnd.
  destruct (find_collector id (collectors s)) as [c|] eqn:Hfind.
  - rewrite (end_collector_live _ _ _ Hfind). cbn.
    split_and!; try done; [by apply remove_collector_NoDup |].
    intros c' Hc'. by apply elem_of_remove_collector in Hc' as [? _].
  - by rewrite end_collector_ended.
Qed.

(** ** Every reachable state is well formed *)

Lemma initial_well_formed (loaded : gmap string UserRecord) :
  well_formed_state (initial loaded).
Proof.
  split_and!; simpl.
  - constructor.
  - by intros c H%elem_of_nil.
  - by intros id m H%elem_of_nil.
Qed.

Lemma well_formed_drop_suspended (s : State) (n : nat) :
  well_formed_state s →
  well_formed_state (with_suspended (delete n (suspended s)) s).
Proof.
  intros (Hnd & Hlt & Hexit). split_and!; try done.
  intros id m H. cbn in H. apply Hexit. by eapply list_elem_of_delete_inv.
Qed.

Lemma well_formed_same_collectors (s s' : State) :
  collectors s' = collectors s →
  next_collector s' = next_collector s →
  (∀ id m, ExitAwaitAck id m ∈ suspended s' → ExitAwaitAck id m ∈ suspended s) →
  well_formed_state s → well_formed_state s'.
Proof.
  intros Hc Hn Hs (Hnd & Hlt & Hexit). unfold well_formed_state.
  rewrite Hc, Hn. split_and!; try done. intros id m H. by apply Hexit, Hs.
Qed.

Lemma well_formed_end_collector (id : nat) (s : State) :
  well_formed_state s → well_formed_state (end_collector id s).1.
Proof.
  intros (Hnd & Hlt & Hexit).
  destruct (end_collector_frame id s) as (Hs & Hn & Hnd' & Hsub); [done |].
  unfold well_formed_state. rewrite Hs, Hn. split_and!; [done | |].
  - intros c Hc. by apply Hlt, Hsub.
  - intros id' m H. destruct (Hexit _ _ H) as (? & ? & Hf).
    split_and!; try done. intros c Hc. by apply Hf, Hsub.
Qed.

Lemma well_formed_chat_collect (i : Interaction) (p key : string) (s : State) :
  well_formed_state s → well_formed_state (chat_collect i p key s).1.
Proof.
  intros (Hnd & Hlt & Hexit). unfold chat_collect, well_formed_state. cbn.
  split_and!.
  - rewrite fmap_app. apply NoDup_app. split_and!; [done | | apply NoDup_singleton].
    intros id Hid Hnew. apply list_elem_of_fmap in Hid as (c & -> & Hc).
    apply list_elem_of_singleton in Hnew. apply Hlt in Hc. simpl in Hnew. lia.
  - intros c [Hc | ->%list_elem_of_singleton]%elem_of_app; [| simpl; lia].
    apply Hlt in Hc. lia.
  - intros id m H. destruct (Hexit _ _ H) as (Hid & ? & Hf).
    split_and!; [lia | done |].
    intros c [Hc | ->%list_elem_of_singleton]%elem_of_app; [by apply Hf |].
    simpl. lia.
Qed.

Lemma step_well_formed
    (aes_enc aes_dec : Buffer → Buffer → Buffer) (ENCRYPTION_KEY : string)
    (s : State) (e : Event) :
  well_formed_state s →
  well_formed_state (step aes_enc aes_dec ENCRYPTION_KEY s e).1.
Proof.
  intros Hwf. destruct e as [i random | m | n o | id]; cbn [step].
  - destruct (interactionCreate_frame aes_enc aes_dec ENCRYPTION_KEY i random s)
      as (Hc & Hn & Hs).
    by eapply well_formed_same_collectors.
  - pose proof (dispatch_spec m (collectors s)) as Hd.
    destruct (dispatch m (collectors s)) as [[cs' ps] es].
    destruct Hd as [Hall Hps].
    apply Forall2_same_ids in Hall as [Hids Hsame].
    destruct Hwf as (Hnd & Hlt & Hexit).
    unfold well_formed_state. cbn. split_and!.
    + by rewrite Hids.
    + intros c' Hc'. destruct (Hsame _ Hc') as (c & Hc & -> & _). by apply Hlt.
    + intros id m' [H | H]%elem_of_app.
      * destruct (Hexit _ _ H) as (? & ? & Hf). split_and!; try done.
        intros c' Hc' Hid. destruct (Hsame _ Hc') as (c & Hc & Hidc & Hfc).
        rewrite Hfc. apply Hf; [done | congruence].
      * destruct (Hps _ _ H) as (-> & ? & c & Hc & <- & Hf).
        split_and!; [by apply Hlt | done |].
        intros c' Hc' Hid. destruct (Hsame _ Hc') as (c0 & Hc0 & Hidc & Hfc).
        rewrite Hfc.
        assert (c0 = c) as ->; [| done].
        pose proof (find_collector_unique _ _ Hnd Hc0) as Hfind0.
        pose proof (find_collector_unique _ _ Hnd Hc) as Hfind.
        rewrite <- Hidc, Hid in Hfind0. congruence.
  - destruct (suspended s !! n) as [p|] eqn:Hp; [| done].
    pose proof (well_formed_drop_suspended s n Hwf) as Hwf0.
    set (s0 := with_suspended (delete n (suspended s)) s) in *.
    destruct p as [k | i p key | id m | m], o; try done; cbn [resume fst].
    + destruct k as [i0 cnt | i0 | i0 | i0 | i0 prompt key0]; try done.
      cbn [after_save].
      destruct (chat_enter_frame i0 prompt key0 s0) as (_ & ? & ? & ?).
      by eapply well_formed_same_collectors.
    + destruct k as [i0 cnt | i0 | i0 | i0 | i0 prompt key0]; try done.
      cbn [after_save].
      destruct (chat_enter_frame i0 prompt key0 s0) as (_ & ? & ? & ?).
      by eapply well_formed_same_collectors.
    + by apply well_formed_chat_collect.
    + by apply well_formed_end_collector.
  - by apply well_formed_end_collector.
Qed.

Lemma reachable_well_formed
    (aes_enc aes_dec : Buffer → Buffer → Buffer) (ENCRYPTION_KEY : string)
    (s : State) :
  reachable aes_enc aes_dec ENCRYPTION_KEY s → well_formed_state s.
Proof.
  induction 1 as [loaded | s e _ IH].
  - apply initial_well_formed.
  - by apply step_well_formed.
Qed.

(** ** How a collector comes to an end *)

Lemma find_collector_elem_of (cs : list Collector) (c : Collector) :
  c ∈ cs → find_collector (collector_id c) cs ≠ None.
Proof.
  intros Hc Hnone. rewrite find_collector_None in Hnone. by eapply Hnone.
Qed.

Lemma find_collector_same_ids (id : nat) (cs cs' : list Collector) :
  collector_id <$> cs' = collector_id <$> cs →
  find_collector id cs' = None → find_collector id cs = None.
Proof.
  rewrite !find_collector_None. intros Hids Hnone c Hc Hid.
  assert (Hin : id ∈ collector_id <$> cs').
  { rewrite Hids, <- Hid. by apply list_elem_of_fmap_2. }
  apply list_elem_of_fmap in Hin as (c' & Hid' & Hc').
  by eapply Hnone.
Qed.

Lemma end_collector_gone (id : nat) (s : State) (c : Collector) :
  NoDup (collector_id <$> collectors s) → c ∈ collectors s →
  find_collector (collector_id c) (collectors (end_collector id s).1) = None →
  id = collector_id c
  ∧ end_collector id s
    = ({| userData := userData s;
          ACTIVE_SESSIONS := ACTIVE_SESSIONS s ∖ {[c_userId c]};
          collectors := remove_collector id (collectors s);
          suspended := suspended s;
          next_collector := next_collector s |},
       [Log (Text.ended_log (c_userId c) (length (collected c)));
        ChannelSend (c_channelId c) (Text.expired (c_userId c))]).
Proof.
  intros Hnd Hc Hgone.
  destruct (find_collector id (collectors s)) as [c0|] eqn:Hfind.
  - rewrite (end_collector_live _ _ _ Hfind) in Hgone |- *. cbn in Hgone.
    destruct (decide (id = collector_id c)) as [-> | Hne].
    + rewrite (find_collector_unique _ _ Hnd Hc) in Hfind.
      by injection Hfind as <-.
    + destruct (find_collector_elem_of (remove_collector id (collectors s)) c);
        [| done].
      apply elem_of_remove_collector. auto.
  - rewrite end_collector_ended in Hgone by done.
    by destruct (find_collector_elem_of _ _ Hc).
Qed.

(** A collector of a well-formed state is gone after an event only when
    the event is its timer or the resumption of the handler of an exit
    keyword, which calls [collector.stop()]; in both cases the listener
    for [end] has run. *)
Lemma collector_end
    (aes_enc aes_dec : Buffer → Buffer → Buffer) (ENCRYPTION_KEY : string)
    (s : State) (e : Event) (c : Collector) :
  well_formed_state s → c ∈ collectors s →
  find_collector (collector_id c)
    (collectors (step aes_enc aes_dec ENCRYPTION_KEY s e).1) = None →
  (e = CollectorTimeout (collector_id c)
   ∨ ∃ n m, e = Resume n Settled
            ∧ suspended s !! n = Some (ExitAwaitAck (collector_id c) m))
  ∧ ACTIVE_SESSIONS (step aes_enc aes_dec ENCRYPTION_KEY s e).1
    = ACTIVE_SESSIONS s ∖ {[c_userId c]}
  ∧ (step aes_enc aes_dec ENCRYPTION_KEY s e).2
    = [Log (Text.ended_log (c_userId c) (length (collected c)));
       ChannelSend (c_channelId c) (Text.expired (c_userId c))].
Proof.
  intros (Hnd & Hlt & Hexit) Hc.
  pose proof (find_collector_elem_of _ _ Hc) as Hlive.
  destruct e as [i random | m | n o | id]; cbn [step].
  - destruct (interactionCreate_frame aes_enc aes_dec ENCRYPTION_KEY i random s)
      as (-> & _ & _). done.
  - pose proof (dispatch_spec m (collectors s)) as Hd.
    destruct (dispatch m (collectors s)) as [[cs' ps] es].
    destruct Hd as [[Hids _]%Forall2_same_ids _].
    cbn [collectors with_collectors with_suspended fst].
    intros Hgone. by apply (find_collector_same_ids _ _ _ Hids) in Hgone.
  - destruct (suspended s !! n) as [p|] eqn:Hp; [| done].
    set (s0 := with_suspended (delete n (suspended s)) s) in *.
    destruct p as [k | i p key | id m | m], o; try done; cbn [resume fst snd].
    + destruct k as [i0 cnt | i0 | i0 | i0 | i0 prompt key0]; try done.
      cbn [after_save].
      by destruct (chat_enter_frame i0 prompt key0 s0) as (_ & -> & _ & _).
    + destruct k as [i0 cnt | i0 | i0 | i0 | i0 prompt key0]; try done.
      cbn [after_save].
      by destruct (chat_enter_frame i0 prompt key0 s0) as (_ & -> & _ & _).
    + unfold chat_collect. cbn [collectors fst]. intros Hgone. destruct Hlive.
      rewrite find_collector_None in Hgone |- *.
      intros c' Hc'. apply Hgone, elem_of_app. by left.
    + intros Hgone.
      apply (end_collector_gone id s0 c Hnd Hc) in Hgone as [-> ->].
      split_and!; try done. right. by exists n, m.
  - intros Hgone.
    apply (end_collector_gone id s c Hnd Hc) in Hgone as [-> ->].
    split_and!; try done. by left.
Qed.

Lemma reachable_run
    (aes_enc aes_dec : Buffer → Buffer → Buffer) (ENCRYPTION_KEY : string)
    (s : State) (es : list Event) :
  reachable aes_enc aes_dec ENCRYPTION_KEY s →
  reachable aes_enc aes_dec ENCRYPTION_KEY
    (run aes_enc aes_dec ENCRYPTION_KEY s es).1.
Proof.
  revert s. induction es as [|e es IH]; intros s Hs; [done |].
  cbn [run].
  pose proof (reachable_step _ _ _ s e Hs) as Hstep.
  destruct (step aes_enc aes_dec ENCRYPTION_KEY s e) as [s1 out1].
  specialize (IH s1 Hstep).
  by destruct (run aes_enc aes_dec ENCRYPTION_KEY s1 es).
Qed.

(** C7. While a session is open, a transport error of the backend or a
    response that cannot be parsed does not end it: the user is sent the
    fallback notice, and the collectors, the registry and the store are
    as before.  A collector of a reachable state comes to an end only
    through its own timer or through the handler of a message that it
    accepted and whose trimmed, lower-cased content is "exit" or
    "stop". *)
Theorem backend_failures_do_not_end_the_session
    (aes_enc aes_dec : Buffer → Buffer → Buffer) (ENCRYPTION_KEY : string)
    (s : State) (n : nat) (m : Message) (o : Outcome)
    (s1 : State) (e : Event) (c : Collector) :
  suspended s !! n = Some (RequestInFlight m) →
  o = RequestError ∨ o = ResponseEnd None ∨ o = ResponseEnd (Some JNull) →
  reachable aes_enc aes_dec ENCRYPTION_KEY s1 →
  c ∈ collectors s1 →
  find_collector (collector_id c)
    (collectors (step aes_enc aes_dec ENCRYPTION_KEY s1 e).1) = None →
  (let '(s', out) := step aes_enc aes_dec ENCRYPTION_KEY s (Resume n o) in
   collectors s' = collectors s
   ∧ ACTIVE_SESSIONS s' = ACTIVE_SESSIONS s
   ∧ userData s' = userData s
   ∧ out = [MessageReply m
              (JStr match o with
                    | RequestError => Text.transport_error
                    | _ => Text.invalid_response
                    end)])
  ∧ (e = CollectorTimeout (collector_id c)
     ∨ ∃ n' m',
         e = Resume n' Settled
         ∧ suspended s1 !! n' = Some (ExitAwaitAck (collector_id c) m')
         ∧ collector_filter c m' = true
         ∧ Js.includes ["exit"; "stop"] (Js.toLowerCase (Js.trim (content m')))
           = true).
Proof.
  intros Hn Ho Hreach Hc Hgone. split.
  - destruct Ho as [-> | [-> | ->]];
      (erewrite step_resume; [| done | reflexivity]); by cbn.
  - pose proof (reachable_well_formed _ _ _ _ Hreach) as Hwf.
    destruct (collector_end _ _ _ _ _ _ Hwf Hc Hgone)
      as ([-> | (n' & m' & -> & Hn')] & _ & _); [by left | right].
    exists n', m'. split_and!; try done.
    + destruct Hwf as (_ & _ & Hexit).
      destruct (Hexit (collector_id c) m') as (_ & _ & Hf);
        [by eapply list_elem_of_lookup_2 | by apply Hf].
    + destruct Hwf as (_ & _ & Hexit).
      destruct (Hexit (collector_id c) m') as (_ & He & _);
        [by eapply list_elem_of_lookup_2 | done].
Qed.

(** Any other response leaves the session open as well: the reply is the
    content of the completion, or a notice that there is none. *)
Lemma backend_response_keeps_the_session
    (aes_enc aes_dec : Buffer → Buffer → Buffer) (ENCRYPTION_KEY : string)
    (s : State) (n : nat) (m : Message) (parsed : option Json) :
  suspended s !! n = Some (RequestInFlight m) →
  let '(s', out) :=
    step aes_enc aes_dec ENCRYPTION_KEY s (Resume n (ResponseEnd parsed)) in
  collectors s' = collectors s
  ∧ ACTIVE_SESSIONS s' = ACTIVE_SESSIONS s
  ∧ ∃ body, out = [MessageReply m body].
Proof.
  intros Hn. erewrite step_resume; [| done | reflexivity].
  split_and!; try done. unfold on_response_end.
  destruct parsed as [[]|]; cbn; eauto.
Qed.

Lemma active_state_reachable : reachable toy_enc toy_dec sample_key active_state.
Proof. apply reachable_run, reachable_initial. Qed.

Lemma backend_failures_do_not_end_the_session_witness :
  let m := message 1 "U1" "c" "hello" in
  let m' := message 1 "U1" "c" "stop" in
  let c := {| collector_id := 0; c_userId := "U1"; c_channelId := "c";
              c_prompt := "be brief"; c_openaiKey := "sk-abc";
              collected := [m'] |} in
  let e := Resume 0 Settled in
  (let '(s', out) :=
     step toy_enc toy_dec sample_key request_pending_state (Resume 0 RequestError) in
   collectors s' = collectors request_pending_state
   ∧ ACTIVE_SESSIONS s' = ACTIVE_SESSIONS request_pending_state
   ∧ userData s' = userData request_pending_state
   ∧ out = [MessageReply m (JStr Text.transport_error)])
  ∧ (e = CollectorTimeout (collector_id c)
     ∨ ∃ n' m0,
         e = Resume n' Settled
         ∧ suspended exit_pending_state !! n'
           = Some (ExitAwaitAck (collector_id c) m0)
         ∧ collector_filter c m0 = true
         ∧ Js.includes ["exit"; "stop"] (Js.toLowerCase (Js.trim (content m0)))
           = true).
Proof.
  intros m m' c e.
  apply (backend_failures_do_not_end_the_session toy_enc toy_dec sample_key
           request_pending_state 0 m RequestError exit_pending_state e c).
  - reflexivity.
  - by left.
  - apply reachable_step, active_state_reachable.
  - vm_compute. constructor.
  - reflexivity.
Defined.

(** A chat command without an inline instruction, from a user without a
    session who has a credential that decrypts and a stored instruction:
    the user enters the registry at once. *)
Lemma chat_stored_step
    (aes_enc aes_dec : Buffer → Buffer → Buffer) (ENCRYPTION_KEY : string)
    (s : State) (i : Interaction) (random : Buffer) (p token key : string) :
  isChatInputCommand i = true → commandName i = "chat" →
  Js.truthy (prompt_id i) = false →
  user_id i ∉ ACTIVE_SESSIONS s →
  userData s !! user_id i ≫= openaiKey = Some token →
  Js.truthy (Some token) = true →
  decrypt aes_dec ENCRYPTION_KEY token = Ok key →
  userData s !! user_id i ≫= promptId = Some p →
  Js.truthy (Some p) = true →
  step aes_enc aes_dec ENCRYPTION_KEY s (InteractionCreate i random)
  = ({| userData := lazy_init (user_id i) (userData s);
        ACTIVE_SESSIONS := {[user_id i]} ∪ ACTIVE_SESSIONS s;
        collectors := collectors s;
        suspended := suspended s ++ [ChatAwaitReply i p key];
        next_collector := next_collector s |},
     [Reply i (Text.announce p) true]).
Proof.
  intros Hchat Hname Hinline Hidle Htoken Htruthy Hdecrypt Hstored Hp.
  rewrite step_chat by done.
  unfold handleChatCommand. cbn [ACTIVE_SESSIONS userData with_userData].
  rewrite bool_decide_eq_false_2 by done.
  rewrite !lazy_init_field by done.
  rewrite Htoken, Htruthy. cbn [negb from_option id].
  rewrite Hdecrypt, Hinline, Hstored.
  unfold chat_enter. by rewrite Hp.
Qed.

(** A message that the only live collector accepts. *)
Lemma step_message_accepted
    (aes_enc aes_dec : Buffer → Buffer → Buffer) (ENCRYPTION_KEY : string)
    (s : State) (c : Collector) (m : Message) :
  collectors s = [c] → collector_filter c m = true →
  step aes_enc aes_dec ENCRYPTION_KEY s (MessageCreate m)
  = ({| userData := userData s;
        ACTIVE_SESSIONS := ACTIVE_SESSIONS s;
        collectors := [add_collected m c];
        suspended := suspended s ++ [(on_collect c m).1];
        next_collector := next_collector s |},
     (on_collect c m).2).
Proof.
  intros Hcs Hf. cbn [step]. rewrite Hcs. cbn [dispatch]. rewrite Hf.
  destruct (on_collect c m) as [p es]. cbn. by rewrite app_nil_r.
Qed.

Lemma hello_is_no_exit_keyword : is_exit_keyword "hello" = false.
Proof. by vm_compute. Qed.

Lemma exit_is_exit_keyword : is_exit_keyword "exit" = true.
Proof. by vm_compute. Qed.

(** C6. Whatever ends a collector of a reachable state, the entry of its
    user is removed from the registry and the number of messages that the
    collector accepted is logged.  In particular, when a user with a
    stored instruction and credential opens a session, sends "hello",
    receives the completion and sends "exit", the log reports 2 messages
    and the user has no entry in the registry. *)
Theorem collector_end_releases_and_logs
    (aes_enc aes_dec : Buffer → Buffer → Buffer) (ENCRYPTION_KEY : string)
    (s : State) (e : Event) (c : Collector)
    (loaded : gmap string UserRecord) (u ch p token key : string) :
  reachable aes_enc aes_dec ENCRYPTION_KEY s →
  c ∈ collectors s →
  find_collector (collector_id c)
    (collectors (step aes_enc aes_dec ENCRYPTION_KEY s e).1) = None →
  loaded !! u = Some {| promptId := Some p; openaiKey := Some token |} →
  p ≠ EmptyString → token ≠ EmptyString →
  decrypt aes_dec ENCRYPTION_KEY token = Ok key →
  ((c_userId c ∉ ACTIVE_SESSIONS (step aes_enc aes_dec ENCRYPTION_KEY s e).1)
   ∧ Log (Text.ended_log (c_userId c) (length (collected c)))
       ∈ (step aes_enc aes_dec ENCRYPTION_KEY s e).2)
  ∧ (let '(s', out) :=
       run aes_enc aes_dec ENCRYPTION_KEY (initial loaded)
         (hello_exit_scenario u ch) in
     (u ∉ ACTIVE_SESSIONS s')
     ∧ collectors s' = []
     ∧ MessageReply (message 1 u ch "hello") (JStr "hi there") ∈ out
     ∧ Log ("Chat session with " +:+ u +:+ " ended. Messages collected: 2")
         ∈ out).
Proof.
  intros Hreach Hc Hgone Hloaded Hp Htoken Hdecrypt. split.
  - pose proof (reachable_well_formed _ _ _ _ Hreach) as Hwf.
    destruct (collector_end _ _ _ _ _ _ Hwf Hc Hgone) as (_ & -> & ->).
    split; [| by left].
    intros [_ Hn]%elem_of_difference. by apply Hn, elem_of_singleton.
  - assert (Htp : Js.truthy (Some p) = true) by (by destruct p).
    assert (Htt : Js.truthy (Some token) = true) by (by destruct token).
    unfold hello_exit_scenario. cbn [run].
    rewrite (chat_stored_step _ _ _ _ _ _ p token key);
      [| done | done | done | apply not_elem_of_empty
       | cbn; by rewrite Hloaded | done | done
       | cbn; by rewrite Hloaded | done ].
    cbn [userData ACTIVE_SESSIONS collectors suspended next_collector initial
         user_id channelId chat command app].
    rewrite (step_resume_chat_reply _ _ _ _ 0 (chat u ch None) p key)
      by done.
    cbn [userData ACTIVE_SESSIONS collectors suspended next_collector
         user_id channelId chat command app delete list_delete].
    erewrite step_message_accepted;
      [| reflexivity
       | unfold collector_filter; cbn; by rewrite !String.eqb_refl ].
    cbn [userData ACTIVE_SESSIONS collectors suspended next_collector app].
    unfold on_collect at 1 2.
    change (Js.includes ["exit"; "stop"]
              (Js.toLowerCase (Js.trim (content (message 1 u ch "hello")))))
      with (is_exit_keyword "hello").
    rewrite hello_is_no_exit_keyword. cbn [fst snd].
    erewrite step_resume; [| reflexivity | reflexivity].
    cbn [with_suspended userData ACTIVE_SESSIONS collectors suspended
         next_collector delete list_delete].
    erewrite step_message_accepted;
      [| reflexivity
       | unfold collector_filter; cbn; by rewrite !String.eqb_refl ].
    cbn [userData ACTIVE_SESSIONS collectors suspended next_collector app].
    unfold on_collect at 1 2.
    change (Js.includes ["exit"; "stop"]
              (Js.toLowerCase (Js.trim (content (message 2 u ch "exit")))))
      with (is_exit_keyword "exit").
    rewrite exit_is_exit_keyword. cbn [fst snd].
    erewrite step_resume; [| reflexivity | reflexivity].
    cbn [with_suspended userData ACTIVE_SESSIONS collectors suspended
         next_collector delete list_delete add_collected collector_id].
    rewrite (end_collector_live 0 _
               {| collector_id := 0; c_userId := u; c_channelId := ch;
                  c_prompt := p; c_openaiKey := key;
                  collected := [message 1 u ch "hello"; message 2 u ch "exit"] |});
      [| cbn; reflexivity ].
    cbn [userData ACTIVE_SESSIONS collectors suspended next_collector
         c_userId c_channelId collected length].
    split_and!.
    + intros [_ Hn]%elem_of_difference. by apply Hn, elem_of_singleton.
    + unfold remove_collector. cbn. done.
    + cbn. repeat constructor.
    + cbn. repeat constructor.
Qed.

Lemma collector_end_releases_and_logs_witness :
  let m := message 1 "U1" "c" "stop" in
  let c := {| collector_id := 0; c_userId := "U1"; c_channelId := "c";
              c_prompt := "be brief"; c_openaiKey := "sk-abc";
              collected := [m] |} in
  let s := exit_pending_state in
  let e := Resume 0 Settled in
  (("U1" ∉ ACTIVE_SESSIONS (step toy_enc toy_dec sample_key s e).1)
   ∧ Log (Text.ended_log "U1" 1) ∈ (step toy_enc toy_dec sample_key s e).2)
  ∧ (let '(s', out) :=
       run toy_enc toy_dec sample_key (initial sample_store)
         (hello_exit_scenario "U1" "c") in
     ("U1" ∉ ACTIVE_SESSIONS s')
     ∧ collectors s' = []
     ∧ MessageReply (message 1 "U1" "c" "hello") (JStr "hi there") ∈ out
     ∧ Log "Chat session with U1 ended. Messages collected: 2" ∈ out).
Proof.
  intros m c s e.
  apply (collector_end_releases_and_logs toy_enc toy_dec sample_key s e c
           sample_store "U1" "c" "be brief" sample_token "sk-abc").
  - apply reachable_step, active_state_reachable.
  - vm_compute. constructor.
  - reflexivity.
  - reflexivity.
  - discriminate.
  - discriminate.
  - apply sample_token_decrypts.
Defined.

(** ** How a user enters the registry *)

Lemma chat_enter_sessions (i : Interaction) (prompt : option string)
    (key : string) (s : State) :
  ACTIVE_SESSIONS (chat_enter i prompt key s).1 = ACTIVE_SESSIONS s
  ∨ ACTIVE_SESSIONS (chat_enter i prompt key s).1
    = {[user_id i]} ∪ ACTIVE_SESSIONS s.
Proof.
  unfold chat_enter. destruct (negb (Js.truthy prompt)); cbn; auto.
Qed.

Lemma handleChatCommand_sessions
    (aes_dec : Buffer → Buffer → Buffer) (ENCRYPTION_KEY : string)
    (i : Interaction) (s : State) :
  ACTIVE_SESSIONS (handleChatCommand aes_dec ENCRYPTION_KEY i s).1
  = ACTIVE_SESSIONS s
  ∨ ((user_id i ∉ ACTIVE_SESSIONS s)
     ∧ ACTIVE_SESSIONS (handleChatCommand aes_dec ENCRYPTION_KEY i s).1
       = {[user_id i]} ∪ ACTIVE_SESSIONS s).
Proof.
  unfold handleChatCommand.
  destruct (bool_decide (user_id i ∈ ACTIVE_SESSIONS s)) eqn:Hactive;
    [by left |].
  apply bool_decide_eq_false in Hactive.
  destruct (negb (Js.truthy (userData s !! user_id i ≫= openaiKey)));
    [by left |].
  destruct (decrypt aes_dec ENCRYPTION_KEY _) as [key | msg]; [| by left].
  destruct (Js.truthy (prompt_id i)); [by left |].
  destruct (chat_enter_sessions i (userData s !! user_id i ≫= promptId) key s)
    as [-> | ->]; auto.
Qed.

Lemma interactionCreate_sessions
    (aes_enc aes_dec : Buffer → Buffer → Buffer) (ENCRYPTION_KEY : string)
    (i : Interaction) (random : Buffer) (s : State) :
  let s' := (interactionCreate aes_enc aes_dec ENCRYPTION_KEY i random s).1 in
  ACTIVE_SESSIONS s' = ACTIVE_SESSIONS s
  ∨ (commandName i = "chat" ∧ (user_id i ∉ ACTIVE_SESSIONS s)
     ∧ ACTIVE_SESSIONS s' = {[user_id i]} ∪ ACTIVE_SESSIONS s).
Proof.
  unfold interactionCreate, on_error.
  destruct (isChatInputCommand i); cbn [negb]; [| by left].
  destruct (String.eqb_spec (commandName i) "setprompt") as [_ | _].
  { destruct (prompt_id i) as [prompt|]; [| by left].
    by destruct (CHAR_LIMIT <? Js.js_length prompt); left. }
  destruct (String.eqb_spec (commandName i) "promptlimit") as [_ | _];
    [by left |].
  destruct (String.eqb_spec (commandName i) "setkey") as [_ | _].
  { destruct (openai_key i) as [key|]; [| by left].
    by destruct (encrypt aes_enc ENCRYPTION_KEY random key); left. }
  destruct (String.eqb_spec (commandName i) "deleteprompt") as [_ | _].
  { by destruct (Js.truthy _); left. }
  destruct (String.eqb_spec (commandName i) "deletekey") as [_ | _].
  { by destruct (Js.truthy _); left. }
  destruct (String.eqb_spec (commandName i) "info") as [_ | _]; [by left |].
  destruct (String.eqb_spec (commandName i) "help") as [_ | _]; [by left |].
  destruct (String.eqb_spec (commandName i) "chat") as [Hchat | _];
    [| by left].
  destruct (handleChatCommand_sessions aes_dec ENCRYPTION_KEY i
              (with_userData (lazy_init (user_id i) (userData s)) s))
    as [H | [Hidle H]]; [by left | right]. done.
Qed.

(** The registry is entered only by the handler of a chat command of the
    user, and only after that handler found the user absent from it:
    either at once, or when the handler resumes after writing the
    store. *)
Lemma registry_entered_only_by_chat
    (aes_enc aes_dec : Buffer → Buffer → Buffer) (ENCRYPTION_KEY : string)
    (s : State) (e : Event) (u : string) :
  u ∉ ACTIVE_SESSIONS s →
  u ∈ ACTIVE_SESSIONS (step aes_enc aes_dec ENCRYPTION_KEY s e).1 →
  (∃ i random, e = InteractionCreate i random
               ∧ commandName i = "chat" ∧ user_id i = u)
  ∨ (∃ n o i p key, e = Resume n o
                    ∧ suspended s !! n = Some (AwaitSave (KChat i p key))
                    ∧ user_id i = u).
Proof.
  intros Hidle. destruct e as [i random | m | n o | id]; cbn [step].
  - destruct (interactionCreate_sessions aes_enc aes_dec ENCRYPTION_KEY
                i random s) as [-> | (Hchat & _ & ->)]; [done |].
    intros [->%elem_of_singleton | H]%elem_of_union; [| done].
    left. by exists i, random.
  - by destruct (dispatch m (collectors s)) as [[cs ps] es].
  - destruct (suspended s !! n) as [p|] eqn:Hp; [| done].
    destruct p as [k | i p key | id m | m], o; try done; cbn [resume fst].
    + destruct k as [i0 cnt | i0 | i0 | i0 | i0 prompt key0]; try done.
      cbn [after_save].
      destruct (chat_enter_sessions i0 prompt key0
                  (with_suspended (delete n (suspended s)) s)) as [-> | ->];
        [done |].
      intros [->%elem_of_singleton | H]%elem_of_union; [| done].
      right. by exists n, WriteOk, i0, prompt, key0.
    + destruct k as [i0 cnt | i0 | i0 | i0 | i0 prompt key0]; try done.
      cbn [after_save].
      destruct (chat_enter_sessions i0 prompt key0
                  (with_suspended (delete n (suspended s)) s)) as [-> | ->];
        [done |].
      intros [->%elem_of_singleton | H]%elem_of_union; [| done].
      right. by exists n, (WriteFailed err), i0, prompt, key0.
    + unfold end_collector. cbn [collectors with_suspended].
      destruct (find_collector id (collectors s)); [| done].
      cbn. by intros [? _]%elem_of_difference.
  - unfold end_collector.
    destruct (find_collector id (collectors s)); [| done].
    cbn. by intros [? _]%elem_of_difference.
Qed.

(** * Further properties of the code *)

(** ** The codec: when [encrypt] succeeds and what a token looks like *)

Lemma js_length_app (a b : string) :
  Js.js_length (a +:+ b) = Js.js_length a + Js.js_length b.
Proof. induction a as [|c a IH]; simpl; [done | rewrite IH; lia]. Qed.

Lemma encrypt_ok_sizes aes_enc KEY iv text token :
  encrypt aes_enc KEY iv text = Ok token →
  length (Buffer_from KEY) = Cbc.KEY_SIZE ∧ length iv = IV_LENGTH.
Proof.
  unfold encrypt, Cbc.createCipheriv, Cbc.check_key_iv.
  destruct (Nat.eqb_spec (length iv) Cbc.BLOCK_SIZE) as [Hiv|]; [| done].
  destruct (Nat.eqb_spec (length (Buffer_from KEY)) Cbc.KEY_SIZE) as [Hkey|];
    [| done].
  done.
Qed.

Lemma cbc_encrypt_length aes_enc KEY iv (data : Buffer) :
  (∀ b, Cbc.block_sized b → Cbc.block_sized (aes_enc (Buffer_from KEY) b)) →
  length iv = IV_LENGTH →
  length (Token.cbc_encrypt aes_enc KEY iv data)
  = Cbc.BLOCK_SIZE * (length data / Cbc.BLOCK_SIZE + 1).
Proof.
  intros Hsized Hiv. unfold Token.cbc_encrypt.
  destruct (Cbc.blocks data) as [bs r] eqn:Hblocks.
  apply blocks_spec in Hblocks as (-> & Hbs & Hr).
  assert (Hpadded : Forall Cbc.block_sized (bs ++ [Cbc.pkcs7_pad r])).
  { apply Forall_app. split; [done |].
    constructor; [by apply pkcs7_pad_length | done]. }
  destruct (encrypt_blocks_sized aes_enc (Buffer_from KEY) Hsized iv _
              Hpadded Hiv) as [Hcs _].
  rewrite concat_blocks_length, encrypt_blocks_length by done.
  rewrite !length_app, concat_blocks_length by done. cbn [length].
  f_equal. f_equal.
  apply (Nat.div_unique _ _ _ (length r)); [done | lia].
Qed.

(** X1. [encrypt] returns a token exactly when the process key is 32
    bytes long in UTF-8 and the nonce has 16 bytes, whatever the text is;
    in every other case it throws. *)
Theorem encrypt_succeeds_exactly_with_sized_key_and_nonce
    (aes_enc : Buffer → Buffer → Buffer) (ENCRYPTION_KEY : string)
    (iv : Buffer) (text : string) :
  is_ok (encrypt aes_enc ENCRYPTION_KEY iv text) = true
  ↔ length (Buffer_from ENCRYPTION_KEY) = Cbc.KEY_SIZE ∧ length iv = IV_LENGTH.
Proof.
  split.
  - destruct (encrypt aes_enc ENCRYPTION_KEY iv text) as [token|] eqn:He;
      [| done].
    intros _. by eapply encrypt_ok_sizes.
  - intros [Hkey Hiv]. by rewrite encrypt_spec.
Qed.

(** X2. A token that [encrypt] returns has exactly two colon-delimited
    parts, the 32 hexadecimal digits of the nonce and the hexadecimal
    digits of the ciphertext; its length is 33 plus 32 for every started
    block of 16 bytes of the text, so that it shows the length of the
    text up to the block. *)
Theorem encrypt_token_shape
    (aes_enc : Buffer → Buffer → Buffer) (ENCRYPTION_KEY : string)
    (iv : Buffer) (text token : string) :
  (∀ b, Cbc.block_sized b →
        Cbc.block_sized (aes_enc (Buffer_from ENCRYPTION_KEY) b)) →
  encrypt aes_enc ENCRYPTION_KEY iv text = Ok token →
  Js.split ":" token
  = [Hex.encode iv;
     Hex.encode (Token.cbc_encrypt aes_enc ENCRYPTION_KEY iv (Buffer_from text))]
  ∧ Js.js_length (Hex.encode iv) = 32
  ∧ Hex.well_formed (Token.nonce_segment token) = true
  ∧ Hex.well_formed (Token.ciphertext_segment token) = true
  ∧ Js.js_length token = 33 + 32 * (length (Buffer_from text) / 16 + 1).
Proof.
  intros Hsized He.
  destruct (encrypt_ok_sizes _ _ _ _ _ He) as [Hkey Hiv].
  rewrite encrypt_spec in He by done. injection He as <-.
  unfold Token.nonce_segment, Token.ciphertext_segment.
  rewrite split_token by apply hex_encode_colon_free.
  cbn [hd tl Js.join].
  split_and!; [done | | apply hex_encode_well_formed..|].
  - rewrite hex_encode_js_length, Hiv. done.
  - rewrite !js_length_app, !hex_encode_js_length, Hiv.
    rewrite cbc_encrypt_length by done.
    change (Js.js_length ":") with 1.
    unfold IV_LENGTH, Cbc.BLOCK_SIZE. lia.
Qed.

Lemma encrypt_token_shape_witness :
  (∀ b, Cbc.block_sized b →
        Cbc.block_sized (toy_enc (Buffer_from sample_key) b))
  ∧ encrypt toy_enc sample_key sample_iv "sk-abc" = Ok sample_token
  ∧ Js.split ":" sample_token
    = [Hex.encode sample_iv;
       Hex.encode (Token.cbc_encrypt toy_enc sample_key sample_iv
                     (Buffer_from "sk-abc"))]
  ∧ Js.js_length (Hex.encode sample_iv) = 32
  ∧ Hex.well_formed (Token.nonce_segment sample_token) = true
  ∧ Hex.well_formed (Token.ciphertext_segment sample_token) = true
  ∧ Js.js_length sample_token = 33 + 32 * (length (Buffer_from "sk-abc") / 16 + 1).
Proof.
  assert (Hsized : ∀ b, Cbc.block_sized b →
            Cbc.block_sized (toy_enc (Buffer_from sample_key) b)).
  { intros b Hb. apply toy_enc_sized; [vm_compute; lia | done]. }
  split; [exact Hsized |]. split; [reflexivity |].
  apply (encrypt_token_shape toy_enc sample_key sample_iv "sk-abc" sample_token
           Hsized).
  reflexivity.
Defined.

Lemma decrypt_of_encrypt
    (aes_enc aes_dec : Buffer → Buffer → Buffer) (ENCRYPTION_KEY : string)
    (iv : Buffer) (text token : string) :
  (∀ b, Cbc.block_sized b →
        aes_dec (Buffer_from ENCRYPTION_KEY)
          (aes_enc (Buffer_from ENCRYPTION_KEY) b) = b) →
  (∀ b, Cbc.block_sized b →
        Cbc.block_sized (aes_enc (Buffer_from ENCRYPTION_KEY) b)) →
  encrypt aes_enc ENCRYPTION_KEY iv text = Ok token →
  decrypt aes_dec ENCRYPTION_KEY token = Ok text.
Proof.
  intros Hdec Hsized He.
  destruct (encrypt_ok_sizes _ _ _ _ _ He) as [Hkey Hiv].
  rewrite encrypt_spec in He by done. injection He as <-.
  pose proof (decrypt_token aes_enc aes_dec ENCRYPTION_KEY Hdec Hsized Hkey
                iv (Buffer_from text) EmptyString Hiv eq_refl) as H.
  rewrite append_nil_r in H. rewrite H; [| by intros c []].
  unfold utf8_string, Buffer_from. by rewrite string_of_list_ascii_of_string.
Qed.

Lemma encrypt_token_truthy
    (aes_enc : Buffer → Buffer → Buffer) (ENCRYPTION_KEY : string)
    (iv : Buffer) (text token : string) :
  encrypt aes_enc ENCRYPTION_KEY iv text = Ok token →
  Js.truthy (Some token) = true.
Proof.
  intros He. destruct (encrypt_ok_sizes _ _ _ _ _ He) as [Hkey Hiv].
  rewrite encrypt_spec in He by done. injection He as <-.
  destruct iv as [|[] iv]; [done |]. done.
Qed.

(** X3. Under one process key, a token determines the nonce and the text
    it was made from: two calls of [encrypt] return the same token only
    for the same nonce and the same text. *)
Theorem encrypt_is_injective
    (aes_enc aes_dec : Buffer → Buffer → Buffer) (ENCRYPTION_KEY : string)
    (iv1 iv2 : Buffer) (text1 text2 token : string) :
  (∀ b, Cbc.block_sized b →
        aes_dec (Buffer_from ENCRYPTION_KEY)
          (aes_enc (Buffer_from ENCRYPTION_KEY) b) = b) →
  (∀ b, Cbc.block_sized b →
        Cbc.block_sized (aes_enc (Buffer_from ENCRYPTION_KEY) b)) →
  encrypt aes_enc ENCRYPTION_KEY iv1 text1 = Ok token →
  encrypt aes_enc ENCRYPTION_KEY iv2 text2 = Ok token →
  iv1 = iv2 ∧ text1 = text2.
Proof.
  intros Hdec Hsized H1 H2. split.
  - destruct (encrypt_ok_sizes _ _ _ _ _ H1) as [Hkey Hiv1].
    destruct (encrypt_ok_sizes _ _ _ _ _ H2) as [_ Hiv2].
    rewrite encrypt_spec in H1, H2 by done.
    injection H1 as H1. injection H2 as H2.
    assert (Hs : Js.split ":" token = Js.split ":" token) by done.
    rewrite <- H1 in Hs at 1. rewrite <- H2 in Hs at 1.
    rewrite !split_token in Hs by apply hex_encode_colon_free.
    injection Hs as Hs _.
    by rewrite <- (hex_decode_encode iv1), Hs, hex_decode_encode.
  - pose proof (decrypt_of_encrypt _ _ _ _ _ _ Hdec Hsized H1) as P1.
    pose proof (decrypt_of_encrypt _ _ _ _ _ _ Hdec Hsized H2) as P2.
    congruence.
Qed.

Lemma encrypt_is_injective_witness :
  encrypt toy_enc sample_key sample_iv "sk-abc" = Ok sample_token
  ∧ (sample_iv = sample_iv ∧ "sk-abc" = "sk-abc").
Proof.
  split; [reflexivity |].
  apply (encrypt_is_injective toy_enc toy_dec sample_key sample_iv sample_iv
           "sk-abc" "sk-abc" sample_token).
  - intros b Hb. apply toy_dec_enc; [vm_compute; lia | done].
  - intros b Hb. apply toy_enc_sized; [vm_compute; lia | done].
  - reflexivity.
  - reflexivity.
Defined.

(** ** The start-up check and the codec together *)

(** X4. The process goes on exactly when the variable is set and its
    value, without the white space around it, has 32 UTF-16 code units;
    the key in use is that trimmed value.  In every other case, an unset
    variable included, it exits with code 1 and the one message. *)
Theorem startup_exits_unless_key_has_32_characters (env_key : option string) :
  match startup env_key with
  | Started key =>
      ∃ raw, env_key = Some raw ∧ key = Js.trim raw ∧ Js.js_length key = 32
  | Exited code stderr =>
      code = 1
      ∧ stderr = "ENCRYPTION_KEY must be set in .env and be 32 characters long."
      ∧ (env_key = None
         ∨ ∃ raw, env_key = Some raw ∧ Js.js_length (Js.trim raw) ≠ 32)
  end.
Proof.
  unfold startup. destruct env_key as [raw|]; cbn [fmap option_fmap option_map].
  - destruct (Js.trim raw) as [|c k] eqn:Htrim.
    + cbn. split_and!; try done. right. exists raw. by rewrite Htrim.
    + cbn [Js.truthy negb orb].
      destruct (Nat.eqb_spec (Js.js_length (String c k)) 32) as [H32 | Hne];
        cbn [negb].
      * exists raw. by rewrite Htrim.
      * split_and!; try done. right. exists raw. by rewrite Htrim.
  - split_and!; try done. by left.
Qed.

(** X5. When the process has started with a key of ASCII characters,
    [encrypt] succeeds on every text and every 16-byte nonce, and
    [decrypt] gives the text back. *)
Theorem started_with_ascii_key_codec_never_fails
    (aes_enc aes_dec : Buffer → Buffer → Buffer)
    (env_key : option string) (key : string) (iv : Buffer) (text : string) :
  startup env_key = Started key →
  Js.is_ascii key = true →
  (∀ b, Cbc.block_sized b →
        aes_dec (Buffer_from key) (aes_enc (Buffer_from key) b) = b) →
  (∀ b, Cbc.block_sized b → Cbc.block_sized (aes_enc (Buffer_from key) b)) →
  length iv = IV_LENGTH →
  ∃ token, encrypt aes_enc key iv text = Ok token
           ∧ decrypt aes_dec key token = Ok text.
Proof.
  intros Hstart Hascii Hdec Hsized Hiv.
  apply startup_started in Hstart as [_ Hkey]. specialize (Hkey Hascii).
  eexists. split; [by apply encrypt_spec |].
  pose proof (decrypt_token aes_enc aes_dec key Hdec Hsized Hkey
                iv (Buffer_from text) EmptyString Hiv eq_refl) as H.
  rewrite append_nil_r in H. rewrite H; [| by intros c []].
  unfold utf8_string, Buffer_from. by rewrite string_of_list_ascii_of_string.
Qed.

Lemma started_with_ascii_key_codec_never_fails_witness :
  startup (Some ("  " +:+ sample_key +:+ nl)) = Started sample_key
  ∧ ∃ token, encrypt toy_enc sample_key sample_iv "sk-abc" = Ok token
             ∧ decrypt toy_dec sample_key token = Ok "sk-abc".
Proof.
  split; [reflexivity |].
  apply (started_with_ascii_key_codec_never_fails toy_enc toy_dec
           (Some ("  " +:+ sample_key +:+ nl)) sample_key sample_iv "sk-abc").
  - reflexivity.
  - reflexivity.
  - intros b Hb. apply toy_dec_enc; [vm_compute; lia | done].
  - intros b Hb. apply toy_enc_sized; [vm_compute; lia | done].
  - reflexivity.
Defined.

(** ** The handlers, by the shape of what they do *)

Lemma with_userData_same (s : State) : with_userData (userData s) s = s.
Proof. by destruct s. Qed.

Lemma lazy_init_idemp u (d : gmap string UserRecord) :
  lazy_init u (lazy_init u d) = lazy_init u d.
Proof. unfold lazy_init at 1. by rewrite lazy_init_lookup. Qed.

Lemma lazy_init_is_Some u v (d : gmap string UserRecord) :
  is_Some (d !! v) → is_Some (lazy_init u d !! v).
Proof.
  intros H. destruct (decide (u = v)) as [<- | Hne].
  - by rewrite lazy_init_lookup.
  - by rewrite lazy_init_lookup_ne.
Qed.

(** What [handleChatCommand] does from line 175 on. *)
Lemma chat_enter_cases (i : Interaction) (prompt : option string)
    (key : string) (s : State) :
  (Js.truthy prompt = false
   ∧ chat_enter i prompt key s = (s, [Reply i Text.no_prompt true]))
  ∨ (∃ p, prompt = Some p ∧ Js.truthy prompt = true
       ∧ chat_enter i prompt key s
         = ({| userData := userData s;
               ACTIVE_SESSIONS := {[user_id i]} ∪ ACTIVE_SESSIONS s;
               collectors := collectors s;
               suspended := suspended s ++ [ChatAwaitReply i p key];
               next_collector := next_collector s |},
            [Reply i (Text.announce p) true])).
Proof.
  unfold chat_enter. destruct prompt as [[|c p]|]; cbn; [by left | | by left].
  right. by eexists.
Qed.

Section Cases.

Variable aes_enc : Buffer → Buffer → Buffer.
Variable aes_dec : Buffer → Buffer → Buffer.
Variable ENCRYPTION_KEY : string.

(** The outcomes of [handleChatCommand] up to its first await. *)
Lemma handleChatCommand_cases (i : Interaction) (s : State) :
  let u := user_id i in
  let r := handleChatCommand aes_dec ENCRYPTION_KEY i s in
  (u ∈ ACTIVE_SESSIONS s ∧ r = (s, [Reply i (Text.conflict u) true]))
  ∨ ((u ∉ ACTIVE_SESSIONS s)
     ∧ Js.truthy (userData s !! u ≫= openaiKey) = false
     ∧ r = (s, [Reply i Text.no_key true]))
  ∨ (∃ token msg,
       (u ∉ ACTIVE_SESSIONS s)
       ∧ userData s !! u ≫= openaiKey = Some token
       ∧ decrypt aes_dec ENCRYPTION_KEY token = Throw msg
       ∧ r = (s, [Reply i Text.unreadable_key true]))
  ∨ (∃ token key p,
       (u ∉ ACTIVE_SESSIONS s)
       ∧ userData s !! u ≫= openaiKey = Some token
       ∧ decrypt aes_dec ENCRYPTION_KEY token = Ok key
       ∧ prompt_id i = Some p ∧ Js.truthy (Some p) = true
       ∧ r = saveUserData (KChat i (Some p) key)
               (with_userData (alter (set_promptId (Some p)) u (userData s)) s))
  ∨ (∃ token key,
       (u ∉ ACTIVE_SESSIONS s)
       ∧ userData s !! u ≫= openaiKey = Some token
       ∧ decrypt aes_dec ENCRYPTION_KEY token = Ok key
       ∧ Js.truthy (prompt_id i) = false
       ∧ r = chat_enter i (userData s !! u ≫= promptId) key s).
Proof.
  intros u r. subst u r. unfold handleChatCommand.
  destruct (bool_decide (user_id i ∈ ACTIVE_SESSIONS s)) eqn:Hactive.
  { apply bool_decide_eq_true in Hactive. by left. }
  apply bool_decide_eq_false in Hactive. right.
  destruct (userData s !! user_id i ≫= openaiKey) as [token|] eqn:Htoken;
    [| by left].
  destruct (Js.truthy (Some token)) eqn:Htruthy; cbn [negb]; [| by left].
  right. cbn [from_option id].
  destruct (decrypt aes_dec ENCRYPTION_KEY token) as [key | msg] eqn:Hdecrypt.
  - right. destruct (prompt_id i) as [p|] eqn:Hp.
    + destruct (Js.truthy (Some p)) eqn:Htp.
      * left. by exists token, key, p.
      * right. by exists token, key.
    + right. by exists token, key.
  - left. by exists token, msg.
Qed.

(** The outcomes of the listener for [interactionCreate] up to its first
    await: nothing at all, one reply, the report of an error, a write of
    the store after a change of the record of the user, or the entry
    into a chat. *)
Lemma interactionCreate_cases (i : Interaction) (random : Buffer) (s : State) :
  let u := user_id i in
  let s0 := with_userData (lazy_init u (userData s)) s in
  let r := interactionCreate aes_enc aes_dec ENCRYPTION_KEY i random s in
  (isChatInputCommand i = false ∧ r = (s, []))
  ∨ (isChatInputCommand i = true
     ∧ ((∃ text, r = (s0, [Reply i text true]))
        ∨ (∃ err, r = (s0, [Log (Text.handler_error (commandName i) err);
                            Reply i "An error occurred." true]))
        ∨ (∃ f k,
             r = saveUserData k (with_userData (alter f u (userData s0)) s0)
             ∧ ((commandName i = "setprompt"
                 ∧ ∃ p, prompt_id i = Some p ∧ Js.js_length p ≤ CHAR_LIMIT
                        ∧ f = set_promptId (Some p)
                        ∧ k = KSetPrompt i (Js.js_length p))
                ∨ (commandName i = "setkey"
                   ∧ ∃ key token,
                       openai_key i = Some key
                       ∧ encrypt aes_enc ENCRYPTION_KEY random key = Ok token
                       ∧ f = set_openaiKey (Some token) ∧ k = KSetKey i)
                ∨ (commandName i = "deleteprompt"
                   ∧ f = set_promptId None ∧ k = KDeletePrompt i)
                ∨ (commandName i = "deletekey"
                   ∧ f = set_openaiKey None ∧ k = KDeleteKey i)
                ∨ (commandName i = "chat"
                   ∧ (u ∉ ACTIVE_SESSIONS s)
                   ∧ ∃ p key, prompt_id i = Some p ∧ Js.truthy (Some p) = true
                              ∧ f = set_promptId (Some p)
                              ∧ k = KChat i (Some p) key)))
        ∨ (∃ p key,
             commandName i = "chat" ∧ (u ∉ ACTIVE_SESSIONS s)
             ∧ r = ({| userData := userData s0;
                       ACTIVE_SESSIONS := {[u]} ∪ ACTIVE_SESSIONS s;
                       collectors := collectors s;
                       suspended := suspended s ++ [ChatAwaitReply i p key];
                       next_collector := next_collector s |},
                    [Reply i (Text.announce p) true])))).
Proof.
  intros u s0 r. subst r. unfold interactionCreate, on_error.
  destruct (isChatInputCommand i); cbn [negb]; [right | by left].
  split; [done |]. fold u. fold s0.
  destruct (String.eqb_spec (commandName i) "setprompt") as [Hname | _].
  { destruct (prompt_id i) as [prompt|] eqn:Hprompt.
    - destruct (Nat.ltb_spec CHAR_LIMIT (Js.js_length prompt)) as [Hlong | Hle].
      + left. by eexists.
      + right. right. left. do 2 eexists. split; [done |]. left.
        split; [done |]. by exists prompt.
    - right. left. by eexists. }
  destruct (String.eqb_spec (commandName i) "promptlimit") as [_ | _].
  { left. by eexists. }
  destruct (String.eqb_spec (commandName i) "setkey") as [Hname | _].
  { destruct (openai_key i) as [key|] eqn:Hkey.
    - destruct (encrypt aes_enc ENCRYPTION_KEY random key) as [token | err]
        eqn:Hencrypt.
      + right. right. left. do 2 eexists. split; [done |]. right. left.
        split; [done |]. by exists key, token.
      + right. left. by eexists.
    - right. left. by eexists. }
  destruct (String.eqb_spec (commandName i) "deleteprompt") as [Hname | _].
  { destruct (Js.truthy _).
    - right. right. left. do 2 eexists. split; [done |]. do 2 right. left. done.
    - left. by eexists. }
  destruct (String.eqb_spec (commandName i) "deletekey") as [Hname | _].
  { destruct (Js.truthy _).
    - right. right. left. do 2 eexists. split; [done |]. do 3 right. left. done.
    - left. by eexists. }
  destruct (String.eqb_spec (commandName i) "info") as [_ | _].
  { left. by eexists. }
  destruct (String.eqb_spec (commandName i) "help") as [_ | _].
  { left. by eexists. }
  destruct (String.eqb_spec (commandName i) "chat") as [Hname | _].
  2: { left. by eexists. }
  destruct (handleChatCommand_cases i s0)
    as [[_ ->] | [(_ & _ & ->) | [(token & msg & _ & _ & _ & ->)
       | [(token & key & p & Hidle & _ & _ & Hp & Htp & ->)
         | (token & key & Hidle & _ & _ & _ & ->)]]]].
  - left. by eexists.
  - left. by eexists.
  - left. by eexists.
  - right. right. left. do 2 eexists. split; [done |]. do 4 right.
    split_and!; try done. by exists p, key.
  - destruct (chat_enter_cases i (userData s0 !! user_id i ≫= promptId) key s0)
      as [[_ ->] | (p & _ & _ & ->)].
    + left. by eexists.
    + right. right. right. by exists p, key.
Qed.

(** The outcomes of a handler that resumes after the write of the store. *)
Lemma after_save_cases (k : SaveCont) (s : State) :
  (∃ i text line, after_save k s = (s, [Log line; Reply i text true]))
  ∨ (∃ i text, after_save k s = (s, [Reply i text true]))
  ∨ (∃ i p key,
       k = KChat i (Some p) key
       ∧ after_save k s
         = ({| userData := userData s;
               ACTIVE_SESSIONS := {[user_id i]} ∪ ACTIVE_SESSIONS s;
               collectors := collectors s;
               suspended := suspended s ++ [ChatAwaitReply i p key];
               next_collector := next_collector s |},
            [Reply i (Text.announce p) true])).
Proof.
  destruct k as [i cnt | i | i | i | i prompt key]; cbn [after_save];
    try (left; by do 3 eexists).
  destruct (chat_enter_cases i prompt key s) as [[_ ->] | (p & -> & _ & ->)].
  - right. left. by do 2 eexists.
  - right. right. by exists i, p, key.
Qed.

End Cases.

(** ** The events other than slash commands, by the shape of what they do *)

Ltac explicit_elem_of H :=
  repeat (apply elem_of_cons in H as [H | H]);
  try (by apply elem_of_nil in H).

Lemma on_collect_effects (c : Collector) (m : Message) (e : Effect) :
  e ∈ (on_collect c m).2 →
  (is_exit_keyword (content m) = true ∧ e = MessageReply m (JStr Text.ack))
  ∨ (is_exit_keyword (content m) = false
     ∧ (e = SendTyping (m_channelId m)
        ∨ e = HttpsRequest ("Bearer " +:+ c_openaiKey c)
                {| model := "gpt-4"; max_tokens := 500;
                   system_content := c_prompt c;
                   user_content := Js.trim (content m) |})).
Proof.
  unfold on_collect. fold (is_exit_keyword (content m)).
  destruct (is_exit_keyword (content m)); cbn [snd]; intros H;
    explicit_elem_of H; auto.
Qed.

Lemma dispatch_effects (m : Message) (cs : list Collector) (e : Effect) :
  e ∈ (dispatch m cs).2 →
  ∃ c, c ∈ cs ∧ collector_filter c m = true ∧ e ∈ (on_collect c m).2.
Proof.
  induction cs as [|c cs IH]; cbn [dispatch].
  - by intros H%elem_of_nil.
  - destruct (dispatch m cs) as [[cs' ps] es]. cbn [snd] in IH.
    destruct (collector_filter c m) eqn:Hf.
    + destruct (on_collect c m) as [p out] eqn:Hc. cbn [snd].
      intros [H | H]%elem_of_app.
      * exists c. rewrite Hc. split_and!; [by left | done | done].
      * destruct (IH H) as (c' & Hc' & Hf' & He).
        exists c'. split_and!; [by right | done | done].
    + cbn [snd]. intros H. destruct (IH H) as (c' & Hc' & Hf' & He).
      exists c'. split_and!; [by right | done | done].
Qed.

Lemma dispatch_accepted (m : Message) (cs : list Collector) (c : Collector) :
  c ∈ cs → collector_filter c m = true →
  add_collected m c ∈ (dispatch m cs).1.1
  ∧ (on_collect c m).1 ∈ (dispatch m cs).1.2
  ∧ ∀ e, e ∈ (on_collect c m).2 → e ∈ (dispatch m cs).2.
Proof.
  intros Hc Hf. induction cs as [|x cs IH]; [by apply elem_of_nil in Hc |].
  cbn [dispatch].
  destruct (dispatch m cs) as [[cs' ps] es]. cbn [fst snd] in IH.
  apply elem_of_cons in Hc as [<- | Hc].
  - rewrite Hf. destruct (on_collect c m) as [p out]. cbn [fst snd].
    split_and!; [by left | by left |].
    intros e He. apply elem_of_app. by left.
  - destruct (IH Hc) as (H1 & H2 & H3).
    destruct (collector_filter x m).
    + destruct (on_collect x m) as [p out]. cbn [fst snd].
      split_and!; [by right | by right |].
      intros e He. apply elem_of_app. right. by apply H3.
    + cbn [fst snd]. split_and!; [by right | done | done].
Qed.

Lemma dispatch_ignored (m : Message) (cs : list Collector) :
  (∀ c, c ∈ cs → collector_filter c m = false) → dispatch m cs = (cs, [], []).
Proof.
  induction cs as [|c cs IH]; intros H; cbn [dispatch]; [done |].
  rewrite IH by (intros c' Hc'; apply H; by right).
  rewrite (H c) by (by left). done.
Qed.

Lemma end_collector_cases (id : nat) (s : State) :
  end_collector id s = (s, [])
  ∨ ∃ c, c ∈ collectors s ∧ collector_id c = id
         ∧ end_collector id s
           = ({| userData := userData s;
                 ACTIVE_SESSIONS := ACTIVE_SESSIONS s ∖ {[c_userId c]};
                 collectors := remove_collector id (collectors s);
                 suspended := suspended s;
                 next_collector := next_collector s |},
              [Log (Text.ended_log (c_userId c) (length (collected c)));
               ChannelSend (c_channelId c) (Text.expired (c_userId c))]).
Proof.
  destruct (find_collector id (collectors s)) as [c|] eqn:Hfind.
  - right. exists c. apply find_collector_Some in Hfind as Hc.
    destruct Hc as [Hc Hid]. split_and!; try done.
    by apply end_collector_live.
  - left. by apply end_collector_ended.
Qed.

Lemma on_response_end_reply (m : Message) (parsed : option Json) :
  ∃ body, on_response_end m parsed = [MessageReply m body].
Proof. unfold on_response_end. destruct parsed as [[]|]; cbn; eauto. Qed.

Section Events.

Variable aes_enc : Buffer → Buffer → Buffer.
Variable aes_dec : Buffer → Buffer → Buffer.
Variable ENCRYPTION_KEY : string.

(** The outcomes of the resumption of a suspended handler. *)
Lemma resume_cases (p : Pending) (o : Outcome) (s : State) r :
  resume p o s = Some r →
  (∃ k, p = AwaitSave k
        ∧ (o = WriteOk ∨ ∃ err, o = WriteFailed err)
        ∧ r = ((after_save k s).1, save_log o ++ (after_save k s).2))
  ∨ (∃ i prompt key, p = ChatAwaitReply i prompt key ∧ o = Settled
                     ∧ r = chat_collect i prompt key s)
  ∨ (∃ id m, p = ExitAwaitAck id m ∧ o = Settled ∧ r = end_collector id s)
  ∨ (∃ m body, p = RequestInFlight m ∧ r = (s, [MessageReply m body])).
Proof.
  destruct p as [k | i prompt key | id m | m], o; try done; cbn [resume];
    intros [= <-].
  - left. exists k. split_and!; auto.
  - left. exists k. split_and!; eauto.
  - right. left. by exists i, prompt, key.
  - right. right. left. by exists id, m.
  - do 3 right. destruct (on_response_end_reply m parsed) as [body ->].
    by exists m, body.
  - do 3 right. by exists m, (JStr Text.transport_error).
Qed.

Lemma step_resume_cases (s : State) (n : nat) (o : Outcome) :
  step aes_enc aes_dec ENCRYPTION_KEY s (Resume n o) = (s, [])
  ∨ ∃ p r, suspended s !! n = Some p
           ∧ resume p o (with_suspended (delete n (suspended s)) s) = Some r
           ∧ step aes_enc aes_dec ENCRYPTION_KEY s (Resume n o) = r.
Proof.
  cbn [step]. destruct (suspended s !! n) as [p|]; [| by left].
  destruct (resume p o _) as [r|] eqn:Hr; [| by left].
  right. by exists p, r.
Qed.

(** Only a slash command changes the store. *)
Lemma step_userData (s : State) (e : Event) :
  (∀ i random, e ≠ InteractionCreate i random) →
  userData (step aes_enc aes_dec ENCRYPTION_KEY s e).1 = userData s.
Proof.
  intros He. destruct e as [i random | m | n o | id].
  - by destruct (He i random).
  - cbn [step]. by destruct (dispatch m (collectors s)) as [[cs ps] es].
  - destruct (step_resume_cases s n o) as [-> | (p & r & _ & Hr & ->)];
      [done |].
    apply resume_cases in Hr
      as [(k & _ & _ & ->) | [(i & prompt & key & _ & _ & ->)
         | [(id & m & _ & _ & ->) | (m & body & _ & ->)]]]; cbn [fst].
    + destruct (after_save_cases k (with_suspended (delete n (suspended s)) s))
        as [(i & text & line & ->) | [(i & text & ->) | (i & p0 & key & _ & ->)]];
        done.
    + done.
    + by destruct (end_collector_cases id
                     (with_suspended (delete n (suspended s)) s))
        as [-> | (c & _ & _ & ->)].
    + done.
  - cbn [step]. by destruct (end_collector_cases id s) as [-> | (c & _ & _ & ->)].
Qed.

(** A slash command changes at most the record of its user. *)
Lemma interactionCreate_userData (i : Interaction) (random : Buffer) (s : State) :
  let d' := userData (interactionCreate aes_enc aes_dec ENCRYPTION_KEY i random s).1 in
  d' = userData s
  ∨ (isChatInputCommand i = true
     ∧ ∃ f, d' = alter f (user_id i) (lazy_init (user_id i) (userData s))).
Proof.
  destruct (interactionCreate_cases aes_enc aes_dec ENCRYPTION_KEY i random s)
    as [[_ ->] | [Hchat [(text & ->) | [(err & ->) | [(f & k & -> & _)
       | (p & key & _ & _ & ->)]]]]]; cbn.
  - by left.
  - right. split; [done |]. exists id. by rewrite alter_id.
  - right. split; [done |]. exists id. by rewrite alter_id.
  - right. split; [done |]. by exists f.
  - right. split; [done |]. exists id. by rewrite alter_id.
Qed.

End Events.

(** ** The store *)

(** X6. An event changes the record of a user only when it is a slash
    command of that user: the commands of the other users, the messages,
    the resumption of any handler and the timers leave the record as it
    is. *)
Theorem only_own_commands_change_a_record
    (aes_enc aes_dec : Buffer → Buffer → Buffer) (ENCRYPTION_KEY : string)
    (s : State) (e : Event) (u : string) :
  (∀ i random, e = InteractionCreate i random → user_id i ≠ u) →
  userData (step aes_enc aes_dec ENCRYPTION_KEY s e).1 !! u = userData s !! u.
Proof.
  intros He. destruct e as [i random | m | n o | id];
    try (by rewrite step_userData).
  cbn [step]. specialize (He i random eq_refl).
  destruct (interactionCreate_userData aes_enc aes_dec ENCRYPTION_KEY i random s)
    as [-> | (_ & f & ->)]; [done |].
  by rewrite lookup_alter_ne, lazy_init_lookup_ne.
Qed.

Lemma only_own_commands_change_a_record_witness :
  userData
    (step toy_enc toy_dec sample_key (initial sample_store)
       (InteractionCreate (command "deletekey" "U2" "c" None None) [])).1 !! "U1"
  = userData (initial sample_store) !! "U1".
Proof.
  apply (only_own_commands_change_a_record toy_enc toy_dec sample_key
           (initial sample_store)
           (InteractionCreate (command "deletekey" "U2" "c" None None) [])
           "U1").
  intros i random [= <- _]. discriminate.
Defined.

(** X7. No event removes a record from the store, and every slash
    command creates the record of its user when there is none, whatever
    the command is; the commands that delete remove a field, not the
    record. *)
Theorem user_records_are_never_removed
    (aes_enc aes_dec : Buffer → Buffer → Buffer) (ENCRYPTION_KEY : string)
    (s : State) (e : Event) (u : string) :
  is_Some (userData s !! u)
  ∨ (∃ i random, e = InteractionCreate i random
                 ∧ isChatInputCommand i = true ∧ user_id i = u) →
  is_Some (userData (step aes_enc aes_dec ENCRYPTION_KEY s e).1 !! u).
Proof.
  intros H.
  destruct e as [i random | m | n o | id];
    try (rewrite step_userData by done;
         destruct H as [H | (i & random & [=] & _)]; done).
  cbn [step].
  destruct (interactionCreate_cases aes_enc aes_dec ENCRYPTION_KEY i random s)
    as [[Hno ->] | [Hchat Hcases]].
  - destruct H as [H | (i0 & random0 & [= <- <-] & Hyes & _)]; [done |].
    congruence.
  - assert (Hinit : is_Some (lazy_init (user_id i) (userData s) !! u)).
    { destruct H as [H | (i0 & random0 & [= <- <-] & _ & <-)].
      - by apply lazy_init_is_Some.
      - by rewrite lazy_init_lookup. }
    destruct Hcases as [(text & ->) | [(err & ->) | [(f & k & -> & _)
       | (p & key & _ & _ & ->)]]]; cbn; try done.
    by apply lookup_alter_is_Some.
Qed.

Lemma user_records_are_never_removed_witness :
  is_Some
    (userData
       (step toy_enc toy_dec sample_key (initial sample_store)
          (InteractionCreate (command "help" "U2" "c" None None) [])).1 !! "U2").
Proof.
  apply (user_records_are_never_removed toy_enc toy_dec sample_key
           (initial sample_store)
           (InteractionCreate (command "help" "U2" "c" None None) []) "U2").
  right. by eexists _, _.
Defined.

Lemma within_limit_lazy_init u (d : gmap string UserRecord) :
  within_limit d → within_limit (lazy_init u d).
Proof.
  intros Hd v r p Hr Hp. destruct (decide (u = v)) as [<- | Hne].
  - rewrite lazy_init_lookup in Hr. injection Hr as <-.
    destruct (d !! u) as [r|] eqn:Hu; [| done]. by eapply Hd.
  - rewrite lazy_init_lookup_ne in Hr by done. by eapply Hd.
Qed.

Lemma within_limit_alter (f : UserRecord → UserRecord) u
    (d : gmap string UserRecord) :
  (∀ r p, promptId (f r) = Some p →
          promptId r = Some p ∨ Js.js_length p ≤ CHAR_LIMIT) →
  within_limit d → within_limit (alter f u d).
Proof.
  intros Hf Hd v r p Hr Hp. destruct (decide (u = v)) as [<- | Hne].
  - rewrite lookup_alter_eq in Hr.
    destruct (d !! u) as [r0|] eqn:Hu; [| done]. injection Hr as <-.
    destruct (Hf _ _ Hp) as [H | H]; [by eapply Hd | done].
  - rewrite lookup_alter_ne in Hr by done. by eapply Hd.
Qed.

(** X8. The stored instructions stay within the limit of 4000 characters
    under every event except a chat command whose inline instruction is
    itself longer: that command is the only way by which a longer
    instruction enters the store. *)
Theorem only_inline_chat_exceeds_the_limit
    (aes_enc aes_dec : Buffer → Buffer → Buffer) (ENCRYPTION_KEY : string)
    (s : State) (e : Event) :
  within_limit (userData s) →
  (∀ i random p, e = InteractionCreate i random → commandName i = "chat" →
                 prompt_id i = Some p → Js.js_length p ≤ CHAR_LIMIT) →
  within_limit (userData (step aes_enc aes_dec ENCRYPTION_KEY s e).1).
Proof.
  intros Hs He.
  destruct e as [i random | m | n o | id];
    try (by rewrite step_userData).
  cbn [step]. pose proof (within_limit_lazy_init (user_id i) _ Hs) as Hinit.
  destruct (interactionCreate_cases aes_enc aes_dec ENCRYPTION_KEY i random s)
    as [[_ ->] | [_ [(text & ->) | [(err & ->) | [(f & k & -> & Hf)
       | (p & key & _ & _ & ->)]]]]]; cbn; try done.
  apply within_limit_alter; [| done].
  destruct Hf as [(_ & p & _ & Hp & -> & _) | [(_ & key & token & _ & _ & -> & _)
    | [(_ & -> & _) | [(_ & -> & _) | (Hname & _ & p & key & Hp & _ & -> & _)]]]];
    intros r q; cbn; try (intros [= <-]); auto.
  right. by eapply He.
Qed.

Lemma only_inline_chat_exceeds_the_limit_witness :
  within_limit (userData (initial sample_store))
  ∧ within_limit
      (userData
         (step toy_enc toy_dec sample_key (initial sample_store)
            (InteractionCreate (chat "U1" "c" (Some "be long")) [])).1).
Proof.
  assert (H : within_limit (userData (initial sample_store))).
  { intros u r p Hr Hp. cbn in Hr. unfold sample_store in Hr.
    apply lookup_singleton_Some in Hr as [_ <-]. injection Hp as <-.
    vm_compute. lia. }
  split; [exact H |].
  apply (only_inline_chat_exceeds_the_limit toy_enc toy_dec sample_key
           (initial sample_store)
           (InteractionCreate (chat "U1" "c" (Some "be long")) []) H).
  intros i random p [= <- _] _ [= <-]. vm_compute. lia.
Defined.

(** ** What the bot sends, event by event *)

Section Effects.

Variable aes_enc : Buffer → Buffer → Buffer.
Variable aes_dec : Buffer → Buffer → Buffer.
Variable ENCRYPTION_KEY : string.

(** Every effect of an event, by its origin. *)
Lemma step_effects (s : State) (e : Event) (x : Effect) :
  x ∈ (step aes_enc aes_dec ENCRYPTION_KEY s e).2 →
  (∃ i text, x = Reply i text true)
  ∨ (∃ line, x = Log line)
  ∨ (∃ i random,
       e = InteractionCreate i random
       ∧ x = WriteFile (userData (step aes_enc aes_dec ENCRYPTION_KEY s e).1)
       ∧ commandName i
         ∈ ["setprompt"; "setkey"; "deleteprompt"; "deletekey"; "chat"])
  ∨ (∃ m c, e = MessageCreate m ∧ c ∈ collectors s
            ∧ collector_filter c m = true ∧ x ∈ (on_collect c m).2)
  ∨ (∃ n o m body, e = Resume n o
                   ∧ suspended s !! n = Some (RequestInFlight m)
                   ∧ x = MessageReply m body)
  ∨ (∃ i, x = DeleteReplyAfter i 60000%N)
  ∨ (∃ c, c ∈ collectors s ∧ x = ChannelSend (c_channelId c) (Text.expired (c_userId c))).
Proof.
  destruct e as [i random | m | n o | id].
  - cbn [step].
    destruct (interactionCreate_cases aes_enc aes_dec ENCRYPTION_KEY i random s)
      as [[_ ->] | [_ [(text & ->) | [(err & ->) | [(f & k & -> & Hf)
         | (p & key & _ & _ & ->)]]]]]; cbn [snd saveUserData fst];
      intros H; explicit_elem_of H; subst x; eauto 6.
    right. right. left. exists i, random. split_and!; [done | done |].
    destruct Hf as [(-> & _) | [(-> & _) | [(-> & _) | [(-> & _) | (-> & _)]]]];
      repeat constructor.
  - cbn [step]. intros H.
    assert (Hx : x ∈ (dispatch m (collectors s)).2).
    { by destruct (dispatch m (collectors s)) as [[cs ps] es]. }
    apply dispatch_effects in Hx as (c & Hc & Hf & Hx).
    do 3 right. left. by exists m, c.
  - destruct (step_resume_cases aes_enc aes_dec ENCRYPTION_KEY s n o)
      as [-> | (p & r & Hp & Hr & ->)]; [by intros H%elem_of_nil |].
    apply resume_cases in Hr
      as [(k & -> & Ho & ->) | [(i & prompt & key & -> & -> & ->)
         | [(id & m & -> & -> & ->) | (m & body & -> & ->)]]]; cbn [snd].
    + intros [H | H]%elem_of_app.
      * right. left.
        destruct Ho as [-> | [err ->]]; cbn in H;
          apply list_elem_of_singleton in H; eauto.
      * destruct (after_save_cases k
                    (with_suspended (delete n (suspended s)) s))
          as [(i & text & line & Hk) | [(i & text & Hk)
             | (i & p0 & key & _ & Hk)]];
          rewrite Hk in H; cbn [snd] in H; explicit_elem_of H; subst x; eauto.
    + cbn. intros H. explicit_elem_of H. subst x. do 5 right. left. eauto.
    + destruct (end_collector_cases id
                  (with_suspended (delete n (suspended s)) s))
        as [-> | (c & Hc & _ & ->)]; cbn [snd];
        intros H; explicit_elem_of H; subst x; eauto 10.
    + intros H. explicit_elem_of H. subst x. do 4 right. left.
      by exists n, o, m, body.
  - cbn [step].
    destruct (end_collector_cases id s) as [-> | (c & Hc & _ & ->)]; cbn [snd];
      intros H; explicit_elem_of H; subst x; eauto 10.
Qed.

End Effects.

(** X9. Every reply to a slash command is ephemeral: whatever the event
    and the state, no reply to an interaction is sent with the flag off,
    so that the instruction shown in the announcement and the status shown
    by [info] are visible to the user of the command only. *)
Theorem replies_to_commands_are_ephemeral
    (aes_enc aes_dec : Buffer → Buffer → Buffer) (ENCRYPTION_KEY : string)
    (s : State) (e : Event) (i : Interaction) (text : string) (eph : bool) :
  Reply i text eph ∈ (step aes_enc aes_dec ENCRYPTION_KEY s e).2 → eph = true.
Proof.
  intros H. apply step_effects in H
    as [(i0 & t0 & [= _ _ ->]) | [(line & [=]) | [(i0 & r0 & _ & [=] & _)
       | [(m & c & _ & _ & _ & H) | [(n & o & m & body & _ & _ & [=])
         | [(i0 & [=]) | (c & _ & [=])]]]]]]; [done |].
  apply on_collect_effects in H as [[_ [=]] | [_ [[=] | [=]]]].
Qed.

Lemma replies_to_commands_are_ephemeral_witness :
  Reply (chat "U1" "c" None) (Text.announce "be brief") true
    ∈ (step toy_enc toy_dec sample_key (initial sample_store)
         (InteractionCreate (chat "U1" "c" None) [])).2
  ∧ true = true.
Proof.
  assert (H : Reply (chat "U1" "c" None) (Text.announce "be brief") true
                ∈ (step toy_enc toy_dec sample_key (initial sample_store)
                     (InteractionCreate (chat "U1" "c" None) [])).2).
  { vm_compute. constructor. }
  split; [exact H |].
  exact (replies_to_commands_are_ephemeral toy_enc toy_dec sample_key
           (initial sample_store) (InteractionCreate (chat "U1" "c" None) [])
           (chat "U1" "c" None) (Text.announce "be brief") true H).
Defined.

(** X10. The store is written only by the handler of one of the five
    commands that change it (setprompt, setkey, deleteprompt, deletekey
    and chat), and what is written is the store as it is after the
    change: messages, timers and resumed handlers write nothing. *)
Theorem store_is_written_only_after_a_change
    (aes_enc aes_dec : Buffer → Buffer → Buffer) (ENCRYPTION_KEY : string)
    (s : State) (e : Event) (d : gmap string UserRecord) :
  WriteFile d ∈ (step aes_enc aes_dec ENCRYPTION_KEY s e).2 →
  d = userData (step aes_enc aes_dec ENCRYPTION_KEY s e).1
  ∧ ∃ i random,
      e = InteractionCreate i random
      ∧ commandName i
        ∈ ["setprompt"; "setkey"; "deleteprompt"; "deletekey"; "chat"].
Proof.
  intros H. apply step_effects in H
    as [(i0 & t0 & [=]) | [(line & [=]) | [(i0 & r0 & -> & [= ->] & Hname)
       | [(m & c & _ & _ & _ & H) | [(n & o & m & body & _ & _ & [=])
         | [(i0 & [=]) | (c & _ & [=])]]]]]].
  - split; [done |]. by exists i0, r0.
  - apply on_collect_effects in H as [[_ [=]] | [_ [[=] | [=]]]].
Qed.

Lemma store_is_written_only_after_a_change_witness :
  let e := InteractionCreate (command "deletekey" "U1" "c" None None) [] in
  let d := userData (step toy_enc toy_dec sample_key (initial sample_store) e).1 in
  WriteFile d ∈ (step toy_enc toy_dec sample_key (initial sample_store) e).2
  ∧ d !! "U1" = Some {| promptId := Some "be brief"; openaiKey := None |}
  ∧ d = userData (step toy_enc toy_dec sample_key (initial sample_store) e).1
  ∧ ∃ i random,
      e = InteractionCreate i random
      ∧ commandName i
        ∈ ["setprompt"; "setkey"; "deleteprompt"; "deletekey"; "chat"].
Proof.
  intros e d.
  assert (H : WriteFile d
                ∈ (step toy_enc toy_dec sample_key (initial sample_store) e).2).
  { cbn. constructor. }
  split; [exact H |]. split; [by vm_compute |].
  exact (store_is_written_only_after_a_change toy_enc toy_dec sample_key
           (initial sample_store) e d H).
Defined.

(** X11. A completion request is issued only when a message arrives
    that a live collector accepts, and it carries the credential and the
    instruction of that collector, whose user is the author of the
    message and whose channel is the channel of the message: the
    credential of a user is never sent for the message of another. *)
Theorem requests_carry_the_credential_of_the_author
    (aes_enc aes_dec : Buffer → Buffer → Buffer) (ENCRYPTION_KEY : string)
    (s : State) (e : Event) (authorization : string) (body : Payload) :
  HttpsRequest authorization body
    ∈ (step aes_enc aes_dec ENCRYPTION_KEY s e).2 →
  ∃ m c, e = MessageCreate m ∧ c ∈ collectors s
         ∧ c_userId c = author_id m ∧ c_channelId c = m_channelId m
         ∧ is_exit_keyword (content m) = false
         ∧ authorization = "Bearer " +:+ c_openaiKey c
         ∧ body = {| model := "gpt-4"; max_tokens := 500;
                     system_content := c_prompt c;
                     user_content := Js.trim (content m) |}.
Proof.
  intros H. apply step_effects in H
    as [(i0 & t0 & [=]) | [(line & [=]) | [(i0 & r0 & _ & [=] & _)
       | [(m & c & -> & Hc & Hf & H) | [(n & o & m & b & _ & _ & [=])
         | [(i0 & [=]) | (c & _ & [=])]]]]]].
  apply on_collect_effects in H as [[_ [=]] | [Hexit [[=] | [= -> ->]]]].
  exists m, c. unfold collector_filter in Hf.
  apply andb_true_iff in Hf as [Hu%String.eqb_eq Hch%String.eqb_eq].
  split_and!; done.
Qed.

Lemma requests_carry_the_credential_of_the_author_witness :
  let e := MessageCreate (message 1 "U1" "c" " hello ") in
  let body := {| model := "gpt-4"; max_tokens := 500;
                 system_content := "be brief"; user_content := "hello" |} in
  HttpsRequest "Bearer sk-abc" body
    ∈ (step toy_enc toy_dec sample_key active_state e).2
  ∧ ∃ m c, e = MessageCreate m ∧ c ∈ collectors active_state
           ∧ c_userId c = author_id m ∧ c_channelId c = m_channelId m
           ∧ is_exit_keyword (content m) = false
           ∧ "Bearer sk-abc" = "Bearer " +:+ c_openaiKey c
           ∧ body = {| model := "gpt-4"; max_tokens := 500;
                       system_content := c_prompt c;
                       user_content := Js.trim (content m) |}.
Proof.
  intros e body.
  assert (H : HttpsRequest "Bearer sk-abc" body
                ∈ (step toy_enc toy_dec sample_key active_state e).2).
  { vm_compute. repeat constructor. }
  split; [exact H |].
  exact (requests_carry_the_credential_of_the_author toy_enc toy_dec sample_key
           active_state e "Bearer sk-abc" body H).
Defined.

(** ** Messages *)

(** X12. A message that a live collector accepts and that is no exit
    keyword is relayed: the typing indicator is shown in the channel of
    the message and one request is issued with the credential and the
    instruction of the collector and the trimmed content; the message is
    counted by the collector and the handler waits for the response.  The
    registry and the store are as before. *)
Theorem accepted_message_is_relayed
    (aes_enc aes_dec : Buffer → Buffer → Buffer) (ENCRYPTION_KEY : string)
    (s : State) (c : Collector) (m : Message) :
  c ∈ collectors s → collector_filter c m = true →
  is_exit_keyword (content m) = false →
  let '(s', out) := step aes_enc aes_dec ENCRYPTION_KEY s (MessageCreate m) in
  SendTyping (m_channelId m) ∈ out
  ∧ HttpsRequest ("Bearer " +:+ c_openaiKey c)
      {| model := "gpt-4"; max_tokens := 500; system_content := c_prompt c;
         user_content := Js.trim (content m) |} ∈ out
  ∧ add_collected m c ∈ collectors s'
  ∧ RequestInFlight m ∈ suspended s'
  ∧ ACTIVE_SESSIONS s' = ACTIVE_SESSIONS s
  ∧ userData s' = userData s.
Proof.
  intros Hc Hf Hexit. cbn [step].
  destruct (dispatch_accepted m (collectors s) c Hc Hf) as (H1 & H2 & H3).
  destruct (dispatch m (collectors s)) as [[cs ps] es]. cbn [fst snd] in *.
  unfold on_collect in H2, H3. fold (is_exit_keyword (content m)) in H2, H3.
  rewrite Hexit in H2, H3. cbn [fst snd] in H2, H3.
  split_and!; try done.
  - apply H3. by left.
  - apply H3. right. by left.
  - cbn. apply elem_of_app. by right.
Qed.

Lemma accepted_message_is_relayed_witness :
  let m := message 1 "U1" "c" " hello " in
  let c := {| collector_id := 0; c_userId := "U1"; c_channelId := "c";
              c_prompt := "be brief"; c_openaiKey := "sk-abc";
              collected := [] |} in
  let '(s', out) := step toy_enc toy_dec sample_key active_state (MessageCreate m) in
  SendTyping "c" ∈ out
  ∧ HttpsRequest "Bearer sk-abc"
      {| model := "gpt-4"; max_tokens := 500; system_content := "be brief";
         user_content := "hello" |} ∈ out
  ∧ add_collected m c ∈ collectors s'
  ∧ RequestInFlight m ∈ suspended s'
  ∧ ACTIVE_SESSIONS s' = ACTIVE_SESSIONS active_state
  ∧ userData s' = userData active_state.
Proof.
  intros m c.
  apply (accepted_message_is_relayed toy_enc toy_dec sample_key active_state c m).
  - vm_compute. constructor.
  - reflexivity.
  - reflexivity.
Defined.

(** X13. A message that no live collector accepts, because its author has
    no collector or wrote in another channel than the one of the session,
    changes nothing and has no effect: it is not counted, not answered and
    not sent to the backend. *)
Theorem message_outside_a_session_is_ignored
    (aes_enc aes_dec : Buffer → Buffer → Buffer) (ENCRYPTION_KEY : string)
    (s : State) (m : Message) :
  (∀ c, c ∈ collectors s →
        c_userId c ≠ author_id m ∨ c_channelId c ≠ m_channelId m) →
  step aes_enc aes_dec ENCRYPTION_KEY s (MessageCreate m) = (s, []).
Proof.
  intros H. cbn [step]. rewrite dispatch_ignored.
  - destruct s. cbn. by rewrite app_nil_r.
  - intros c Hc. unfold collector_filter.
    destruct (H c Hc) as [Hu | Hch].
    + destruct (String.eqb_spec (author_id m) (c_userId c)); [congruence | done].
    + destruct (String.eqb_spec (m_channelId m) (c_channelId c));
        [congruence | apply andb_false_r].
Qed.

Lemma message_outside_a_session_is_ignored_witness :
  step toy_enc toy_dec sample_key active_state
    (MessageCreate (message 1 "U1" "other" "hello"))
  = (active_state, []).
Proof.
  apply (message_outside_a_session_is_ignored toy_enc toy_dec sample_key
           active_state (message 1 "U1" "other" "hello")).
  intros c Hc. vm_compute in Hc.
  apply list_elem_of_singleton in Hc. subst c. right. discriminate.
Defined.

(** ** The end of a session *)

Lemma find_collector_remove (id : nat) (cs : list Collector) :
  find_collector id (remove_collector id cs) = None.
Proof.
  apply find_collector_None. intros c Hc.
  by apply elem_of_remove_collector in Hc as [_ Hne].
Qed.

(** X14. A collector ends at most once.  After its timer has fired, or
    after the handler of an exit keyword has called [stop()] on it,
    neither the timer nor the [stop()] of another handler that was waiting
    for the acknowledgement of an exit keyword does anything: no second
    log line, no second notice, and the registry is not touched again. *)
Theorem collector_ends_at_most_once
    (aes_enc aes_dec : Buffer → Buffer → Buffer) (ENCRYPTION_KEY : string)
    (s : State) (id : nat) (e : Event) :
  e = CollectorTimeout id
  ∨ (∃ n m, e = Resume n Settled
            ∧ suspended s !! n = Some (ExitAwaitAck id m)) →
  let s1 := (step aes_enc aes_dec ENCRYPTION_KEY s e).1 in
  find_collector id (collectors s1) = None
  ∧ step aes_enc aes_dec ENCRYPTION_KEY s1 (CollectorTimeout id) = (s1, [])
  ∧ ∀ n m, suspended s1 !! n = Some (ExitAwaitAck id m) →
           step aes_enc aes_dec ENCRYPTION_KEY s1 (Resume n Settled)
           = (with_suspended (delete n (suspended s1)) s1, []).
Proof.
  intros He s1.
  assert (Hend : ∀ s0, find_collector id (collectors (end_collector id s0).1)
                       = None).
  { intros s0.
    destruct (find_collector id (collectors s0)) as [c|] eqn:Hfind.
    - rewrite (end_collector_live _ _ _ Hfind). cbn.
      apply find_collector_remove.
    - by rewrite end_collector_ended. }
  assert (Hgone : find_collector id (collectors s1) = None).
  { subst s1. destruct He as [-> | (n & m & -> & Hn)].
    - cbn [step]. apply Hend.
    - erewrite step_resume; [| done | reflexivity]. apply Hend. }
  split_and!; [done | |].
  - cbn [step]. by apply end_collector_ended.
  - intros n m Hn. erewrite step_resume; [| done | reflexivity].
    by apply end_collector_ended.
Qed.

Lemma collector_ends_at_most_once_witness :
  let e := Resume 0 Settled in
  let s1 := (step toy_enc toy_dec sample_key exit_pending_state e).1 in
  suspended exit_pending_state !! 0
  = Some (ExitAwaitAck 0 (message 1 "U1" "c" "stop"))
  ∧ find_collector 0 (collectors s1) = None
  ∧ step toy_enc toy_dec sample_key s1 (CollectorTimeout 0) = (s1, [])
  ∧ ∀ n m, suspended s1 !! n = Some (ExitAwaitAck 0 m) →
           step toy_enc toy_dec sample_key s1 (Resume n Settled)
           = (with_suspended (delete n (suspended s1)) s1, []).
Proof.
  intros e s1. split; [reflexivity |].
  apply (collector_ends_at_most_once toy_enc toy_dec sample_key
           exit_pending_state 0 e).
  right. by exists 0, (message 1 "U1" "c" "stop").
Defined.

Lemma after_save_sessions (k : SaveCont) (s : State) :
  ACTIVE_SESSIONS (after_save k s).1 = ACTIVE_SESSIONS s
  ∨ ∃ v, ACTIVE_SESSIONS (after_save k s).1 = {[v]} ∪ ACTIVE_SESSIONS s.
Proof.
  destruct (after_save_cases k s)
    as [(i & text & line & ->) | [(i & text & ->) | (i & p & key & _ & ->)]];
    cbn; eauto.
Qed.

(** X15. A user leaves the registry only through the end of one of their
    collectors: when an event takes a user out of the registry, a
    collector of that user was live before and is gone after it, and the
    event produces the log line with the count and the notice in the
    channel of the collector.  No command, [deletekey] included, takes a
    user out of the registry. *)
Theorem registry_left_only_when_a_collector_ends
    (aes_enc aes_dec : Buffer → Buffer → Buffer) (ENCRYPTION_KEY : string)
    (s : State) (e : Event) (u : string) :
  u ∈ ACTIVE_SESSIONS s →
  u ∉ ACTIVE_SESSIONS (step aes_enc aes_dec ENCRYPTION_KEY s e).1 →
  ∃ c, c ∈ collectors s ∧ c_userId c = u
       ∧ (c ∉ collectors (step aes_enc aes_dec ENCRYPTION_KEY s e).1)
       ∧ (e = CollectorTimeout (collector_id c)
          ∨ ∃ n m, e = Resume n Settled
                   ∧ suspended s !! n = Some (ExitAwaitAck (collector_id c) m))
       ∧ (step aes_enc aes_dec ENCRYPTION_KEY s e).2
         = [Log (Text.ended_log u (length (collected c)));
            ChannelSend (c_channelId c) (Text.expired u)].
Proof.
  intros Hin Hout.
  assert (Hend : ∀ id s0,
    ACTIVE_SESSIONS s0 = ACTIVE_SESSIONS s → collectors s0 = collectors s →
    u ∉ ACTIVE_SESSIONS (end_collector id s0).1 →
    ∃ c, c ∈ collectors s ∧ c_userId c = u ∧ collector_id c = id
         ∧ (c ∉ collectors (end_collector id s0).1)
         ∧ (end_collector id s0).2
           = [Log (Text.ended_log u (length (collected c)));
              ChannelSend (c_channelId c) (Text.expired u)]).
  { intros id s0 Ha Hc.
    destruct (end_collector_cases id s0) as [-> | (c & Hcin & Hid & ->)];
      cbn [fst snd ACTIVE_SESSIONS collectors].
    - rewrite Ha. done.
    - rewrite Ha. intros Hnot.
      assert (Hu : c_userId c = u).
      { destruct (decide (c_userId c = u)) as [| Hne]; [done |].
        destruct Hnot. apply elem_of_difference. split; [done |].
        intros ->%elem_of_singleton. done. }
      exists c. rewrite <- Hc, Hu. split_and!; try done.
      intros [_ Hne]%elem_of_remove_collector. done. }
  destruct e as [i random | m | n o | id].
  - cbn [step] in *.
    destruct (interactionCreate_sessions aes_enc aes_dec ENCRYPTION_KEY
                i random s) as [H | (_ & _ & H)]; rewrite H in Hout.
    + done.
    + destruct Hout. apply elem_of_union. by right.
  - cbn [step] in Hout.
    destruct (dispatch m (collectors s)) as [[cs ps] es]. done.
  - destruct (step_resume_cases aes_enc aes_dec ENCRYPTION_KEY s n o)
      as [Hr | (p & r & Hp & Hr & Hstep)]; rewrite ?Hr, ?Hstep in *; [done |].
    apply resume_cases in Hr
      as [(k & -> & _ & ->) | [(i & prompt & key & -> & -> & ->)
         | [(id & m & -> & -> & ->) | (m & body & -> & ->)]]];
      cbn [fst snd] in *.
    + destruct (after_save_sessions k
                  (with_suspended (delete n (suspended s)) s)) as [H | [v H]];
        rewrite H in Hout; [done |].
      destruct Hout. apply elem_of_union. by right.
    + done.
    + destruct (Hend id (with_suspended (delete n (suspended s)) s))
        as (c & Hc & Hu & Hid & Hgone & Heff); [done | done | done |].
      exists c. subst id. split_and!; try done. right. by exists n, m.
    + done.
  - cbn [step] in *.
    destruct (Hend id s) as (c & Hc & Hu & Hid & Hgone & Heff);
      [done | done | done |].
    exists c. subst id. split_and!; try done. by left.
Qed.

Lemma registry_left_only_when_a_collector_ends_witness :
  let e := CollectorTimeout 0 in
  ∃ c, c ∈ collectors active_state ∧ c_userId c = "U1"
       ∧ (c ∉ collectors (step toy_enc toy_dec sample_key active_state e).1)
       ∧ (e = CollectorTimeout (collector_id c)
          ∨ ∃ n m, e = Resume n Settled
                   ∧ suspended active_state !! n
                     = Some (ExitAwaitAck (collector_id c) m))
       ∧ (step toy_enc toy_dec sample_key active_state e).2
         = [Log (Text.ended_log "U1" (length (collected c)));
            ChannelSend (c_channelId c) (Text.expired "U1")].
Proof.
  intros e.
  apply (registry_left_only_when_a_collector_ends toy_enc toy_dec sample_key
           active_state e "U1").
  - apply (bool_decide_eq_true_1 _). by vm_compute.
  - apply (bool_decide_eq_false_1 _). by vm_compute.
Defined.

(** ** The commands that change the record of the user *)

Lemma lazy_init_present u (d : gmap string UserRecord) :
  is_Some (d !! u) → lazy_init u d = d.
Proof. intros [r Hr]. unfold lazy_init. by rewrite Hr. Qed.

Section Commands.

Variable aes_enc : Buffer → Buffer → Buffer.
Variable aes_dec : Buffer → Buffer → Buffer.
Variable ENCRYPTION_KEY : string.

Lemma step_setkey (s : State) (i : Interaction) (random : Buffer)
    (key token : string) :
  isChatInputCommand i = true → commandName i = "setkey" →
  openai_key i = Some key →
  encrypt aes_enc ENCRYPTION_KEY random key = Ok token →
  let d := alter (set_openaiKey (Some token)) (user_id i)
             (lazy_init (user_id i) (userData s)) in
  step aes_enc aes_dec ENCRYPTION_KEY s (InteractionCreate i random)
  = ({| userData := d; ACTIVE_SESSIONS := ACTIVE_SESSIONS s;
        collectors := collectors s;
        suspended := suspended s ++ [AwaitSave (KSetKey i)];
        next_collector := next_collector s |},
     [WriteFile d]).
Proof.
  intros Hchat Hname Hkey Hencrypt d. cbn [step]. unfold interactionCreate.
  by rewrite Hchat, Hname, Hkey, Hencrypt.
Qed.

Lemma step_deleteprompt (s : State) (i : Interaction) (random : Buffer) :
  isChatInputCommand i = true → commandName i = "deleteprompt" →
  step aes_enc aes_dec ENCRYPTION_KEY s (InteractionCreate i random)
  = let s0 := with_userData (lazy_init (user_id i) (userData s)) s in
    if Js.truthy (userData s !! user_id i ≫= promptId) then
      saveUserData (KDeletePrompt i)
        (with_userData
           (alter (set_promptId None) (user_id i) (userData s0)) s0)
    else (s0, [Reply i "No custom prompt to delete." true]).
Proof.
  intros Hchat Hname. cbn [step]. unfold interactionCreate.
  rewrite Hchat, Hname. cbn [negb String.eqb Ascii.eqb Bool.eqb userData with_userData].
  by rewrite lazy_init_field.
Qed.

Lemma step_deletekey (s : State) (i : Interaction) (random : Buffer) :
  isChatInputCommand i = true → commandName i = "deletekey" →
  step aes_enc aes_dec ENCRYPTION_KEY s (InteractionCreate i random)
  = let s0 := with_userData (lazy_init (user_id i) (userData s)) s in
    if Js.truthy (userData s !! user_id i ≫= openaiKey) then
      saveUserData (KDeleteKey i)
        (with_userData
           (alter (set_openaiKey None) (user_id i) (userData s0)) s0)
    else (s0, [Reply i "No OpenAI API key to delete." true]).
Proof.
  intros Hchat Hname. cbn [step]. unfold interactionCreate.
  rewrite Hchat, Hname. cbn [negb String.eqb Ascii.eqb Bool.eqb userData with_userData].
  by rewrite lazy_init_field.
Qed.

(** The state after [deletekey], whichever branch was taken. *)
Lemma deletekey_state (s : State) (i : Interaction) (random : Buffer) :
  isChatInputCommand i = true → commandName i = "deletekey" →
  let s1 := (step aes_enc aes_dec ENCRYPTION_KEY s (InteractionCreate i random)).1 in
  Js.truthy (userData s1 !! user_id i ≫= openaiKey) = false
  ∧ userData s1 !! user_id i ≫= promptId = userData s !! user_id i ≫= promptId
  ∧ is_Some (userData s1 !! user_id i)
  ∧ ACTIVE_SESSIONS s1 = ACTIVE_SESSIONS s
  ∧ collectors s1 = collectors s.
Proof.
  intros Hchat Hname s1. subst s1. rewrite step_deletekey by done. cbn zeta.
  destruct (Js.truthy (userData s !! user_id i ≫= openaiKey)) eqn:Hkey;
    cbn [fst saveUserData suspend with_suspended with_userData userData
         ACTIVE_SESSIONS collectors].
  - rewrite lookup_alter_eq, lazy_init_lookup.
    split_and!; try done. by destruct (userData s !! user_id i).
  - rewrite lazy_init_field by done. rewrite lazy_init_field by done.
    rewrite lazy_init_lookup. split_and!; done.
Qed.

Lemma deleteprompt_state (s : State) (i : Interaction) (random : Buffer) :
  isChatInputCommand i = true → commandName i = "deleteprompt" →
  let s1 := (step aes_enc aes_dec ENCRYPTION_KEY s (InteractionCreate i random)).1 in
  Js.truthy (userData s1 !! user_id i ≫= promptId) = false
  ∧ userData s1 !! user_id i ≫= openaiKey = userData s !! user_id i ≫= openaiKey
  ∧ is_Some (userData s1 !! user_id i)
  ∧ ACTIVE_SESSIONS s1 = ACTIVE_SESSIONS s
  ∧ collectors s1 = collectors s.
Proof.
  intros Hchat Hname s1. subst s1. rewrite step_deleteprompt by done. cbn zeta.
  destruct (Js.truthy (userData s !! user_id i ≫= promptId)) eqn:Hkey;
    cbn [fst saveUserData suspend with_suspended with_userData userData
         ACTIVE_SESSIONS collectors].
  - rewrite lookup_alter_eq, lazy_init_lookup.
    split_and!; try done. by destruct (userData s !! user_id i).
  - rewrite lazy_init_field by done. rewrite lazy_init_field by done.
    rewrite lazy_init_lookup. split_and!; done.
Qed.

End Commands.

(** X16. [setkey] stores, in the record of the user, a token that
    [decrypt] turns back into the key that was given; it issues the write
    of the store with that token in it and nothing else, leaves the stored
    instruction of the user as it is, and touches neither the registry nor
    the collectors. *)
Theorem setkey_stores_a_token_of_the_key
    (aes_enc aes_dec : Buffer → Buffer → Buffer) (ENCRYPTION_KEY : string)
    (s : State) (i : Interaction) (random : Buffer) (key : string) :
  isChatInputCommand i = true → commandName i = "setkey" →
  openai_key i = Some key →
  (∀ b, Cbc.block_sized b →
        aes_dec (Buffer_from ENCRYPTION_KEY)
          (aes_enc (Buffer_from ENCRYPTION_KEY) b) = b) →
  (∀ b, Cbc.block_sized b →
        Cbc.block_sized (aes_enc (Buffer_from ENCRYPTION_KEY) b)) →
  length (Buffer_from ENCRYPTION_KEY) = Cbc.KEY_SIZE →
  length random = IV_LENGTH →
  let '(s', out) :=
    step aes_enc aes_dec ENCRYPTION_KEY s (InteractionCreate i random) in
  (∃ token, userData s' !! user_id i ≫= openaiKey = Some token
            ∧ encrypt aes_enc ENCRYPTION_KEY random key = Ok token
            ∧ decrypt aes_dec ENCRYPTION_KEY token = Ok key)
  ∧ userData s' !! user_id i ≫= promptId = userData s !! user_id i ≫= promptId
  ∧ out = [WriteFile (userData s')]
  ∧ suspended s' = suspended s ++ [AwaitSave (KSetKey i)]
  ∧ ACTIVE_SESSIONS s' = ACTIVE_SESSIONS s
  ∧ collectors s' = collectors s.
Proof.
  intros Hchat Hname Hkey Hdec Hsized Hsize Hiv.
  pose proof (encrypt_spec aes_enc ENCRYPTION_KEY random key Hsize Hiv) as He.
  rewrite (step_setkey _ _ _ _ _ _ _ _ Hchat Hname Hkey He).
  cbn [userData ACTIVE_SESSIONS collectors suspended].
  rewrite !lookup_alter_eq, !lazy_init_lookup.
  split_and!; try done.
  - eexists. split_and!; [done | done |]. by eapply decrypt_of_encrypt.
  - by destruct (userData s !! user_id i).
Qed.

Lemma setkey_stores_a_token_of_the_key_witness :
  let i := command "setkey" "U2" "c" None (Some "sk-abc") in
  let '(s', out) :=
    step toy_enc toy_dec sample_key (initial sample_store)
      (InteractionCreate i sample_iv) in
  (∃ token, userData s' !! "U2" ≫= openaiKey = Some token
            ∧ encrypt toy_enc sample_key sample_iv "sk-abc" = Ok token
            ∧ decrypt toy_dec sample_key token = Ok "sk-abc")
  ∧ userData s' !! "U2" ≫= promptId
    = userData (initial sample_store) !! "U2" ≫= promptId
  ∧ out = [WriteFile (userData s')]
  ∧ suspended s' = suspended (initial sample_store) ++ [AwaitSave (KSetKey i)]
  ∧ ACTIVE_SESSIONS s' = ACTIVE_SESSIONS (initial sample_store)
  ∧ collectors s' = collectors (initial sample_store).
Proof.
  intros i.
  apply (setkey_stores_a_token_of_the_key toy_enc toy_dec sample_key
           (initial sample_store) i sample_iv "sk-abc").
  - reflexivity.
  - reflexivity.
  - reflexivity.
  - intros b Hb. apply toy_dec_enc; [vm_compute; lia | done].
  - intros b Hb. apply toy_enc_sized; [vm_compute; lia | done].
  - reflexivity.
  - reflexivity.
Defined.

(** X17. When the process key is not 32 bytes long, [setkey] stores
    nothing: the error of the cipher is caught by the handler, which logs
    it and answers "An error occurred."; no token and no plain key enters
    the store, and nothing is written. *)
Theorem setkey_with_unusable_process_key_stores_nothing
    (aes_enc aes_dec : Buffer → Buffer → Buffer) (ENCRYPTION_KEY : string)
    (s : State) (i : Interaction) (random : Buffer) (key : string) :
  isChatInputCommand i = true → commandName i = "setkey" →
  openai_key i = Some key →
  length (Buffer_from ENCRYPTION_KEY) ≠ Cbc.KEY_SIZE →
  ∃ err,
    step aes_enc aes_dec ENCRYPTION_KEY s (InteractionCreate i random)
    = (with_userData (lazy_init (user_id i) (userData s)) s,
       [Log (Text.handler_error "setkey" err);
        Reply i "An error occurred." true]).
Proof.
  intros Hchat Hname Hkey Hsize.
  destruct (encrypt aes_enc ENCRYPTION_KEY random key) as [token | err]
    eqn:Hencrypt.
  - apply encrypt_ok_sizes in Hencrypt as [Hk _]. done.
  - exists err. cbn [step]. unfold interactionCreate, on_error.
    by rewrite Hchat, Hname, Hkey, Hencrypt.
Qed.

Lemma setkey_with_unusable_process_key_stores_nothing_witness :
  let i := command "setkey" "U2" "c" None (Some "sk-abc") in
  ∃ err,
    step toy_enc toy_dec multibyte_key (initial sample_store)
      (InteractionCreate i sample_iv)
    = (with_userData (lazy_init "U2" (userData (initial sample_store)))
         (initial sample_store),
       [Log (Text.handler_error "setkey" err);
        Reply i "An error occurred." true]).
Proof.
  intros i.
  apply (setkey_with_unusable_process_key_stores_nothing toy_enc toy_dec
           multibyte_key (initial sample_store) i sample_iv "sk-abc").
  - reflexivity.
  - reflexivity.
  - reflexivity.
  - vm_compute. discriminate.
Defined.

(** X18. [deletekey] takes effect at once, before the write of the store
    has completed: whether or not there was a credential, a chat command
    of the user that follows is refused for want of a credential and
    changes nothing, and a second [deletekey] finds nothing to delete and
    writes nothing.  The stored instruction of the user is kept. *)
Theorem deletekey_takes_effect_at_once
    (aes_enc aes_dec : Buffer → Buffer → Buffer) (ENCRYPTION_KEY : string)
    (s : State) (i i1 i2 : Interaction) (random random1 random2 : Buffer) :
  isChatInputCommand i = true → commandName i = "deletekey" →
  isChatInputCommand i1 = true → commandName i1 = "chat" →
  isChatInputCommand i2 = true → commandName i2 = "deletekey" →
  user_id i1 = user_id i → user_id i2 = user_id i →
  user_id i ∉ ACTIVE_SESSIONS s →
  let s1 := (step aes_enc aes_dec ENCRYPTION_KEY s (InteractionCreate i random)).1 in
  step aes_enc aes_dec ENCRYPTION_KEY s1 (InteractionCreate i1 random1)
  = (s1, [Reply i1 Text.no_key true])
  ∧ step aes_enc aes_dec ENCRYPTION_KEY s1 (InteractionCreate i2 random2)
    = (s1, [Reply i2 "No OpenAI API key to delete." true])
  ∧ userData s1 !! user_id i ≫= promptId = userData s !! user_id i ≫= promptId.
Proof.
  intros Hchat Hname Hchat1 Hname1 Hchat2 Hname2 Hu1 Hu2 Hidle s1.
  destruct (deletekey_state aes_enc aes_dec ENCRYPTION_KEY s i random Hchat Hname)
    as (Hkey & Hprompt & Hsome & Hactive & _).
  fold s1 in Hkey, Hprompt, Hsome, Hactive.
  split_and!; [| | done].
  - rewrite step_chat by done. rewrite Hu1.
    rewrite lazy_init_present, with_userData_same by done.
    unfold handleChatCommand. rewrite Hu1, Hactive.
    rewrite bool_decide_eq_false_2 by done. by rewrite Hkey.
  - rewrite step_deletekey by done. rewrite Hu2. cbn zeta.
    rewrite Hkey. by rewrite lazy_init_present, with_userData_same.
Qed.

Lemma deletekey_takes_effect_at_once_witness :
  let i := command "deletekey" "U1" "c" None None in
  let i1 := chat "U1" "c" (Some "be long") in
  let s1 := (step toy_enc toy_dec sample_key (initial sample_store)
               (InteractionCreate i [])).1 in
  step toy_enc toy_dec sample_key s1 (InteractionCreate i1 [])
  = (s1, [Reply i1 Text.no_key true])
  ∧ step toy_enc toy_dec sample_key s1 (InteractionCreate i [])
    = (s1, [Reply i "No OpenAI API key to delete." true])
  ∧ userData s1 !! "U1" ≫= promptId
    = userData (initial sample_store) !! "U1" ≫= promptId.
Proof.
  intros i i1.
  apply (deletekey_takes_effect_at_once toy_enc toy_dec sample_key
           (initial sample_store) i i1 i [] [] []);
    try reflexivity.
  apply not_elem_of_empty.
Defined.

(** X19. [deleteprompt] takes effect at once and keeps the credential: a
    second [deleteprompt] finds nothing to delete and writes nothing, and
    a chat command without an inline instruction, from a user without a
    session whose credential decrypts, is refused for want of an
    instruction, without the user entering the registry. *)
Theorem deleteprompt_takes_effect_at_once
    (aes_enc aes_dec : Buffer → Buffer → Buffer) (ENCRYPTION_KEY : string)
    (s : State) (i i1 i2 : Interaction) (random random1 random2 : Buffer)
    (token key : string) :
  isChatInputCommand i = true → commandName i = "deleteprompt" →
  isChatInputCommand i1 = true → commandName i1 = "chat" →
  isChatInputCommand i2 = true → commandName i2 = "deleteprompt" →
  user_id i1 = user_id i → user_id i2 = user_id i →
  user_id i ∉ ACTIVE_SESSIONS s →
  Js.truthy (prompt_id i1) = false →
  userData s !! user_id i ≫= openaiKey = Some token →
  token ≠ EmptyString →
  decrypt aes_dec ENCRYPTION_KEY token = Ok key →
  let s1 := (step aes_enc aes_dec ENCRYPTION_KEY s (InteractionCreate i random)).1 in
  step aes_enc aes_dec ENCRYPTION_KEY s1 (InteractionCreate i1 random1)
  = (s1, [Reply i1 Text.no_prompt true])
  ∧ step aes_enc aes_dec ENCRYPTION_KEY s1 (InteractionCreate i2 random2)
    = (s1, [Reply i2 "No custom prompt to delete." true])
  ∧ userData s1 !! user_id i ≫= openaiKey = Some token.
Proof.
  intros Hchat Hname Hchat1 Hname1 Hchat2 Hname2 Hu1 Hu2 Hidle Hinline
    Htoken Htruthy Hdecrypt s1.
  destruct (deleteprompt_state aes_enc aes_dec ENCRYPTION_KEY s i random
              Hchat Hname) as (Hprompt & Hkey & Hsome & Hactive & _).
  fold s1 in Hkey, Hprompt, Hsome, Hactive.
  split_and!; [| | congruence].
  - rewrite step_chat by done. rewrite Hu1.
    rewrite lazy_init_present, with_userData_same by done.
    unfold handleChatCommand. rewrite Hu1, Hactive.
    rewrite bool_decide_eq_false_2 by done.
    rewrite Hkey, Htoken.
    replace (Js.truthy (Some token)) with true by (by destruct token).
    cbn [negb from_option id]. rewrite Hdecrypt, Hinline.
    unfold chat_enter. by rewrite Hprompt.
  - rewrite step_deleteprompt by done. rewrite Hu2. cbn zeta.
    rewrite Hprompt. by rewrite lazy_init_present, with_userData_same.
Qed.

Lemma deleteprompt_takes_effect_at_once_witness :
  let i := command "deleteprompt" "U1" "c" None None in
  let i1 := chat "U1" "c" None in
  let s1 := (step toy_enc toy_dec sample_key (initial sample_store)
               (InteractionCreate i [])).1 in
  step toy_enc toy_dec sample_key s1 (InteractionCreate i1 [])
  = (s1, [Reply i1 Text.no_prompt true])
  ∧ step toy_enc toy_dec sample_key s1 (InteractionCreate i [])
    = (s1, [Reply i "No custom prompt to delete." true])
  ∧ userData s1 !! "U1" ≫= openaiKey = Some sample_token.
Proof.
  intros i i1.
  apply (deleteprompt_takes_effect_at_once toy_enc toy_dec sample_key
           (initial sample_store) i i1 i [] [] [] sample_token "sk-abc");
    try reflexivity.
  - apply not_elem_of_empty.
  - discriminate.
Defined.

(** ** The write of the store *)

(** X20. A failed write of the store is reported to the log only.  The
    handler that waited for the write goes on in the same way as after a
    successful one: the state is the same and so is everything that is
    sent, the confirmation to the user included; only the first log line
    differs. *)
Theorem failed_write_is_reported_to_the_log_only
    (aes_enc aes_dec : Buffer → Buffer → Buffer) (ENCRYPTION_KEY : string)
    (s : State) (n : nat) (k : SaveCont) (err : string) :
  suspended s !! n = Some (AwaitSave k) →
  ∃ s' i text rest,
    step aes_enc aes_dec ENCRYPTION_KEY s (Resume n WriteOk)
    = (s', Log "User data saved successfully." :: rest)
    ∧ step aes_enc aes_dec ENCRYPTION_KEY s (Resume n (WriteFailed err))
      = (s', Log ("Failed to save user data: " +:+ err) :: rest)
    ∧ Reply i text true ∈ rest
    ∧ userData s' = userData s.
Proof.
  intros Hn.
  set (s0 := with_suspended (delete n (suspended s)) s).
  assert (Hreply : ∃ i text, Reply i text true ∈ (after_save k s0).2
                             ∧ userData (after_save k s0).1 = userData s).
  { destruct (after_save_cases k s0)
      as [(i & text & line & ->) | [(i & text & ->) | (i & p & key & _ & ->)]];
      exists i; eexists; (split; [cbn; repeat constructor | done]). }
  destruct Hreply as (i & text & Hin & Hd).
  exists (after_save k s0).1, i, text, (after_save k s0).2.
  split_and!; try done.
  - by erewrite step_resume; [| done | reflexivity].
  - by erewrite step_resume; [| done | reflexivity].
Qed.

Lemma failed_write_is_reported_to_the_log_only_witness :
  let i0 := command "setkey" "U2" "c" None (Some "sk-abc") in
  let s := (step toy_enc toy_dec sample_key (initial sample_store)
              (InteractionCreate i0 sample_iv)).1 in
  suspended s !! 0 = Some (AwaitSave (KSetKey i0))
  ∧ ∃ s' i text rest,
      step toy_enc toy_dec sample_key s (Resume 0 WriteOk)
      = (s', Log "User data saved successfully." :: rest)
      ∧ step toy_enc toy_dec sample_key s (Resume 0 (WriteFailed "Error: EACCES"))
        = (s', Log ("Failed to save user data: " +:+ "Error: EACCES") :: rest)
      ∧ Reply i text true ∈ rest
      ∧ userData s' = userData s.
Proof.
  intros i0 s. split; [reflexivity |].
  apply (failed_write_is_reported_to_the_log_only toy_enc toy_dec sample_key
           s 0 (KSetKey i0) "Error: EACCES").
  reflexivity.
Defined.

(** ** A running session and the commands *)

(** X21. No slash command reaches a running session: the collectors
    are the same after it, and a message that a collector accepts is
    still relayed with the credential and the instruction that the
    collector took when the session began.  In particular the session
    goes on with the credential after [deletekey] has removed it from the
    store. *)
Theorem running_session_keeps_its_credential_and_instruction
    (aes_enc aes_dec : Buffer → Buffer → Buffer) (ENCRYPTION_KEY : string)
    (s : State) (i : Interaction) (random : Buffer)
    (c : Collector) (m : Message) :
  c ∈ collectors s → collector_filter c m = true →
  is_exit_keyword (content m) = false →
  let s1 := (step aes_enc aes_dec ENCRYPTION_KEY s (InteractionCreate i random)).1 in
  collectors s1 = collectors s
  ∧ HttpsRequest ("Bearer " +:+ c_openaiKey c)
      {| model := "gpt-4"; max_tokens := 500; system_content := c_prompt c;
         user_content := Js.trim (content m) |}
      ∈ (step aes_enc aes_dec ENCRYPTION_KEY s1 (MessageCreate m)).2
  ∧ (isChatInputCommand i = true → commandName i = "deletekey" →
     Js.truthy (userData s1 !! user_id i ≫= openaiKey) = false).
Proof.
  intros Hc Hf Hexit s1.
  destruct (interactionCreate_frame aes_enc aes_dec ENCRYPTION_KEY i random s)
    as (Hcs & _ & _).
  assert (Hcs1 : collectors s1 = collectors s) by done.
  split_and!; [done | |].
  - cbn [step]. rewrite Hcs1.
    destruct (dispatch_accepted m (collectors s) c Hc Hf) as (_ & _ & H3).
    destruct (dispatch m (collectors s)) as [[cs ps] es]. cbn [fst snd] in *.
    apply H3. unfold on_collect. fold (is_exit_keyword (content m)).
    rewrite Hexit. cbn. right. by left.
  - intros Hchat Hname.
    by destruct (deletekey_state aes_enc aes_dec ENCRYPTION_KEY s i random
                   Hchat Hname) as (Hkey & _).
Qed.

Lemma running_session_keeps_its_credential_and_instruction_witness :
  let i := command "deletekey" "U1" "c" None None in
  let m := message 1 "U1" "c" "hello" in
  let s1 := (step toy_enc toy_dec sample_key active_state
               (InteractionCreate i [])).1 in
  collectors s1 = collectors active_state
  ∧ HttpsRequest "Bearer sk-abc"
      {| model := "gpt-4"; max_tokens := 500; system_content := "be brief";
         user_content := "hello" |}
      ∈ (step toy_enc toy_dec sample_key s1 (MessageCreate m)).2
  ∧ (isChatInputCommand i = true → commandName i = "deletekey" →
     Js.truthy (userData s1 !! "U1" ≫= openaiKey) = false).
Proof.
  intros i m.
  apply (running_session_keeps_its_credential_and_instruction toy_enc toy_dec
           sample_key active_state i []
           {| collector_id := 0; c_userId := "U1"; c_channelId := "c";
              c_prompt := "be brief"; c_openaiKey := "sk-abc";
              collected := [] |} m).
  - vm_compute. constructor.
  - reflexivity.
  - reflexivity.
Defined.

(** ** The answer of the backend *)


(** ** The commands that only answer *)

(** X23. The commands [promptlimit], [info] and [help] and every
    command with an unknown name only answer: the store is not written,
    nothing is logged, no handler is suspended, and the state is as before
    but for the empty record that is created for a user without one.  The
    answer of [info] tells which of the two fields are set and nothing of
    their content: it is the same for any two records with the same fields
    set, and for a user without a record it is the answer for an empty
    record. *)
Theorem commands_that_only_answer
    (aes_enc aes_dec : Buffer → Buffer → Buffer) (ENCRYPTION_KEY : string)
    (s : State) (i : Interaction) (random : Buffer) :
  isChatInputCommand i = true →
  commandName i ∉ ["setprompt"; "setkey"; "deleteprompt"; "deletekey"; "chat"] →
  (∃ text,
     step aes_enc aes_dec ENCRYPTION_KEY s (InteractionCreate i random)
     = (with_userData (lazy_init (user_id i) (userData s)) s,
        [Reply i text true])
     ∧ (commandName i = "info" → text = Text.info (userData s !! user_id i)))
  ∧ (∀ r r' : option UserRecord,
       Js.truthy (r ≫= openaiKey) = Js.truthy (r' ≫= openaiKey) →
       Js.truthy (r ≫= promptId) = Js.truthy (r' ≫= promptId) →
       Text.info r = Text.info r').
Proof.
  intros Hchat Hname. split.
  - cbn [step]. unfold interactionCreate. rewrite Hchat. cbn [negb].
    destruct (String.eqb_spec (commandName i) "setprompt") as [H | _].
    { destruct Hname. rewrite H. repeat constructor. }
    destruct (String.eqb_spec (commandName i) "promptlimit") as [H | _].
    { eexists. split; [done |]. by rewrite H. }
    destruct (String.eqb_spec (commandName i) "setkey") as [H | _].
    { destruct Hname. rewrite H. repeat constructor. }
    destruct (String.eqb_spec (commandName i) "deleteprompt") as [H | _].
    { destruct Hname. rewrite H. repeat constructor. }
    destruct (String.eqb_spec (commandName i) "deletekey") as [H | _].
    { destruct Hname. rewrite H. repeat constructor. }
    destruct (String.eqb_spec (commandName i) "info") as [H | Hinfo].
    { eexists. split; [done |]. intros _.
      cbn [userData with_userData]. unfold Text.info.
      by rewrite !lazy_init_field. }
    destruct (String.eqb_spec (commandName i) "help") as [H | _].
    { eexists. split; [done |]. by rewrite H. }
    destruct (String.eqb_spec (commandName i) "chat") as [H | _].
    { destruct Hname. rewrite H. repeat constructor. }
    eexists. split; [done |]. done.
  - intros r r' Hk Hp. unfold Text.info. by rewrite Hk, Hp.
Qed.

Lemma commands_that_only_answer_witness :
  let i := command "info" "U2" "c" None None in
  (∃ text,
     step toy_enc toy_dec sample_key (initial sample_store)
       (InteractionCreate i [])
     = (with_userData (lazy_init "U2" (userData (initial sample_store)))
          (initial sample_store),
        [Reply i text true])
     ∧ (commandName i = "info" →
        text = Text.info (userData (initial sample_store) !! "U2")))
  ∧ (∀ r r' : option UserRecord,
       Js.truthy (r ≫= openaiKey) = Js.truthy (r' ≫= openaiKey) →
       Js.truthy (r ≫= promptId) = Js.truthy (r' ≫= promptId) →
       Text.info r = Text.info r').
Proof.
  intros i.
  apply (commands_that_only_answer toy_enc toy_dec sample_key
           (initial sample_store) i []).
  - reflexivity.
  - intros H. cbn in H.
    repeat (apply elem_of_cons in H as [H | H]; [discriminate H |]).
    by apply elem_of_nil in H.
Defined.

(** ** The chat command with a credential that cannot be read *)

(** X24. A chat command of a user without a session whose stored
    credential cannot be decrypted is refused with the advice to set the
    key again; an inline instruction that comes with it is not stored,
    nothing is written, and the user does not enter the registry.  A
    stored text without a colon, such as a key that was stored
    unencrypted, is such a credential whatever the process key is. *)
Theorem chat_with_unreadable_credential_is_refused
    (aes_enc aes_dec : Buffer → Buffer → Buffer) (ENCRYPTION_KEY : string)
    (s : State) (i : Interaction) (random : Buffer) (token : string) :
  isChatInputCommand i = true → commandName i = "chat" →
  user_id i ∉ ACTIVE_SESSIONS s →
  userData s !! user_id i ≫= openaiKey = Some token →
  token ≠ EmptyString →
  is_ok (decrypt aes_dec ENCRYPTION_KEY token) = false
  ∨ Token.colon_free token →
  step aes_enc aes_dec ENCRYPTION_KEY s (InteractionCreate i random)
  = (with_userData (lazy_init (user_id i) (userData s)) s,
     [Reply i Text.unreadable_key true])
  ∧ lazy_init (user_id i) (userData s) !! user_id i = userData s !! user_id i.
Proof.
  intros Hchat Hname Hidle Htoken Htruthy Hbad.
  assert (Hthrow : ∃ msg, decrypt aes_dec ENCRYPTION_KEY token = Throw msg).
  { destruct Hbad as [Hbad | Hfree].
    - destruct (decrypt aes_dec ENCRYPTION_KEY token); [done | by eexists].
    - unfold decrypt. rewrite split_colon_free by done. by eexists. }
  destruct Hthrow as [msg Hthrow]. split.
  - rewrite step_chat by done. unfold handleChatCommand.
    cbn [ACTIVE_SESSIONS userData with_userData].
    rewrite bool_decide_eq_false_2 by done.
    rewrite lazy_init_field by done. rewrite Htoken.
    replace (Js.truthy (Some token)) with true by (by destruct token).
    cbn [negb from_option id]. by rewrite Hthrow.
  - rewrite lazy_init_lookup.
    destruct (userData s !! user_id i); [done | discriminate].
Qed.

Lemma chat_with_unreadable_credential_is_refused_witness :
  let i := chat "U3" "c" (Some "be long") in
  let s := initial {[ "U3" := {| promptId := None; openaiKey := Some "sk-abc" |} ]} in
  step toy_enc toy_dec sample_key s (InteractionCreate i [])
  = (with_userData (lazy_init "U3" (userData s)) s,
     [Reply i Text.unreadable_key true])
  ∧ lazy_init "U3" (userData s) !! "U3" = userData s !! "U3".
Proof.
  intros i s.
  apply (chat_with_unreadable_credential_is_refused toy_enc toy_dec sample_key
           s i [] "sk-abc").
  - reflexivity.
  - reflexivity.
  - apply not_elem_of_empty.
  - reflexivity.
  - discriminate.
  - right. intros c H. cbn in H.
    repeat (destruct H as [<- | H]; [discriminate |]). destruct H.
Defined.

(** ** From the set-up to the session *)

(** X25. The three commands of the set-up work together.  From any state
    in which the user has no session, [setkey] with a key, [setprompt]
    with an instruction within the limit and [chat] without an inline
    instruction, each handler running to its end before the next command,
    open a session: the user is in the registry, the announcement shows
    the instruction, and the new collector holds the key as it was given
    and the instruction, so that the messages of the user are relayed with
    them. *)
Theorem setup_then_chat_opens_a_session
    (aes_enc aes_dec : Buffer → Buffer → Buffer) (ENCRYPTION_KEY : string)
    (s : State) (u ch key p : string) (random : Buffer) :
  (∀ b, Cbc.block_sized b →
        aes_dec (Buffer_from ENCRYPTION_KEY)
          (aes_enc (Buffer_from ENCRYPTION_KEY) b) = b) →
  (∀ b, Cbc.block_sized b →
        Cbc.block_sized (aes_enc (Buffer_from ENCRYPTION_KEY) b)) →
  length (Buffer_from ENCRYPTION_KEY) = Cbc.KEY_SIZE →
  length random = IV_LENGTH →
  0 < Js.js_length p ≤ CHAR_LIMIT →
  u ∉ ACTIVE_SESSIONS s →
  let n := length (suspended s) in
  let '(s', out) :=
    run aes_enc aes_dec ENCRYPTION_KEY s
      [InteractionCreate (command "setkey" u ch None (Some key)) random;
       Resume n WriteOk;
       InteractionCreate (command "setprompt" u ch (Some p) None) [];
       Resume n WriteOk;
       InteractionCreate (chat u ch None) [];
       Resume n Settled] in
  collectors s'
  = collectors s
    ++ [{| collector_id := next_collector s; c_userId := u; c_channelId := ch;
           c_prompt := p; c_openaiKey := key; collected := [] |}]
  ∧ ACTIVE_SESSIONS s' = {[u]} ∪ ACTIVE_SESSIONS s
  ∧ suspended s' = suspended s
  ∧ Reply (chat u ch None) (Text.announce p) true ∈ out
  ∧ userData s' !! u ≫= promptId = Some p
  ∧ ∃ token, userData s' !! u ≫= openaiKey = Some token
             ∧ decrypt aes_dec ENCRYPTION_KEY token = Ok key.
Proof.
  intros Hdec Hsized Hsize Hiv [Hp0 Hp] Hidle n. subst n.
  pose proof (encrypt_spec aes_enc ENCRYPTION_KEY random key Hsize Hiv) as He.
  set (token := (Hex.encode random +:+ ":") +:+ _) in He.
  pose proof (decrypt_of_encrypt _ _ _ _ _ _ Hdec Hsized He) as Hdecrypt.
  pose proof (encrypt_token_truthy _ _ _ _ _ He) as Htoken.
  pose proof (js_length_truthy p Hp0) as Htp.
  cbn [run].
  (* setkey *)
  rewrite (step_setkey aes_enc aes_dec ENCRYPTION_KEY s _ random key token)
    by done.
  cbn zeta. cbn [user_id command].
  set (d1 := alter (set_openaiKey (Some token)) u (lazy_init u (userData s))).
  erewrite step_resume; [| apply lookup_snoc | reflexivity].
  unfold with_suspended.
  cbn [after_save save_log fst snd app userData ACTIVE_SESSIONS
       collectors suspended next_collector].
  rewrite delete_snoc.
  (* setprompt *)
  rewrite (step_setprompt _ _ _ _ _ _ p) by done.
  cbn zeta.
  destruct (Nat.ltb_spec CHAR_LIMIT (Js.js_length p)) as [Hlong | _]; [lia |].
  unfold saveUserData, suspend, with_suspended, with_userData.
  cbn [userData ACTIVE_SESSIONS collectors suspended next_collector
       user_id command].
  set (d2 := alter (set_promptId (Some p)) u (lazy_init u d1)).
  erewrite step_resume; [| apply lookup_snoc | reflexivity].
  unfold with_suspended.
  cbn [after_save save_log fst snd app userData ACTIVE_SESSIONS
       collectors suspended next_collector].
  rewrite delete_snoc.
  assert (Hd2 : d2 !! u
                = Some {| promptId := Some p; openaiKey := Some token |}).
  { subst d2 d1.
    rewrite lookup_alter_eq, lazy_init_lookup, lookup_alter_eq,
      lazy_init_lookup.
    by destruct (userData s !! u). }
  (* chat *)
  rewrite (chat_stored_step _ _ _ _ _ _ p token key);
    [| done | done | done | done
     | cbn [userData user_id chat command]; by rewrite Hd2 | done | done
     | cbn [userData user_id chat command]; by rewrite Hd2 | done ].
  cbn [userData ACTIVE_SESSIONS collectors suspended next_collector
       user_id channelId chat command].
  rewrite (step_resume_chat_reply _ _ _ _ (length (suspended s)) (chat u ch None) p key)
    by apply lookup_snoc.
  cbn [userData ACTIVE_SESSIONS collectors suspended next_collector
       user_id channelId chat command].
  rewrite delete_snoc.
  rewrite lazy_init_present by (by rewrite Hd2).
  split_and!; try done.
  - cbn [app]. repeat constructor.
  - by rewrite Hd2.
  - exists token. by rewrite Hd2.
Qed.

Lemma setup_then_chat_opens_a_session_witness :
  let s := initial ∅ in
  let '(s', out) :=
    run toy_enc toy_dec sample_key s
      [InteractionCreate (command "setkey" "U1" "c" None (Some "sk-abc")) sample_iv;
       Resume 0 WriteOk;
       InteractionCreate (command "setprompt" "U1" "c" (Some "be brief") None) [];
       Resume 0 WriteOk;
       InteractionCreate (chat "U1" "c" None) [];
       Resume 0 Settled] in
  collectors s'
  = collectors s
    ++ [{| collector_id := next_collector s; c_userId := "U1";
           c_channelId := "c"; c_prompt := "be brief";
           c_openaiKey := "sk-abc"; collected := [] |}]
  ∧ ACTIVE_SESSIONS s' = {["U1"]} ∪ ACTIVE_SESSIONS s
  ∧ suspended s' = suspended s
  ∧ Reply (chat "U1" "c" None) (Text.announce "be brief") true ∈ out
  ∧ userData s' !! "U1" ≫= promptId = Some "be brief"
  ∧ ∃ token, userData s' !! "U1" ≫= openaiKey = Some token
             ∧ decrypt toy_dec sample_key token = Ok "sk-abc".
Proof.
  intros s.
  apply (setup_then_chat_opens_a_session toy_enc toy_dec sample_key s
           "U1" "c" "sk-abc" "be brief" sample_iv).
  - intros b Hb. apply toy_dec_enc; [vm_compute; lia | done].
  - intros b Hb. apply toy_enc_sized; [vm_compute; lia | done].
  - reflexivity.
  - reflexivity.
  - vm_compute. lia.
  - apply not_elem_of_empty.
Defined.

(** ** A session can always be ended, and the registry holds no stale entry *)



Section Sessions.

Variable aes_enc : Buffer → Buffer → Buffer.
Variable aes_dec : Buffer → Buffer → Buffer.
Variable ENCRYPTION_KEY : string.



End Sessions.



(** X27. A live session can always be ended.  In a reachable state, the
    timer of a live collector ends it; and when the user of the collector
    sends an exit keyword in its channel, the message is acknowledged and
    the handler, once resumed, ends the collector.  Either way the
    collector is gone, its user is out of the registry, the log line
    reports the messages counted (the exit keyword included) and the
    notice is sent to the channel. *)
Theorem live_session_can_always_be_ended
    (aes_enc aes_dec : Buffer → Buffer → Buffer) (ENCRYPTION_KEY : string)
    (s : State) (c : Collector) (m : Message) :
  reachable aes_enc aes_dec ENCRYPTION_KEY s →
  c ∈ collectors s →
  collector_filter c m = true → is_exit_keyword (content m) = true →
  (let '(s', out) :=
     step aes_enc aes_dec ENCRYPTION_KEY s (CollectorTimeout (collector_id c)) in
   find_collector (collector_id c) (collectors s') = None
   ∧ (c_userId c ∉ ACTIVE_SESSIONS s')
   ∧ out = [Log (Text.ended_log (c_userId c) (length (collected c)));
            ChannelSend (c_channelId c) (Text.expired (c_userId c))])
  ∧ (let '(s1, out1) :=
       step aes_enc aes_dec ENCRYPTION_KEY s (MessageCreate m) in
     MessageReply m (JStr Text.ack) ∈ out1
     ∧ ∃ n, suspended s1 !! n = Some (ExitAwaitAck (collector_id c) m)
            ∧ let '(s2, out2) :=
                step aes_enc aes_dec ENCRYPTION_KEY s1 (Resume n Settled) in
              find_collector (collector_id c) (collectors s2) = None
              ∧ (c_userId c ∉ ACTIVE_SESSIONS s2)
              ∧ out2 = [Log (Text.ended_log (c_userId c)
                               (S (length (collected c))));
                        ChannelSend (c_channelId c) (Text.expired (c_userId c))]).
Proof.
  intros Hreach Hc Hf Hexit.
  pose proof (reachable_well_formed _ _ _ _ Hreach) as Hwf.
  assert (Hended : ∀ s0 c0,
    NoDup (collector_id <$> collectors s0) → c0 ∈ collectors s0 →
    let '(s', out) := end_collector (collector_id c0) s0 in
    find_collector (collector_id c0) (collectors s') = None
    ∧ (c_userId c0 ∉ ACTIVE_SESSIONS s')
    ∧ out = [Log (Text.ended_log (c_userId c0) (length (collected c0)));
             ChannelSend (c_channelId c0) (Text.expired (c_userId c0))]).
  { intros s0 c0 Hnd Hc0.
    rewrite (end_collector_live _ _ c0) by (by apply find_collector_unique).
    cbn [collectors ACTIVE_SESSIONS]. split_and!; [| | done].
    - apply find_collector_remove.
    - intros [_ Hn]%elem_of_difference. by apply Hn, elem_of_singleton. }
  split.
  - cbn [step]. apply Hended; [by destruct Hwf | done].
  - pose proof (step_well_formed aes_enc aes_dec ENCRYPTION_KEY s
                  (MessageCreate m) Hwf) as Hwf1.
    destruct (dispatch_accepted m (collectors s) c Hc Hf) as (H1 & H2 & H3).
    assert (Hstep : step aes_enc aes_dec ENCRYPTION_KEY s (MessageCreate m)
              = (with_suspended (suspended s ++ (dispatch m (collectors s)).1.2)
                   (with_collectors (dispatch m (collectors s)).1.1 s),
                 (dispatch m (collectors s)).2)).
    { cbn [step]. by destruct (dispatch m (collectors s)) as [[cs ps] es]. }
    rewrite Hstep in Hwf1 |- *. cbn [fst] in Hwf1.
    destruct (dispatch m (collectors s)) as [[cs ps] es]. cbn [fst snd] in *.
    unfold on_collect in H2, H3. fold (is_exit_keyword (content m)) in H2, H3.
    rewrite Hexit in H2, H3. cbn [fst snd] in H2, H3.
    split; [apply H3; by left |].
    apply list_elem_of_lookup_1 in H2 as [j Hj].
    exists (length (suspended s) + j).
    assert (Hn : (suspended s ++ ps) !! (length (suspended s) + j)
                 = Some (ExitAwaitAck (collector_id c) m)).
    { by rewrite lookup_app_r, Nat.add_comm, Nat.add_sub by lia. }
    split; [exact Hn |].
    erewrite step_resume; [| exact Hn | reflexivity].
    pose proof (Hended
      (with_suspended (delete (length (suspended s) + j) (suspended s ++ ps))
         (with_suspended (suspended s ++ ps) (with_collectors cs s)))
      (add_collected m c)) as He.
    cbn [add_collected collector_id c_userId c_channelId collected] in He.
    replace (length (collected c ++ [m])) with (S (length (collected c))) in He
      by (rewrite length_app; cbn [length]; lia).
    apply He; [by destruct Hwf1 | done].
Qed.

Lemma live_session_can_always_be_ended_witness :
  let c := {| collector_id := 0; c_userId := "U1"; c_channelId := "c";
              c_prompt := "be brief"; c_openaiKey := "sk-abc";
              collected := [] |} in
  let m := message 1 "U1" "c" " Stop " in
  (let '(s', out) :=
     step toy_enc toy_dec sample_key active_state (CollectorTimeout 0) in
   find_collector 0 (collectors s') = None
   ∧ ("U1" ∉ ACTIVE_SESSIONS s')
   ∧ out = [Log (Text.ended_log "U1" 0); ChannelSend "c" (Text.expired "U1")])
  ∧ (let '(s1, out1) :=
       step toy_enc toy_dec sample_key active_state (MessageCreate m) in
     MessageReply m (JStr Text.ack) ∈ out1
     ∧ ∃ n, suspended s1 !! n = Some (ExitAwaitAck 0 m)
            ∧ let '(s2, out2) :=
                step toy_enc toy_dec sample_key s1 (Resume n Settled) in
              find_collector 0 (collectors s2) = None
              ∧ ("U1" ∉ ACTIVE_SESSIONS s2)
              ∧ out2 = [Log (Text.ended_log "U1" 1);
                        ChannelSend "c" (Text.expired "U1")]).
Proof.
  intros c m.
  apply (live_session_can_always_be_ended toy_enc toy_dec sample_key
           active_state c m).
  - apply active_state_reachable.
  - vm_compute. constructor.
  - reflexivity.
  - reflexivity.
Defined.

(** ** Two chat commands without an inline instruction *)

(** X28. On the path without an inline instruction the check of the registry
    and the entry into the registry are not separated by an await: when a
    user without a session, with a credential that decrypts and a stored
    instruction, invokes [chat] without an inline instruction, the user is
    in the registry when the handler first yields, and any chat command of
    that user that arrives next, before the announcement has been
    delivered, is refused with the conflict message and changes
    nothing. *)
Theorem chat_without_inline_instruction_is_exclusive
    (aes_enc aes_dec : Buffer → Buffer → Buffer) (ENCRYPTION_KEY : string)
    (s : State) (i i' : Interaction) (random random' : Buffer)
    (p token key : string) :
  isChatInputCommand i = true → commandName i = "chat" →
  Js.truthy (prompt_id i) = false →
  user_id i ∉ ACTIVE_SESSIONS s →
  userData s !! user_id i ≫= openaiKey = Some token →
  token ≠ EmptyString →
  decrypt aes_dec ENCRYPTION_KEY token = Ok key →
  userData s !! user_id i ≫= promptId = Some p →
  p ≠ EmptyString →
  isChatInputCommand i' = true → commandName i' = "chat" →
  user_id i' = user_id i →
  let '(s1, out1) :=
    step aes_enc aes_dec ENCRYPTION_KEY s (InteractionCreate i random) in
  user_id i ∈ ACTIVE_SESSIONS s1
  ∧ out1 = [Reply i (Text.announce p) true]
  ∧ step aes_enc aes_dec ENCRYPTION_KEY s1 (InteractionCreate i' random')
    = (s1, [Reply i' (Text.conflict (user_id i)) true]).
Proof.
  intros Hchat Hname Hinline Hidle Htoken Htruthy Hdecrypt Hstored Hp
    Hchat' Hname' Hu.
  rewrite (chat_stored_step _ _ _ _ _ _ p token key);
    [| done | done | done | done | done | by destruct token | done | done
     | by destruct p ].
  split_and!; [apply elem_of_union; left; by apply elem_of_singleton | done |].
  rewrite chat_refused_when_active;
    [| done | done
     | rewrite Hu; apply elem_of_union; left; by apply elem_of_singleton ].
  rewrite Hu. cbn [userData].
  rewrite lazy_init_idemp. done.
Qed.

Lemma chat_without_inline_instruction_is_exclusive_witness :
  let i := chat "U1" "c" None in
  let i' := chat "U1" "c" (Some "be long") in
  let '(s1, out1) :=
    step toy_enc toy_dec sample_key (initial sample_store)
      (InteractionCreate i []) in
  "U1" ∈ ACTIVE_SESSIONS s1
  ∧ out1 = [Reply i (Text.announce "be brief") true]
  ∧ step toy_enc toy_dec sample_key s1 (InteractionCreate i' [])
    = (s1, [Reply i' (Text.conflict "U1") true]).
Proof.
  intros i i'.
  apply (chat_without_inline_instruction_is_exclusive toy_enc toy_dec
           sample_key (initial sample_store) i i' [] []
           "be brief" sample_token "sk-abc");
    [ reflexivity | reflexivity | reflexivity | apply not_elem_of_empty
    | reflexivity | discriminate | apply sample_token_decrypts | reflexivity
    | discriminate | reflexivity | reflexivity | reflexivity ].
Defined.
